(** * The DOM-automation campaign engine of the WhatsApp Web extension

    A shallow embedding of the campaign core of [content/content.js]:
    phone-number normalisation and contact-list parsing, the hourly rate
    limiter of the stealth policy, the bounded DOM-polling loops, and the
    campaign runner with its pause / stop controls and its entry points.

    Conventions.  A JavaScript string is a [string]: one [ascii] stands for one
    code unit.  [Date.now()] is an integer number of milliseconds, a [Z].
    An [async] function is cut at its [await]s: the code between two
    suspensions runs to completion, and click handlers and incoming messages
    run only while every runner is suspended. *)

From Stdlib Require Import String Ascii List ZArith Lia Bool Arith PeanoNat Sorted.
Import ListNotations.

(* ================================================================= *)
(** ** JavaScript string primitives used by the core *)

Module Js.

Local Open Scope char_scope.
Local Open Scope nat_scope.

(** [\d] without the unicode flag: the ten ASCII digits. *)
Definition isDigit (c : ascii) : bool :=
  (48 <=? nat_of_ascii c) && (nat_of_ascii c <=? 57).

Definition isPlus (c : ascii) : bool := Ascii.eqb c "+".

(** The white space that [String.prototype.trim] strips (WhiteSpace and
    LineTerminator), for one-byte code units: TAB, LF, VT, FF, CR, SP, NBSP. *)
Definition isSpace (c : ascii) : bool :=
  let n := nat_of_ascii c in
  ((9 <=? n) && (n <=? 13)) || (n =? 32) || (n =? 160).

(** [s.replace(/[^...]/g, '')]: keep the characters of the class. *)
Fixpoint keepChars (keep : ascii -> bool) (s : string) : string :=
  match s with
  | EmptyString => EmptyString
  | String c r => if keep c then String c (keepChars keep r) else keepChars keep r
  end.

(** [s.replace(/[^\d+]/g, '')] *)
Definition keepDigitsPlus : string -> string :=
  keepChars (fun c => isDigit c || isPlus c).

(** [s.replace(/\D/g, '')], also written [s.replace(/[^\d]/g, '')] *)
Definition keepDigits : string -> string := keepChars isDigit.

Definition startsWith (s p : string) : bool := String.prefix p s.

Definition isEmpty (s : string) : bool :=
  match s with EmptyString => true | _ => false end.

Fixpoint trimStart (s : string) : string :=
  match s with
  | EmptyString => EmptyString
  | String c r => if isSpace c then trimStart r else s
  end.

Fixpoint trimEnd (s : string) : string :=
  match s with
  | EmptyString => EmptyString
  | String c r =>
      let r' := trimEnd r in
      if isSpace c && isEmpty r' then EmptyString else String c r'
  end.

Definition trim (s : string) : string := trimEnd (trimStart s).

(** Prepend a character to the piece being read by a split. *)
Definition consHead (c : ascii) (pieces : list string) : list string :=
  match pieces with
  | [] => [String c EmptyString]
  | h :: t => String c h :: t
  end.

(** [s.split(',')] *)
Fixpoint splitComma (s : string) : list string :=
  match s with
  | EmptyString => [EmptyString]
  | String c r =>
      if Ascii.eqb c "," then EmptyString :: splitComma r
      else consHead c (splitComma r)
  end.

Definition LF : ascii := "010".
Definition CR : ascii := "013".

(** [s.split(/\r?\n/)]: a separator is LF, or CR immediately followed by LF. *)
Fixpoint splitLines (s : string) : list string :=
  match s with
  | EmptyString => [EmptyString]
  | String c r =>
      if Ascii.eqb c LF then EmptyString :: splitLines r
      else if Ascii.eqb c CR then
        match r with
        | String c2 r2 =>
            if Ascii.eqb c2 LF then EmptyString :: splitLines r2
            else consHead c (splitLines r)
        | EmptyString => consHead c (splitLines r)
        end
      else consHead c (splitLines r)
  end.

(** [s.includes(sub)] *)
Fixpoint includes (s sub : string) : bool :=
  String.prefix sub s ||
  match s with
  | EmptyString => false
  | String _ r => includes r sub
  end.

(** [s.slice(-n)]: the last [n] characters, all of [s] when it is shorter. *)
Definition sliceLast (n : nat) (s : string) : string :=
  substring (String.length s - n) n s.

(** Every character of [s] satisfies [p]. *)
Fixpoint allChars (p : ascii -> bool) (s : string) : bool :=
  match s with
  | EmptyString => true
  | String c r => p c && allChars p r
  end.

End Js.

(* ================================================================= *)
(** ** Phone normalisation and contact-list parsing *)

Local Open Scope string_scope.

(** [function safeText(x)] on a string argument. *)
Definition safeText (x : string) : string := x.

(** [function normalizePhoneNumber(phone)].  The length check at its end only
    writes to the debug log. *)
Definition normalizePhoneNumber (phone : string) : string :=
  let digits := Js.keepDigitsPlus phone in
  if Js.startsWith digits "+" then digits
  else if Js.startsWith digits "55" && (12 <=? String.length digits)%nat
       then "+" ++ digits
       else "+55" ++ digits.

(** A campaign entry as [parseCampaignLines] builds it: [{ number, name }]. *)
Record ContactEntry : Type := mkEntry { number : string; name : string }.

(** The body of the first loop of [parseCampaignLines] for one line:
    [None] is the [continue]. *)
Definition parseCampaignLine (line : string) : option ContactEntry :=
  let parts := map Js.trim (Js.splitComma line) in
  let num := Js.keepDigitsPlus (nth 0 parts "") in
  let nm := nth 1 parts "" in
  if Js.isEmpty num then None
  else Some (mkEntry (if Js.startsWith num "+" then num else "+" ++ num) nm).

Fixpoint collectEntries (lines : list string) : list ContactEntry :=
  match lines with
  | [] => []
  | l :: rest =>
      match parseCampaignLine l with
      | Some e => e :: collectEntries rest
      | None => collectEntries rest
      end
  end.

(** The array [entries] of [parseCampaignLines], before the [Map]. *)
Definition campaignEntries (raw : string) : list ContactEntry :=
  let lines :=
    filter (fun l => negb (Js.isEmpty l))
           (map Js.trim (Js.splitLines (safeText raw))) in
  collectEntries lines.

(** A JavaScript [Map] with string keys: the pairs in insertion order.
    [map.set(k, v)] overwrites the value of a key already present, where it
    stands, and appends a new key. *)
Module JsMap.

Definition t (V : Type) : Type := list (string * V).

Fixpoint set {V} (k : string) (v : V) (m : t V) : t V :=
  match m with
  | [] => [(k, v)]
  | (k', v') :: r =>
      if String.eqb k' k then (k', v) :: r else (k', v') :: set k v r
  end.

Fixpoint get {V} (k : string) (m : t V) : option V :=
  match m with
  | [] => None
  | (k', v') :: r => if String.eqb k' k then Some v' else get k r
  end.

Definition keys {V} (m : t V) : list string := map fst m.
Definition values {V} (m : t V) : list V := map snd m.

End JsMap.

(** [for (const e of entries) map.set(e.number, e)] *)
Definition setAll (entries : list ContactEntry) (m : JsMap.t ContactEntry)
  : JsMap.t ContactEntry :=
  fold_left (fun acc e => JsMap.set (number e) e acc) entries m.

(** [function parseCampaignLines(raw)] *)
Definition parseCampaignLines (raw : string) : list ContactEntry :=
  JsMap.values (setAll (campaignEntries raw) []).

(** The last entry of [l] carrying the number [n]. *)
Definition lastWith (n : string) (l : list ContactEntry) : option ContactEntry :=
  find (fun e => String.eqb (number e) n) (rev l).

(** The invariant the specification states for a number: decimal digits
    only, after an optional [+] in first position. *)
Definition digitsWithOptionalLeadingPlus (s : string) : bool :=
  match s with
  | EmptyString => true
  | String c r => (Js.isPlus c || Js.isDigit c) && Js.allChars Js.isDigit r
  end.

(** The character class [[\d+]]. *)
Definition digitOrPlus (c : ascii) : bool := Js.isDigit c || Js.isPlus c.

(** What the two normalisation paths do guarantee of a number: a [+] in
    first position, and nothing but digits and [+] after it. *)
Definition plusThenDigitsOrPlus (s : string) : bool :=
  Js.startsWith s "+" && Js.allChars digitOrPlus s.

(** Whether some entry of [l] carries the number [n]. *)
Definition hasNumber (n : string) (l : list ContactEntry) : bool :=
  existsb (fun e => String.eqb (number e) n) l.

(** The entry of [l] found first for the number [n]. *)
Definition entryFor (n : string) (l : list ContactEntry) : option ContactEntry :=
  find (fun e => String.eqb (number e) n) l.

(** Every pair of the map files an entry under its own number. *)
Definition keyedByNumber (m : JsMap.t ContactEntry) : Prop :=
  Forall (fun kv => fst kv = number (snd kv)) m.

(** *** The contact list read line by line, in the specification's words *)

(** Following the specification's words, numbers are normalized by
    stripping non-digit/non-plus characters and prefixing [+] if absent. *)
Definition normalizedNumber (field : string) : string :=
  let stripped := Js.keepDigitsPlus field in
  if Js.startsWith stripped "+" then stripped else "+" ++ stripped.

(** The number field of a line of the list: its text before the first
    comma. *)
Definition numberField (line : string) : string := nth 0 (Js.splitComma line) "".

(** The number a line of the list carries: its number field, normalized;
    none when the field holds neither digit nor plus. *)
Definition numberOfLine (line : string) : option string :=
  if Js.isEmpty (Js.keepDigitsPlus (numberField line)) then None
  else Some (normalizedNumber (numberField line)).

(** The name a line carries: its text between the first comma and the
    second, without the white space around it; empty when the line has no
    comma. *)
Definition nameOfLine (line : string) : string :=
  Js.trim (nth 1 (Js.splitComma line) "").

(** The entry a line stands for. *)
Definition entryOfLine (line : string) : option ContactEntry :=
  option_map (fun n => mkEntry n (nameOfLine line)) (numberOfLine line).

(** The line carries the number [n]. *)
Definition carries (n line : string) : bool :=
  match numberOfLine line with
  | Some m => String.eqb m n
  | None => false
  end.

(** The last of the lines that carries the number [n]. *)
Definition lastLineCarrying (n : string) (lines : list string) : option string :=
  find (carries n) (rev lines).

(** The entries the lines stand for, in the order of the lines. *)
Definition entriesOfLines (lines : list string) : list ContactEntry :=
  flat_map (fun l => match entryOfLine l with Some e => [e] | None => [] end) lines.






(* ================================================================= *)
(** ** Pacing policy: the hourly rate limiter *)

Local Close Scope string_scope.

(** [const STEALTH_CONFIG = { ..., maxMessagesPerHour: 30, ... }] *)
Module STEALTH_CONFIG.
Definition maxMessagesPerHour : nat := 30.
End STEALTH_CONFIG.

Local Open Scope Z_scope.

(** One hour, in milliseconds. *)
Definition hourMs : Z := 3600000.

(** [while (messageTimestamps.length && messageTimestamps[0] < oneHourAgo)
      messageTimestamps.shift();] *)
Fixpoint shiftOlder (oneHourAgo : Z) (messageTimestamps : list Z) : list Z :=
  match messageTimestamps with
  | [] => []
  | t :: rest =>
      if t <? oneHourAgo then shiftOlder oneHourAgo rest else messageTimestamps
  end.

(** [function checkRateLimit()], at [Date.now() = now], on the module-level
    array [messageTimestamps]: the answer and the array it leaves. *)
Definition checkRateLimit (now : Z) (messageTimestamps : list Z) : bool * list Z :=
  let oneHourAgo := now - 3600000 in
  let kept := shiftOlder oneHourAgo messageTimestamps in
  (Nat.ltb (length kept) STEALTH_CONFIG.maxMessagesPerHour, kept).

(** [function recordMessageSent()]: [messageTimestamps.push(Date.now())]. *)
Definition recordMessageSent (now : Z) (messageTimestamps : list Z) : list Z :=
  messageTimestamps ++ [now].


(** A timestamp of the last hour, seen from [now]. *)
Definition withinLastHour (now t : Z) : Prop := now - hourMs <= t.


(* ================================================================= *)
(** ** Bounded DOM polling *)

(** What a polling loop did: its result, the number of times it queried the
    page, and the total time it slept. *)
Record Polled (A : Type) : Type :=
  mkPolled { outcome : A; polls : nat; sleptMs : Z }.
Arguments mkPolled {A} outcome polls sleptMs.
Arguments outcome {A} p.
Arguments polls {A} p.
Arguments sleptMs {A} p.

(** One more iteration in front of [r]: a query, and [ms] of sleep. *)
Definition afterMiss {A} (ms : Z) (r : Polled A) : Polled A :=
  mkPolled (outcome r) (S (polls r)) (ms + sleptMs r).

(** A DOM element, by an identifier. *)
Definition Element : Type := nat.

(** The errors the polling stages throw. *)
Inductive Failure : Type :=
| ChatOpenFailed       (* 'Chat nao abriu (composer nao encontrado ou chat incorreto).' *)
| FileInputNotFound    (* 'Input de arquivo nao encontrado.' *)
| PreviewTimeout.      (* 'Preview nao apareceu ou botao enviar nao encontrado.' *)

Inductive Completion (A : Type) : Type :=
| Returned (a : A)
| Threw (f : Failure).
Arguments Returned {A} a.
Arguments Threw {A} f.

(** [async function findElementWithRetry(selectorKey, maxAttempts = 10,
    delayMs = 300)]; [dom i] is what [findElement(selectorKey)] answers at
    iteration [i].  The loop queries, then sleeps. *)
Fixpoint findElementWithRetryFrom (dom : nat -> option Element) (delayMs : Z)
    (remaining i : nat) : Polled (option Element) :=
  match remaining with
  | O => mkPolled None 0 0
  | S k =>
      match dom i with
      | Some el => mkPolled (Some el) 1 0
      | None => afterMiss delayMs (findElementWithRetryFrom dom delayMs k (S i))
      end
  end.

Definition findElementWithRetry (dom : nat -> option Element)
    (maxAttempts : nat) (delayMs : Z) : Polled (option Element) :=
  findElementWithRetryFrom dom delayMs maxAttempts 0.

(** The file-input wait of [attachMediaAndSend]:
    [for (let attempt = 0; attempt < 5; attempt++)], query then [sleep(300)],
    followed by [if (!input) throw]. *)
Fixpoint fileInputFrom (dom : nat -> option Element) (remaining attempt : nat)
  : Polled (option Element) :=
  match remaining with
  | O => mkPolled None 0 0
  | S k =>
      match dom attempt with
      | Some input => mkPolled (Some input) 1 0
      | None => afterMiss 300 (fileInputFrom dom k (S attempt))
      end
  end.

Definition orThrow (f : Failure) (r : Polled (option Element))
  : Polled (Completion Element) :=
  mkPolled (match outcome r with Some el => Returned el | None => Threw f end)
           (polls r) (sleptMs r).

Definition waitFileInput (dom : nat -> option Element) : Polled (Completion Element) :=
  orThrow FileInputNotFound (fileInputFrom dom 5 0).

(** The preview wait of [attachMediaAndSend]:
    [const maxAttempts = 60; for (let i = 0; i < maxAttempts; i++)],
    [sleep(300)] then query, followed by [if (!sendBtn) throw]. *)
Definition previewMaxAttempts : nat := 60.

Fixpoint previewFrom (dom : nat -> option Element) (remaining i : nat)
  : Polled (option Element) :=
  match remaining with
  | O => mkPolled None 0 0
  | S k =>
      match dom i with
      | Some sendBtn => mkPolled (Some sendBtn) 1 300
      | None => afterMiss 300 (previewFrom dom k (S i))
      end
  end.

Definition waitPreview (dom : nat -> option Element) : Polled (Completion Element) :=
  orThrow PreviewTimeout (previewFrom dom previewMaxAttempts 0).

(** *** The validation loop of [openChatBySearch] *)

Definition MAX_COMPOSER_CHECK_ATTEMPTS : nat := 20.
Definition COMPOSER_CHECK_DELAY_MS : Z := 300.
Definition VALIDATION_SKIP_THRESHOLD : nat := 15.
Definition PHONE_SUFFIX_MATCH_LENGTH : nat := 8.

(** What the page shows when the loop looks at it: whether [findComposer()]
    finds a composer, and what [getChatTitle()] answers. *)
Record ChatDom : Type := mkChatDom { composer : bool; chatTitle : string }.

(** [const isCorrectChat = titleDigits.includes(digits.slice(-8)) ||
       digits.includes(titleDigits.slice(-8)) || titleDigits === digits] *)
Definition isCorrectChat (currentTitle digits : string) : bool :=
  let titleDigits := Js.keepDigits currentTitle in
  Js.includes titleDigits (Js.sliceLast PHONE_SUFFIX_MATCH_LENGTH digits)
  || Js.includes digits (Js.sliceLast PHONE_SUFFIX_MATCH_LENGTH titleDigits)
  || String.eqb titleDigits digits.

(** The test of one iteration: [composer && (isCorrectChat || i > 15)]. *)
Definition acceptsAt (d : ChatDom) (digits : string) (i : nat) : bool :=
  composer d
  && (isCorrectChat (chatTitle d) digits || Nat.ltb VALIDATION_SKIP_THRESHOLD i).

(** [for (let i = 0; i < MAX_COMPOSER_CHECK_ATTEMPTS; i++)]: [sleep(300)],
    look at the page, [return true] when the test holds; [Some i] is the
    iteration that returned. *)
Fixpoint validateFrom (dom : nat -> ChatDom) (digits : string)
    (remaining i : nat) : Polled (option nat) :=
  match remaining with
  | O => mkPolled None 0 0
  | S k =>
      if acceptsAt (dom i) digits i
      then mkPolled (Some i) 1 COMPOSER_CHECK_DELAY_MS
      else afterMiss COMPOSER_CHECK_DELAY_MS (validateFrom dom digits k (S i))
  end.

(** The loop and the [throw] that follows it. *)
Definition validateChatOpen (dom : nat -> ChatDom) (digits : string)
  : Polled (Completion nat) :=
  let r := validateFrom dom digits MAX_COMPOSER_CHECK_ATTEMPTS 0 in
  mkPolled (match outcome r with Some i => Returned i | None => Threw ChatOpenFailed end)
           (polls r) (sleptMs r).

(** Following the specification's words: the two digit strings share an
    8-digit suffix when the last eight digits of one, eight digits being
    there, occur in the other; or the two are equal. *)
Definition sharesEightDigitSuffix (titleDigits digits : string) : bool :=
  (Nat.leb 8 (String.length digits) && Js.includes titleDigits (Js.sliceLast 8 digits))
  || (Nat.leb 8 (String.length titleDigits) && Js.includes digits (Js.sliceLast 8 titleDigits))
  || String.eqb titleDigits digits.

Local Close Scope Z_scope.

(* ================================================================= *)
(** ** The campaign runner: [executeDomCampaign] and its controls *)

(** [const campRun = { running, paused, abort, cursor, total }] *)
Record CampRun : Type :=
  mkCampRun { running : bool; paused : bool; abort : bool; cursor : nat; total : nat }.

(** The [status] written to storage: ['running'] or ['aborted']. *)
Inductive RunStatus : Type := StatusRunning | StatusAborted.

(** The record [CampaignStorage.save] writes under its key
    ([startedAt], a wall-clock stamp, is left out). *)
Record CampaignState : Type :=
  mkCampaignState {
    saved_entries : list ContactEntry;
    saved_message : string;
    saved_cursor : nat;
    saved_status : RunStatus }.

(** How the [try] block of one contact ends. *)
Inductive StepResult : Type :=
| StepOk
| StepThrew (err : string).

(** The errors of the start button. *)
Inductive StartError : Type :=
| NoNumbers            (* 'Cole pelo menos 1 numero.' *)
| NoMessageNorMedia    (* 'Digite a mensagem ou selecione uma midia.' *)
| AlreadyRunning.      (* 'Ja existe uma execucao em andamento.' *)

(** The text of the campaign status line, by kind.  The texts written inside
    a [try] block before its end are overwritten at its end and not kept. *)
Inductive StatusLine : Type :=
| LineNone
| LineStarting
| LineOpening (i : nat)
| LineSent (i : nat)
| LineFailed (i : nat) (err : string)
| LineWaiting (i : nat)
| LineStopping
| LineInterrupted
| LineCompleted (n : nat)
| LineScheduling
| LineError (e : StartError).

(** Where [executeDomCampaign] is suspended. *)
Inductive Point : Type :=
| Idle
| AwaitInitialSave          (* the first [CampaignStorage.save] *)
| AwaitPaused (i : nat)     (* [sleep(250)] of [waitWhilePaused], before contact [i] *)
| AwaitContact (i : nat)    (* inside the [try] block of contact [i] *)
| AwaitSave (i : nat)       (* [CampaignStorage.save] of the [finally] block *)
| AwaitDelay (i : nat)      (* the random [sleep] between two contacts *)
| AwaitClear                (* the closing [CampaignStorage.clear] *)
| Ended.

Record Runner : Type :=
  mkRunner {
    campRun : CampRun;
    entries : list ContactEntry;          (* argument [entries] of the run *)
    message : string;                     (* argument [msg] of the run *)
    point : Point;
    stored : option CampaignState;        (* storage under [CampaignStorage.KEY] *)
    statusLine : StatusLine;
    opened : list nat;                    (* contacts whose [try] block was entered *)
    results : list (nat * StepResult) }.  (* how each entered block ended *)

(** What happens while the runner is suspended. *)
Inductive Event : Type :=
| Settled (r : StepResult)   (* the awaited promise settles; [r] is how the
                                [try] block ended, when that is what is awaited *)
| ClickPause
| ClickStop.

Definition idleRunner : Runner :=
  mkRunner (mkCampRun false false false 0 0) [] EmptyString Idle None LineNone [] [].

Definition setCampRun (c : CampRun) (r : Runner) : Runner :=
  mkRunner c (entries r) (message r) (point r) (stored r) (statusLine r)
           (opened r) (results r).

Definition setPoint (p : Point) (r : Runner) : Runner :=
  mkRunner (campRun r) (entries r) (message r) p (stored r) (statusLine r)
           (opened r) (results r).

(** After the loop: [campRun.running = false; campRun.paused = false], the
    closing status line, and [CampaignStorage.clear()]. *)
Definition finishRun (r : Runner) : Runner :=
  let c := campRun r in
  mkRunner (mkCampRun false false (abort c) (cursor c) (total c))
           (entries r) (message r) AwaitClear None
           (if abort c then LineInterrupted else LineCompleted (length (entries r)))
           (opened r) (results r).

(** Entering the [try] block of contact [i]. *)
Definition enterContact (i : nat) (r : Runner) : Runner :=
  mkRunner (campRun r) (entries r) (message r) (AwaitContact i) (stored r)
           (LineOpening i) (opened r ++ [i]) (results r).

(** [async function waitWhilePaused()], entered or resumed before contact
    [i]: [while (campRun.paused && !campRun.abort) await sleep(250)], then the
    second [if (campRun.abort) break]. *)
Definition waitWhilePaused (i : nat) (r : Runner) : Runner :=
  let c := campRun r in
  if paused c && negb (abort c) then setPoint (AwaitPaused i) r
  else if abort c then finishRun r
  else enterContact i r.

(** The head of the [for] loop at index [i]: the loop test, the first
    [if (campRun.abort) break], then [waitWhilePaused]. *)
Definition loopHead (i : nat) (r : Runner) : Runner :=
  if negb (i <? length (entries r)) then finishRun r
  else if abort (campRun r) then finishRun r
  else waitWhilePaused i r.

(** The end of the [try] block of contact [i], with [catch] and [finally]:
    the status line, [campRun.cursor = i + 1], and the save. *)
Definition endContact (i : nat) (res : StepResult) (r : Runner) : Runner :=
  let c := campRun r in
  mkRunner (mkCampRun (running c) (paused c) (abort c) (i + 1) (total c))
           (entries r) (message r) (AwaitSave i)
           (Some (mkCampaignState (entries r) (message r) (i + 1)
                    (if abort c then StatusAborted else StatusRunning)))
           (match res with StepOk => LineSent i | StepThrew e => LineFailed i e end)
           (opened r) (results r ++ [(i, res)]).

(** After the save of the [finally] block: the delay, except after the last
    contact. *)
Definition afterSave (i : nat) (r : Runner) : Runner :=
  if i <? length (entries r) - 1
  then mkRunner (campRun r) (entries r) (message r) (AwaitDelay i) (stored r)
                (LineWaiting i) (opened r) (results r)
  else loopHead (i + 1) r.

(** [async function executeDomCampaign(entries, msg)] up to its first
    [await]: it resets every field of [campRun] and overwrites the stored
    record. *)
Definition executeDomCampaign (es : list ContactEntry) (msg : string) : Runner :=
  mkRunner (mkCampRun true false false 0 (length es)) es msg AwaitInitialSave
           (Some (mkCampaignState es msg 0 StatusRunning))
           LineStarting [] [].

(** [campPauseBtn] click handler. *)
Definition campPauseBtn_click (r : Runner) : Runner :=
  let c := campRun r in
  if negb (running c) then r
  else setCampRun (mkCampRun (running c) (negb (paused c)) (abort c) (cursor c) (total c)) r.

(** [campStopBtn] click handler. *)
Definition campStopBtn_click (r : Runner) : Runner :=
  let c := campRun r in
  if negb (running c) then r
  else
    mkRunner (mkCampRun (running c) false true (cursor c) (total c))
             (entries r) (message r) (point r) (stored r) LineStopping
             (opened r) (results r).

(** The runner resumes when what it awaits settles. *)
Definition resume (res : StepResult) (r : Runner) : Runner :=
  match point r with
  | Idle => r
  | AwaitInitialSave => loopHead 0 r
  | AwaitPaused i => waitWhilePaused i r
  | AwaitContact i => endContact i res r
  | AwaitSave i => afterSave i r
  | AwaitDelay i => loopHead (i + 1) r
  | AwaitClear => setPoint Ended r
  | Ended => r
  end.

Definition step (r : Runner) (e : Event) : Runner :=
  match e with
  | Settled res => resume res r
  | ClickPause => campPauseBtn_click r
  | ClickStop => campStopBtn_click r
  end.

Definition run (r : Runner) (evs : list Event) : Runner := fold_left step evs r.


(** The events of a run nobody touches: the initial save settles, then for
    each contact its [try] block, its save and its delay. *)
Fixpoint untouched (outcomes : list StepResult) : list Event :=
  match outcomes with
  | [] => []
  | o :: rest => Settled o :: Settled StepOk :: Settled StepOk :: untouched rest
  end.


(** The runner is inside the loop of [executeDomCampaign]. *)
Definition inLoop (r : Runner) : bool :=
  match point r with
  | AwaitInitialSave | AwaitPaused _ | AwaitContact _ | AwaitSave _ | AwaitDelay _ => true
  | Idle | AwaitClear | Ended => false
  end.






(* ================================================================= *)
(** ** The paths that start a run *)

(** The campaign form when a button is clicked: [campNumbers.value],
    [campMsg.value], whether a media payload is loaded, and whether
    "schedule for later" is ticked. *)
Record StartForm : Type :=
  mkForm { campNumbers : string; campMsg : string; hasMedia : bool; scheduleLater : bool }.

(** [async function executeDomCampaignDirectly(entries, msg, mediaPayload)],
    cut at its suspensions.  It reads and writes nothing of [campRun]. *)
Inductive DirectPoint : Type :=
| DirectContact (i : nat)   (* inside the [try] block of contact [i] *)
| DirectDelay (i : nat)     (* the random [sleep] between two contacts *)
| DirectEnded.

Record DirectRun : Type :=
  mkDirect {
    direct_entries : list ContactEntry;
    direct_message : string;
    direct_point : DirectPoint;
    direct_opened : list nat }.

(** The head of its [for] loop at index [i]. *)
Definition directHead (i : nat) (d : DirectRun) : DirectRun :=
  if i <? length (direct_entries d)
  then mkDirect (direct_entries d) (direct_message d) (DirectContact i)
                (direct_opened d ++ [i])
  else mkDirect (direct_entries d) (direct_message d) DirectEnded (direct_opened d).

Definition executeDomCampaignDirectly (es : list ContactEntry) (msg : string)
  : DirectRun :=
  directHead 0 (mkDirect es msg DirectEnded []).

(** What it awaits settles; a thrown error of the [try] block is caught and
    logged, so the way the block ended does not matter. *)
Definition directResume (d : DirectRun) : DirectRun :=
  match direct_point d with
  | DirectContact i =>
      if i <? length (direct_entries d) - 1
      then mkDirect (direct_entries d) (direct_message d) (DirectDelay i) (direct_opened d)
      else directHead (i + 1) d
  | DirectDelay i => directHead (i + 1) d
  | DirectEnded => d
  end.

Definition directActive (d : DirectRun) : bool :=
  match direct_point d with DirectEnded => false | _ => true end.

(** A team member of a [SEND_TEAM_MESSAGES] payload. *)
Record Member : Type := mkMember { member_name : string; member_phone : string }.

(** The two messages of the background script that start a run.  [None] is a
    payload whose list is missing or not an array. *)
Inductive ExtMessage : Type :=
| EXECUTE_SCHEDULED_CAMPAIGN (campaignEntries : option (list ContactEntry)) (msg : string)
| SEND_TEAM_MESSAGES (members : option (list Member)) (msg : string).

(** The content script: the mounted panel with its runner, the preview
    modal, and the direct runs started by messages. *)
Record World : Type :=
  mkWorld {
    ui : Runner;
    modalVisible : bool;
    mounted : bool;
    directRuns : list DirectRun }.

Definition setUi (r : Runner) (w : World) : World :=
  mkWorld r (modalVisible w) (mounted w) (directRuns w).

Definition setStatusLine (l : StatusLine) (r : Runner) : Runner :=
  mkRunner (campRun r) (entries r) (message r) (point r) (stored r) l
           (opened r) (results r).

(** [campStartBtn] click handler.  Its scheduling branch checks the date,
    stores the campaign for the background script and returns: it shows no
    modal and starts no run, which is all that is kept of it here. *)
Definition campStartBtn_click (f : StartForm) (w : World) : World :=
  let failWith e := setUi (setStatusLine (LineError e) (ui w)) w in
  let es := parseCampaignLines (campNumbers f) in
  match es with
  | [] => failWith NoNumbers
  | _ :: _ =>
      let msg := Js.trim (safeText (campMsg f)) in
      if Js.isEmpty msg && negb (hasMedia f) then failWith NoMessageNorMedia
      else if running (campRun (ui w)) then failWith AlreadyRunning
      else if scheduleLater f
           then setUi (setStatusLine LineScheduling (ui w)) w
           else mkWorld (setStatusLine LineNone (ui w)) true (mounted w) (directRuns w)
  end.

(** [previewConfirmBtn] click handler; the button can be clicked only while
    the modal shows. *)
Definition previewConfirmBtn_click (f : StartForm) (w : World) : World :=
  if modalVisible w
  then mkWorld (executeDomCampaign (parseCampaignLines (campNumbers f))
                                   (Js.trim (safeText (campMsg f))))
               false (mounted w) (directRuns w)
  else w.

Definition memberEntry (m : Member) : ContactEntry :=
  mkEntry (normalizePhoneNumber (member_phone m)) (member_name m).

(** [chrome.runtime.onMessage] listener. *)
Definition onMessage (m : ExtMessage) (w : World) : World :=
  match m with
  | EXECUTE_SCHEDULED_CAMPAIGN None _ => w
  | EXECUTE_SCHEDULED_CAMPAIGN (Some es) msg =>
      if mounted w
      then mkWorld (ui w) (modalVisible w) (mounted w)
                   (directRuns w ++ [executeDomCampaignDirectly es msg])
      else w
  | SEND_TEAM_MESSAGES None _ => w
  | SEND_TEAM_MESSAGES (Some members) msg =>
      if Js.isEmpty msg then w
      else mkWorld (ui w) (modalVisible w) (mounted w)
                   (directRuns w ++ [executeDomCampaignDirectly (map memberEntry members) msg])
  end.

Fixpoint resumeNth (k : nat) (ds : list DirectRun) : list DirectRun :=
  match ds, k with
  | [], _ => []
  | d :: rest, O => directResume d :: rest
  | d :: rest, S k' => d :: resumeNth k' rest
  end.

Inductive WorldEvent : Type :=
| StartClicked (f : StartForm)
| ConfirmClicked (f : StartForm)
| OnRunner (e : Event)
| Received (m : ExtMessage)
| DirectSettled (k : nat).

Definition worldStep (w : World) (e : WorldEvent) : World :=
  match e with
  | StartClicked f => campStartBtn_click f w
  | ConfirmClicked f => previewConfirmBtn_click f w
  | OnRunner ev => setUi (step (ui w) ev) w
  | Received m => onMessage m w
  | DirectSettled k => mkWorld (ui w) (modalVisible w) (mounted w) (resumeNth k (directRuns w))
  end.

Definition worldRun (w : World) (evs : list WorldEvent) : World :=
  fold_left worldStep evs w.

Definition mountedWorld : World := mkWorld idleRunner false true [].

(** The runs with a contact in hand: the panel's run inside a [try] block,
    and each direct run inside one. *)
Definition contactsInHand (w : World) : nat :=
  (match point (ui w) with AwaitContact _ => 1 | _ => 0 end)
  + length (filter (fun d => match direct_point d with DirectContact _ => true | _ => false end)
                   (directRuns w)).

(** The runs under way: the panel's, when [campRun.running], and the direct
    runs that have not ended. *)
Definition runsUnderWay (w : World) : nat :=
  (if running (campRun (ui w)) then 1 else 0)
  + length (filter directActive (directRuns w)).

(* ================================================================= *)
(** ** General helpers of the content script *)

(** A JavaScript [Set] of strings: its members in insertion order. *)
Module JsSet.

Definition has (x : string) (s : list string) : bool := existsb (String.eqb x) s.

(** [set.add(x)] *)
Definition add (x : string) (s : list string) : list string :=
  if has x s then s else s ++ [x].

(** [new Set(arr)] *)
Definition ofArray (arr : list string) : list string :=
  fold_left (fun s x => add x s) arr [].

End JsSet.

(** [function uniq(arr)], on an array of strings:
    [Array.from(new Set(arr.filter(Boolean)))]. *)
Definition uniq (arr : list string) : list string :=
  JsSet.ofArray (filter (fun x => negb (Js.isEmpty x)) arr).

(** The double-quote character. *)
Definition dquote : ascii := "034"%char.

(** The test of [csvEscape]: [s] holds a double quote, a comma or a line
    feed. *)
Fixpoint hasCsvSpecial (s : string) : bool :=
  match s with
  | EmptyString => false
  | String c r =>
      Ascii.eqb c dquote || Ascii.eqb c ","%char || Ascii.eqb c Js.LF
      || hasCsvSpecial r
  end.

(** The replacement of [csvEscape]: every double quote is written twice. *)
Fixpoint doubleQuotes (s : string) : string :=
  match s with
  | EmptyString => EmptyString
  | String c r =>
      if Ascii.eqb c dquote then String dquote (String dquote (doubleQuotes r))
      else String c (doubleQuotes r)
  end.

(** [function csvEscape(v)]: a value that passes the test is returned
    between double quotes, its own double quotes written twice. *)
Definition csvEscape (v : string) : string :=
  let s := safeText v in
  if hasCsvSpecial s
  then String dquote (doubleQuotes s ++ String dquote EmptyString)
  else s.

(** [arr.join('\n')] *)
Fixpoint joinLines (arr : list string) : string :=
  match arr with
  | [] => EmptyString
  | [x] => x
  | x :: rest => x ++ String Js.LF (joinLines rest)
  end.

(* ================================================================= *)
(** ** [class SmartCache] *)

(** [map.delete(k)] on a [JsMap.t]. *)
Fixpoint mapDelete {V} (k : string) (m : JsMap.t V) : JsMap.t V :=
  match m with
  | [] => []
  | (k', v') :: r =>
      if String.eqb k' k then r else (k', v') :: mapDelete k r
  end.

Module SmartCache.

Section WithValues.

Variable V : Type.

(** An item of the cache: [{ value, expiresAt }]. *)
Record Item : Type := mkItem { value : V; expiresAt : Z }.

(** [this.cache] and [this.defaultTTL]. *)
Record t : Type := mkCache { cache : JsMap.t Item; defaultTTL : Z }.

(** [new SmartCache(defaultTTL = 60000)] *)
Definition create (ttl : option Z) : t :=
  mkCache [] (match ttl with Some d => d | None => 60000%Z end).

(** [set(key, value, ttl = this.defaultTTL)], at [Date.now() = now]. *)
Definition set (now : Z) (key : string) (v : V) (ttl : option Z) (c : t) : t :=
  let d := match ttl with Some d => d | None => defaultTTL c end in
  mkCache (JsMap.set key (mkItem v (now + d)%Z) (cache c)) (defaultTTL c).

(** [get(key)], at [Date.now() = now]: the answer ([None] is [null]) and the
    cache it leaves. *)
Definition get (now : Z) (key : string) (c : t) : option V * t :=
  match JsMap.get key (cache c) with
  | None => (None, c)
  | Some item =>
      if (expiresAt item <? now)%Z
      then (None, mkCache (mapDelete key (cache c)) (defaultTTL c))
      else (Some (value item), c)
  end.

(** [has(key)]: [this.get(key) !== null]. *)
Definition has (now : Z) (key : string) (c : t) : bool * t :=
  match get now key c with
  | (Some _, c') => (true, c')
  | (None, c') => (false, c')
  end.

(** [delete(key)] *)
Definition delete (key : string) (c : t) : t :=
  mkCache (mapDelete key (cache c)) (defaultTTL c).

(** [clear()] *)
Definition clear (c : t) : t := mkCache [] (defaultTTL c).

(** [cleanup()], at [Date.now() = now]: every item with
    [now > item.expiresAt] is deleted. *)
Definition cleanup (now : Z) (c : t) : t :=
  mkCache (filter (fun kv => negb (expiresAt (snd kv) <? now)%Z) (cache c))
          (defaultTTL c).

End WithValues.

End SmartCache.

Arguments SmartCache.mkItem {V} value expiresAt.
Arguments SmartCache.value {V} i.
Arguments SmartCache.expiresAt {V} i.
Arguments SmartCache.mkCache {V} cache defaultTTL.
Arguments SmartCache.cache {V} t.
Arguments SmartCache.defaultTTL {V} t.
Arguments SmartCache.set {V} now key v ttl c.
Arguments SmartCache.get {V} now key c.
Arguments SmartCache.has {V} now key c.
Arguments SmartCache.delete {V} key c.
Arguments SmartCache.clear {V} c.
Arguments SmartCache.cleanup {V} now c.

(** [async function getSettingsCached()], on the cache [whlCache]: it asks
    the cache at [tGet]; on a miss it asks the background script, whose
    answer [resp] is [resp?.settings] ([None] when missing, replaced by the
    empty object [noSettings]), and stores it at [tSet] for 5000 ms.
    The result: the settings, whether the background script was asked, and
    the cache. *)
Definition getSettingsCached {S : Type} (noSettings : S) (tGet tSet : Z)
    (resp : option S) (c : SmartCache.t S) : S * bool * SmartCache.t S :=
  match SmartCache.get tGet "settings" c with
  | (Some cached, c') => (cached, false, c')
  | (None, c') =>
      let st := match resp with Some s => s | None => noSettings end in
      (st, true, SmartCache.set tSet "settings" st (Some 5000%Z) c')
  end.

(* ================================================================= *)
(** ** DOM look-ups *)

(** The page, as the look-ups see it: for a CSS selector, the elements
    [document.querySelectorAll] lists, in document order ([None] when the
    selector makes the call throw, which the helpers catch);
    [el.isConnected]; and whether an element is rendered
    ([offsetWidth || offsetHeight || getClientRects().length]). *)
Record Document : Type :=
  mkDocument {
    matchesOf : string -> option (list Element);
    isConnected : Element -> bool;
    isRendered : Element -> bool }.

(** [document.querySelector(sel)]: the first element of the list. *)
Definition firstMatch (doc : Document) (sel : string) : option Element :=
  match matchesOf doc sel with
  | Some (el :: _) => Some el
  | _ => None
  end.

(** [function querySelector(selectors)], on an array of selectors. *)
Fixpoint querySelector (doc : Document) (selectors : list string) : option Element :=
  match selectors with
  | [] => None
  | sel :: rest =>
      match firstMatch doc sel with
      | Some el => if isConnected doc el then Some el else querySelector doc rest
      | None => querySelector doc rest
      end
  end.

(** [results.includes(el)] *)
Definition includesElement (results : list Element) (el : Element) : bool :=
  existsb (Nat.eqb el) results.

(** The inner loop of [querySelectorAll]:
    [if (el && el.isConnected && !results.includes(el)) results.push(el)]. *)
Definition pushNew (doc : Document) (results els : list Element) : list Element :=
  fold_left
    (fun res el =>
       if isConnected doc el && negb (includesElement res el) then res ++ [el] else res)
    els results.

Fixpoint querySelectorAllFrom (doc : Document) (selectors : list string)
    (results : list Element) : list Element :=
  match selectors with
  | [] => results
  | sel :: rest =>
      match matchesOf doc sel with
      | Some els => querySelectorAllFrom doc rest (pushNew doc results els)
      | None => querySelectorAllFrom doc rest results
      end
  end.

(** [function querySelectorAll(selectors)], on an array of selectors. *)
Definition querySelectorAll (doc : Document) (selectors : list string) : list Element :=
  querySelectorAllFrom doc selectors [].

(** The loop of [findElement]: the first selector whose first match is
    connected and rendered. *)
Fixpoint findElementIn (doc : Document) (selectors : list string) : option Element :=
  match selectors with
  | [] => None
  | sel :: rest =>
      match firstMatch doc sel with
      | Some el =>
          if isConnected doc el && isRendered doc el then Some el
          else findElementIn doc rest
      | None => findElementIn doc rest
      end
  end.

(** [function findElement(selectorKey, parent = document)];
    [selectors] is [WA_SELECTORS[selectorKey]], [None] for an unknown key. *)
Definition findElement (doc : Document) (selectors : option (list string))
  : option Element :=
  match selectors with
  | None => None
  | Some l => findElementIn doc l
  end.

(** [function findComposer()]; [composerSelectors] is
    [WA_SELECTORS.composer]. *)
Definition findComposer (doc : Document) (composerSelectors : list string)
  : option Element :=
  match findElement doc (Some composerSelectors) with
  | Some el => Some el
  | None =>
      let cands := filter (isConnected doc) (querySelectorAll doc composerSelectors) in
      match cands with
      | [] => None
      | first :: _ =>
          match find (isRendered doc) cands with
          | Some visible => Some visible
          | None => Some first
          end
      end
  end.

(* ================================================================= *)
(** ** [parseNumbersFromText] *)

(** The character class of the regular expression: a digit, white space, a
    parenthesis, a dot or a hyphen. *)
Definition isNumberBody (c : ascii) : bool :=
  Js.isDigit c || Js.isSpace c || Ascii.eqb c "("%char || Ascii.eqb c ")"%char
  || Ascii.eqb c "."%char || Ascii.eqb c "-"%char.

(** The longest prefix of [s] made of characters of the class. *)
Fixpoint bodyRun (s : string) : string :=
  match s with
  | EmptyString => EmptyString
  | String c r => if isNumberBody c then String c (bodyRun r) else EmptyString
  end.

(** The longest non-empty prefix of [s] that ends with a digit. *)
Fixpoint longestToDigit (s : string) : option string :=
  match s with
  | EmptyString => None
  | String c r =>
      match longestToDigit r with
      | Some p => Some (String c p)
      | None => if Js.isDigit c then Some (String c EmptyString) else None
      end
  end.

(** What the pattern takes after its first digit: the class repeated as
    often as possible, six times at least, then a digit.  The greedy
    repetition gives back characters until a digit follows it. *)
Definition numberTail (s : string) : option string :=
  match longestToDigit (bodyRun s) with
  | Some p => if 7 <=? String.length p then Some p else None
  | None => None
  end.

(** The match of the pattern at the start of [s], if any: an optional [+],
    a digit, and the tail. *)
Definition matchNumberAt (s : string) : option string :=
  match s with
  | EmptyString => None
  | String c r =>
      if Js.isPlus c then
        match r with
        | String d r2 =>
            if Js.isDigit d then
              match numberTail r2 with
              | Some p => Some (String c (String d p))
              | None => None
              end
            else None
        | EmptyString => None
        end
      else if Js.isDigit c then
        match numberTail r with
        | Some p => Some (String c p)
        | None => None
        end
      else None
  end.

(** [t.matchAll(re)]: the matches from left to right, each search resuming
    where the last match ended; [skip] counts the characters of the last
    match still to pass. *)
Fixpoint matchAllNumbers (s : string) (skip : nat) : list string :=
  match s with
  | EmptyString => []
  | String _ r =>
      match skip with
      | S k => matchAllNumbers r k
      | O =>
          match matchNumberAt s with
          | Some m => m :: matchAllNumbers r (String.length m - 1)
          | None => matchAllNumbers r 0
          end
      end
  end.

(** The body of the loop of [parseNumbersFromText] for one match: [None] is
    a [continue]. *)
Definition numberOfMatch (raw : string) : option string :=
  let digits := Js.keepDigitsPlus raw in
  if Js.isEmpty digits then None
  else
    let digits := if Js.startsWith digits "+" then digits else ("+" ++ digits)%string in
    if String.length (Js.keepDigits digits) <? 10 then None else Some digits.

Fixpoint collectNumbers (ms : list string) : list string :=
  match ms with
  | [] => []
  | m :: rest =>
      match numberOfMatch m with
      | Some n => n :: collectNumbers rest
      | None => collectNumbers rest
      end
  end.

(** [function parseNumbersFromText(text)] *)
Definition parseNumbersFromText (text : string) : list string :=
  collectNumbers (matchAllNumbers (safeText text) 0).

(** A number as [parseNumbersFromText] gives it: a [+], then digits only,
    ten at least. *)
Definition plusThenTenDigits (s : string) : bool :=
  match s with
  | String c r => Js.isPlus c && Js.allChars Js.isDigit r && (10 <=? String.length r)
  | EmptyString => false
  end.

(** [function extractNumbersDeep()]; [titles] are the [title] attributes of
    the elements [document.querySelectorAll('[title]')] lists, [chatTitle] is
    what [getChatTitle()] answers. *)
Definition extractNumbersDeep (titles : list string) (chatTitle : string) : list string :=
  uniq (flat_map parseNumbersFromText (firstn 1200 titles)
        ++ parseNumbersFromText chatTitle).

(** The lines the download button reads back from the output box:
    [safeText(contOut.value).split(/\r?\n/).map(s => s.trim()).filter(Boolean)]. *)
Definition outputLines (boxValue : string) : list string :=
  filter (fun l => negb (Js.isEmpty l)) (map Js.trim (Js.splitLines (safeText boxValue))).

(** The CSV text of the download button:
    [['numero', ...nums].map(csvEscape).join('\n')]. *)
Definition contactsCsv (nums : list string) : string :=
  joinLines (map csvEscape ("numero"%string :: nums)).

(* ================================================================= *)
(** ** [applyVars] *)

(** [GetSubstitution] of [String.prototype.replaceAll] for a string
    pattern, which has no capture: in the replacement text, [$$] stands for
    a dollar sign, [$&] for the matched text, a dollar sign followed by a
    backquote for the text before the match, a dollar sign followed by an
    apostrophe for the text after it; any other dollar sign stands for
    itself. *)
Fixpoint getSubstitution (matched before after replacement : string) : string :=
  match replacement with
  | EmptyString => EmptyString
  | String c r =>
      if Ascii.eqb c "$"%char then
        match r with
        | String d r2 =>
            if Ascii.eqb d "$"%char
            then String "$"%char (getSubstitution matched before after r2)
            else if Ascii.eqb d "&"%char
            then (matched ++ getSubstitution matched before after r2)%string
            else if Ascii.eqb d "`"%char
            then (before ++ getSubstitution matched before after r2)%string
            else if Ascii.eqb d "'"%char
            then (after ++ getSubstitution matched before after r2)%string
            else String c (getSubstitution matched before after r)
        | EmptyString => String c EmptyString
        end
      else String c (getSubstitution matched before after r)
  end.

(** [s] without its first [n] characters. *)
Fixpoint dropChars (n : nat) (s : string) : string :=
  match n, s with
  | O, _ => s
  | S k, String _ r => dropChars k r
  | S _, EmptyString => EmptyString
  end.

(** [whole.replaceAll(pattern, replacement)] for a non-empty [pattern], read
    from left to right: [before] is the part of [whole] already read, [s] the
    part still to read, [skip] the number of characters of the last match
    still to pass. *)
Fixpoint replaceAllFrom (pattern replacement before s : string) (skip : nat) : string :=
  match s with
  | EmptyString => EmptyString
  | String c r =>
      match skip with
      | S k => replaceAllFrom pattern replacement (before ++ String c EmptyString) r k
      | O =>
          if String.prefix pattern s
          then (getSubstitution pattern before (dropChars (String.length pattern) s)
                                replacement
                ++ replaceAllFrom pattern replacement (before ++ String c EmptyString) r
                                  (String.length pattern - 1))%string
          else String c (replaceAllFrom pattern replacement
                                        (before ++ String c EmptyString) r 0)
      end
  end.

Definition replaceAll (pattern replacement whole : string) : string :=
  replaceAllFrom pattern replacement EmptyString whole 0.

(** [function applyVars(msg, entry)] *)
Definition applyVars (msg : string) (entry : ContactEntry) : string :=
  let out := safeText msg in
  let out := replaceAll "{{nome}}" (name entry) out in
  replaceAll "{{numero}}" (number entry) out.

(** The text holds no opening brace. *)
Definition noBrace (s : string) : bool :=
  Js.allChars (fun c => negb (Ascii.eqb c "{"%char)) s.

(** The text holds no dollar sign. *)
Definition noDollar (s : string) : bool :=
  Js.allChars (fun c => negb (Ascii.eqb c "$"%char)) s.

(* ================================================================= *)
(** ** [openChatBySearch], [attachMediaAndSend] and [clickSend] as wholes *)

Local Open Scope Z_scope.

(** The errors [openChatBySearch] throws. *)
Inductive OpenChatError : Type :=
| InvalidNumber        (* 'Numero invalido.' *)
| SearchBoxNotFound    (* 'Caixa de busca nao encontrada.' *)
| NoSearchResult       (* 'Nenhum resultado na busca.' *)
| ChatNotOpened.       (* 'Chat nao abriu (composer nao encontrado ou chat incorreto).' *)

(** The page during [openChatBySearch]: whether [findElement('searchBox')]
    finds the box on entry; the [innerText] of the rows
    [querySelectorAll(WA_SELECTORS.searchResults)] lists after the wait, the
    first of which is what [querySelector(WA_SELECTORS.searchResults)]
    returns; and what the validation loop sees at each iteration. *)
Record SearchDom : Type :=
  mkSearchDom {
    searchBoxShown : bool;
    resultRows : list string;
    chatAfterClick : nat -> ChatDom }.

(** What a call did: [None] when it returned true, the row it clicked by
    its index, and the time it slept. *)
Record OpenChat : Type :=
  mkOpenChat { openError : option OpenChatError; clickedRow : option nat; openSleptMs : Z }.

(** The filter on the result rows:
    [text.includes(digits.slice(-6)) || digits.includes(text.slice(-6))],
    [text] being the digits of the row. *)
Definition rowMatches (digits rowText : string) : bool :=
  let text := Js.keepDigits rowText in
  Js.includes text (Js.sliceLast 6 digits) || Js.includes digits (Js.sliceLast 6 text).

(** The index of the first element of [l] that satisfies [f]. *)
Fixpoint firstIndex {A} (f : A -> bool) (l : list A) : option nat :=
  match l with
  | [] => None
  | x :: rest =>
      if f x then Some O
      else match firstIndex f rest with Some i => Some (S i) | None => None end
  end.

(** [async function openChatBySearch(query)] *)
Definition openChatBySearch (query : string) (dom : SearchDom) : OpenChat :=
  let q := Js.keepDigitsPlus (safeText query) in
  let digits := Js.keepDigits q in
  if Js.isEmpty digits || Nat.ltb (String.length digits) 8
  then mkOpenChat (Some InvalidNumber) None 0
  else if negb (searchBoxShown dom)
  then mkOpenChat (Some SearchBoxNotFound) None 0
  else
    (* sleep 100, 200, 500, then 2000 for the results *)
    let clicked :=
      match firstIndex (rowMatches digits) (resultRows dom) with
      | Some i => Some i
      | None => match resultRows dom with [] => None | _ :: _ => Some O end
      end in
    match clicked with
    | None => mkOpenChat (Some NoSearchResult) None 2800
    | Some i =>
        (* click, sleep 1000, clear the search box, validate *)
        let v := validateChatOpen (chatAfterClick dom) digits in
        mkOpenChat (match outcome v with
                    | Returned _ => None
                    | Threw _ => Some ChatNotOpened
                    end)
                   (Some i) (3800 + sleptMs v)
    end.

(** The errors [attachMediaAndSend] throws. *)
Inductive AttachError : Type :=
| MediaNotLoaded         (* 'Midia nao carregada.' *)
| AttachButtonNotFound   (* 'Botao de anexo nao encontrado.' *)
| FileInputMissing       (* 'Input de arquivo nao encontrado.' *)
| DecodeFailed           (* the exception of [atob], out of [b64ToBytes] *)
| PreviewMissing.        (* 'Preview nao apareceu ou botao enviar nao encontrado.' *)

(** A media payload: its [base64] field, empty when the field is missing,
    and its [type], empty when missing.  Its [name] only names the file. *)
Record MediaPayload : Type :=
  mkPayload { base64 : string; payloadType : string }.

(** The file given to the file input: its bytes and its type. *)
Record GivenFile : Type :=
  mkFile { fileBytes : string; fileType : string }.

(** The browser during [attachMediaAndSend]: whether one of the attach
    selectors matches; what the file-input wait and the preview wait see at
    each iteration; whether the dialog has a caption box; and what [atob]
    makes of a text, [None] when it throws. *)
Record MediaDom : Type :=
  mkMediaDom {
    attachButtonShown : bool;
    fileInputAt : nat -> option Element;
    previewSendAt : nat -> option Element;
    captionBoxShown : bool;
    atob : string -> option string }.

(** [function b64ToBytes(b64)]: [atob] of the text without its white space;
    the bytes are the character codes of what [atob] returns.  [None] when
    [atob] throws. *)
Definition b64ToBytes (atob : string -> option string) (b64 : string)
  : option string :=
  atob (Js.keepChars (fun c => negb (Js.isSpace c)) (safeText b64)).

(** What a call did: [None] when it returned true; the file given to the
    input if one was, the caption typed if one was, whether the send button
    of the preview was clicked; and the time it slept. *)
Record Attached : Type :=
  mkAttached {
    attachError : option AttachError;
    fileGiven : option GivenFile;
    captionTyped : option string;
    sendClicked : bool;
    attachSleptMs : Z }.

(** [mediaPayload?.base64], empty when there is no payload. *)
Definition base64Of (mediaPayload : option MediaPayload) : string :=
  match mediaPayload with
  | Some p => base64 p
  | None => EmptyString
  end.

(** [mediaPayload.type || 'image/jpeg'] *)
Definition mimeTypeOf (mediaPayload : option MediaPayload) : string :=
  match mediaPayload with
  | Some p => if Js.isEmpty (payloadType p) then "image/jpeg"%string else payloadType p
  | None => "image/jpeg"%string
  end.

(** [async function attachMediaAndSend(mediaPayload, captionText)] *)
Definition attachMediaAndSend (mediaPayload : option MediaPayload)
    (captionText : string) (dom : MediaDom) : Attached :=
  if Js.isEmpty (base64Of mediaPayload)
  then mkAttached (Some MediaNotLoaded) None None false 0
  else if negb (attachButtonShown dom)
  then mkAttached (Some AttachButtonNotFound) None None false 0
  else
    (* click, sleep 1000 and 500 *)
    let fi := waitFileInput (fileInputAt dom) in
    match outcome fi with
    | Threw _ => mkAttached (Some FileInputMissing) None None false (1500 + sleptMs fi)
    | Returned _ =>
        match b64ToBytes (atob dom) (base64Of mediaPayload) with
        | None => mkAttached (Some DecodeFailed) None None false (1500 + sleptMs fi)
        | Some bytes =>
            let file := mkFile bytes (mimeTypeOf mediaPayload) in
            let pv := waitPreview (previewSendAt dom) in
            match outcome pv with
            | Threw _ =>
                mkAttached (Some PreviewMissing) (Some file) None false
                           (1500 + sleptMs fi + sleptMs pv)
            | Returned _ =>
                let caption := Js.trim captionText in
                let typed := negb (Js.isEmpty caption) && captionBoxShown dom in
                mkAttached None (Some file) (if typed then Some caption else None) true
                           (1500 + sleptMs fi + sleptMs pv
                            + (if typed then 200 else 0) + 1500)
            end
        end
    end.

(** The page during [clickSend]: whether [findSendButton()] finds a button,
    whether a send icon is there (its button or its parent is then
    clicked), whether [findComposer()] finds a composer. *)
Record SendDom : Type :=
  mkSendDom { sendButtonShown : bool; sendIconShown : bool; composerShown : bool }.

(** How [clickSend] ends: the button clicked, the Enter key sent to the
    composer, or one of its two errors. *)
Inductive SendResult : Type :=
| SentByButton
| SentByEnter
| RateLimited      (* 'Rate limit atingido. Aguarde para enviar mais mensagens.' *)
| NothingToClick.  (* 'Nao encontrei o botao ENVIAR nem o composer para simular Enter.' *)

(** [async function clickSend(stealthMode = false)], on the array
    [messageTimestamps]; [tCheck] and [tRecord] are [Date.now()] when
    [checkRateLimit] and [recordMessageSent] read it. *)
Definition clickSend (stealthMode : bool) (tCheck tRecord : Z) (dom : SendDom)
    (messageTimestamps : list Z) : SendResult * list Z :=
  let checked :=
    if stealthMode then checkRateLimit tCheck messageTimestamps
    else (true, messageTimestamps) in
  let record w := if stealthMode then recordMessageSent tRecord w else w in
  if negb (fst checked) then (RateLimited, snd checked)
  else if sendButtonShown dom || sendIconShown dom
  then (SentByButton, record (snd checked))
  else if composerShown dom then (SentByEnter, record (snd checked))
  else (NothingToClick, snd checked).

(** One stealth call: its two instants and the page it finds. *)
Record StealthCall : Type :=
  mkCall { callCheckAt : Z; callRecordAt : Z; callDom : SendDom }.

(** [clickSend(true)] called again and again. *)
Definition stealthSends (calls : list StealthCall) (messageTimestamps : list Z) : list Z :=
  fold_left
    (fun w c => snd (clickSend true (callCheckAt c) (callRecordAt c) (callDom c) w))
    calls messageTimestamps.

(** The calls follow one another in time, from [now] on. *)
Fixpoint chronological (now : Z) (calls : list StealthCall) : Prop :=
  match calls with
  | [] => True
  | c :: rest =>
      now <= callCheckAt c /\ callCheckAt c <= callRecordAt c
      /\ chronological (callRecordAt c) rest
  end.

(** The instant of the last call, [now] when there is none. *)
Definition lastInstant (now : Z) (calls : list StealthCall) : Z :=
  fold_left (fun _ c => callRecordAt c) calls now.

(** The timestamps of [w] that are less than one hour old at [t]. *)
Definition recentAt (t : Z) (w : list Z) : list Z :=
  filter (fun x => t - hourMs <=? x) w.

(* ================================================================= *)
(** ** The [try] block of one contact *)

(** [async function humanType(element, text)]: the characters it gives to
    [insertText], one call each. *)
Definition humanType (text : string) : list ascii := list_ascii_of_string text.

(** The errors of [insertIntoComposer] before it types. *)
Inductive InsertError : Type :=
| ComposerBoxNotFound   (* 'Nao encontrei a caixa de mensagem do WhatsApp.' *)
| EmptyText.            (* 'Mensagem vazia.' *)

(** [insertIntoComposer(text, humanized, true)]: with [stealthMode] set the
    function returns after [humanType], before its other modes. *)
Definition insertIntoComposer_stealth (composerShown : bool) (text : string)
  : InsertError + list ascii :=
  if negb composerShown then inl ComposerBoxNotFound
  else
    let t := safeText text in
    if Js.isEmpty t then inl EmptyText else inr (humanType t).

(** How the [try] block of a contact fails. *)
Inductive ContactError : Type :=
| OpenFailed (e : OpenChatError)
| ComposerNotFound          (* 'Composer nao encontrado apos abrir chat' *)
| EmptyMessage              (* 'Mensagem vazia (e sem midia).' *)
| InsertFailed (e : InsertError)
| MediaFailed (e : AttachError)
| SendFailed (r : SendResult).

(** The page during the [try] block of one contact, stage by stage, and
    the two instants at which the rate limiter reads the clock. *)
Record ContactPage : Type :=
  mkContactPage {
    searchPage : SearchDom;
    composerAfterOpen : bool;    (* [findComposer()] after the chat opened *)
    mediaPage : MediaDom;
    composerAtInsert : bool;     (* [findComposer()] of [insertIntoComposer] *)
    sendPage : SendDom;
    checkAt : Z;
    recordAt : Z }.

(** What the block did: its error if it threw, the characters typed into
    the composer, the caption typed in the media dialog, whether something
    was sent, and the array [messageTimestamps] it leaves. *)
Record Contacted : Type :=
  mkContacted {
    contactError : option ContactError;
    typed : list ascii;
    captioned : option string;
    delivered : bool;
    timestamps : list Z }.

(** The [try] block shared by [executeDomCampaign] and
    [executeDomCampaignDirectly], for the text [text] and the digits
    [phoneDigits]; [media] is the media payload, [None] when there is
    none. *)
Definition contactTry (media : option MediaPayload) (text phoneDigits : string)
    (page : ContactPage) (messageTimestamps : list Z) : Contacted :=
  match openError (openChatBySearch phoneDigits (searchPage page)) with
  | Some e => mkContacted (Some (OpenFailed e)) [] None false messageTimestamps
  | None =>
      if negb (composerAfterOpen page)
      then mkContacted (Some ComposerNotFound) [] None false messageTimestamps
      else
        match media with
        | Some payload =>
            let a := attachMediaAndSend (Some payload) text (mediaPage page) in
            match attachError a with
            | Some e => mkContacted (Some (MediaFailed e)) [] None false messageTimestamps
            | None =>
                mkContacted None [] (captionTyped a) true
                            (recordMessageSent (recordAt page) messageTimestamps)
            end
        | None =>
            if Js.isEmpty text
            then mkContacted (Some EmptyMessage) [] None false messageTimestamps
            else
              match insertIntoComposer_stealth (composerAtInsert page) text with
              | inl e => mkContacted (Some (InsertFailed e)) [] None false messageTimestamps
              | inr chars =>
                  let s := clickSend true (checkAt page) (recordAt page) (sendPage page)
                                     messageTimestamps in
                  match fst s with
                  | SentByButton | SentByEnter => mkContacted None chars None true (snd s)
                  | r => mkContacted (Some (SendFailed r)) chars None false (snd s)
                  end
              end
        end
  end.

(** The digits [executeDomCampaign] searches for:
    [e.number.replace(/[^\d]/g, '')]. *)
Definition campaignPhoneDigits (e : ContactEntry) : string :=
  Js.keepDigits (number e).

(** The digits [executeDomCampaignDirectly] searches for:
    [normalizePhoneNumber(e.number).replace(/[^\d]/g, '')]. *)
Definition directPhoneDigits (e : ContactEntry) : string :=
  Js.keepDigits (normalizePhoneNumber (number e)).

Local Close Scope Z_scope.

(* ================================================================= *)
(** ** Invariants of the two runners *)

(** The indices of the contacts opened and closed so far are the first
    ones, in order; [a] contacts are opened, [b] of them closed. *)
Definition inOrder (r : Runner) (a b : nat) : Prop :=
  opened r = seq 0 a /\ map fst (results r) = seq 0 b
  /\ cursor (campRun r) = b /\ a <= length (entries r).

(** What holds of the runner at each point of a run of
    [executeDomCampaign es msg]. *)
Definition runInvariant (es : list ContactEntry) (msg : string) (r : Runner) : Prop :=
  entries r = es /\ message r = msg
  /\ running (campRun r) = inLoop r /\ total (campRun r) = length es /\
  match point r with
  | Idle => False
  | AwaitInitialSave =>
      inOrder r 0 0
      /\ stored r = Some (mkCampaignState es msg 0 StatusRunning)
  | AwaitPaused i =>
      inOrder r i i /\ i < length es
      /\ exists st, stored r = Some (mkCampaignState es msg i st)
  | AwaitContact i =>
      inOrder r (S i) i /\ i < length es
      /\ exists st, stored r = Some (mkCampaignState es msg i st)
  | AwaitSave i =>
      inOrder r (S i) (S i)
      /\ exists st, stored r = Some (mkCampaignState es msg (S i) st)
  | AwaitDelay i =>
      inOrder r (S i) (S i) /\ S i < length es
      /\ exists st, stored r = Some (mkCampaignState es msg (S i) st)
  | AwaitClear | Ended => (exists a, inOrder r a a) /\ stored r = None
  end.

(** [n] settlements of what a direct run awaits. *)
Definition directAfter (n : nat) (d : DirectRun) : DirectRun :=
  Nat.iter n directResume d.

(* ================================================================= *)
(** * Properties *)

(** ** Strings *)

Section StringFacts.

Local Open Scope string_scope.

Variable p : ascii -> bool.

Lemma allChars_keepChars (s : string) : Js.allChars p (Js.keepChars p s) = true.
Proof.
  induction s as [|c r IH]; simpl; [reflexivity|].
  destruct (p c) eqn:Hc; simpl; [rewrite Hc|]; assumption.
Qed.

Lemma keepChars_fixed (s : string) :
  Js.allChars p s = true -> Js.keepChars p s = s.
Proof.
  induction s as [|c r IH]; simpl; [reflexivity|].
  intros H. apply andb_prop in H. destruct H as [Hc Hr].
  rewrite Hc, (IH Hr). reflexivity.
Qed.

Lemma keepChars_idempotent (s : string) :
  Js.keepChars p (Js.keepChars p s) = Js.keepChars p s.
Proof. apply keepChars_fixed, allChars_keepChars. Qed.

Lemma allChars_append (s t : string) :
  Js.allChars p (s ++ t) = Js.allChars p s && Js.allChars p t.
Proof.
  induction s as [|c r IH]; simpl; [reflexivity|].
  rewrite IH, andb_assoc. reflexivity.
Qed.

End StringFacts.

Lemma keepDigitsPlus_all (s : string) :
  Js.allChars digitOrPlus (Js.keepDigitsPlus s) = true.
Proof. apply allChars_keepChars. Qed.

Lemma startsWith_plus_cons (s : string) : Js.startsWith (String "+" s) "+" = true.
Proof. unfold Js.startsWith. simpl. destruct s; reflexivity. Qed.

Lemma normalizePhoneNumber_shape (phone : string) :
  plusThenDigitsOrPlus (normalizePhoneNumber phone) = true.
Proof.
  unfold plusThenDigitsOrPlus, normalizePhoneNumber.
  pose proof (keepDigitsPlus_all phone) as Hall.
  destruct (Js.startsWith (Js.keepDigitsPlus phone) "+") eqn:Hplus.
  - rewrite Hplus, Hall. reflexivity.
  - destruct (Js.startsWith (Js.keepDigitsPlus phone) "55"
              && (12 <=? String.length (Js.keepDigitsPlus phone))%nat).
    + change ("+" ++ Js.keepDigitsPlus phone)%string
        with (String "+" (Js.keepDigitsPlus phone)).
      rewrite startsWith_plus_cons. simpl. exact Hall.
    + change ("+55" ++ Js.keepDigitsPlus phone)%string
        with (String "+" (String "5" (String "5" (Js.keepDigitsPlus phone)))).
      rewrite startsWith_plus_cons. simpl. exact Hall.
Qed.

(** C10. [normalizePhoneNumber] is idempotent: normalising a normalised
    number gives it back, for every input string. *)
Theorem normalizePhoneNumber_idempotent (n : string) :
  normalizePhoneNumber (normalizePhoneNumber n) = normalizePhoneNumber n.
Proof.
  pose proof (normalizePhoneNumber_shape n) as Hs.
  unfold plusThenDigitsOrPlus in Hs. apply andb_prop in Hs.
  destruct Hs as [Hplus Hall].
  set (m := normalizePhoneNumber n) in *.
  unfold normalizePhoneNumber at 1.
  unfold Js.keepDigitsPlus. fold digitOrPlus.
  rewrite (keepChars_fixed digitOrPlus m Hall), Hplus. reflexivity.
Qed.

(** ** Contact-list parsing *)

Lemma parseCampaignLine_shape (line : string) (e : ContactEntry) :
  parseCampaignLine line = Some e -> plusThenDigitsOrPlus (number e) = true.
Proof.
  unfold parseCampaignLine.
  set (num := Js.keepDigitsPlus _).
  destruct (Js.isEmpty num) eqn:He; [discriminate|].
  intros H. injection H as <-. simpl.
  assert (Hall : Js.allChars digitOrPlus num = true) by apply keepDigitsPlus_all.
  unfold plusThenDigitsOrPlus.
  destruct (Js.startsWith num "+") eqn:Hp.
  - rewrite Hp, Hall. reflexivity.
  - change ("+" ++ num)%string with (String "+" num).
    rewrite startsWith_plus_cons. simpl. exact Hall.
Qed.

Lemma collectEntries_shape (lines : list string) :
  Forall (fun e => plusThenDigitsOrPlus (number e) = true) (collectEntries lines).
Proof.
  induction lines as [|l rest IH]; simpl; [constructor|].
  destruct (parseCampaignLine l) eqn:Hl; [|exact IH].
  constructor; [eapply parseCampaignLine_shape; eassumption | exact IH].
Qed.

Section MapFacts.

Variable V : Type.
Implicit Types (m : JsMap.t V) (k : string) (v : V).

Lemma get_set_same k v m : JsMap.get k (JsMap.set k v m) = Some v.
Proof.
  induction m as [|[k' v'] r IH]; simpl.
  - rewrite String.eqb_refl. reflexivity.
  - destruct (String.eqb k' k) eqn:E; simpl; rewrite E; [reflexivity | exact IH].
Qed.

Lemma get_set_other k k' v m :
  k <> k' -> JsMap.get k' (JsMap.set k v m) = JsMap.get k' m.
Proof.
  intros Hne. induction m as [|[k0 v0] r IH]; simpl.
  - destruct (String.eqb k k') eqn:E; [apply String.eqb_eq in E; contradiction | reflexivity].
  - destruct (String.eqb k0 k) eqn:E; simpl.
    + apply String.eqb_eq in E. subst k0.
      destruct (String.eqb k k') eqn:E'; [apply String.eqb_eq in E'; contradiction | reflexivity].
    + rewrite IH. reflexivity.
Qed.

Lemma in_keys_set k k' v m :
  In k' (JsMap.keys (JsMap.set k v m)) <-> k' = k \/ In k' (JsMap.keys m).
Proof.
  unfold JsMap.keys. induction m as [|[k0 v0] r IH]; simpl.
  - intuition.
  - destruct (String.eqb k0 k) eqn:E; simpl.
    + apply String.eqb_eq in E. subst k0. intuition.
    + rewrite IH. intuition.
Qed.

Lemma NoDup_keys_set k v m :
  NoDup (JsMap.keys m) -> NoDup (JsMap.keys (JsMap.set k v m)).
Proof.
  unfold JsMap.keys. induction m as [|[k0 v0] r IH]; simpl; intros Hnd.
  - constructor; [intros [] | constructor].
  - destruct (String.eqb k0 k) eqn:E; simpl; [exact Hnd|].
    inversion Hnd as [|? ? Hnotin Hr]; subst.
    constructor; [|exact (IH Hr)].
    intros Hin. apply (in_keys_set k k0 v r) in Hin. destruct Hin as [->|Hin].
    + rewrite String.eqb_refl in E. discriminate.
    + exact (Hnotin Hin).
Qed.

Lemma in_set k v m kv :
  In kv (JsMap.set k v m) -> kv = (k, v) \/ In kv m.
Proof.
  induction m as [|[k0 v0] r IH]; simpl.
  - intuition.
  - destruct (String.eqb k0 k) eqn:E; simpl.
    + apply String.eqb_eq in E. subst k0. intuition.
    + intuition.
Qed.

End MapFacts.

Arguments get_set_same {V} k v m.
Arguments get_set_other {V} k k' v m _.
Arguments in_keys_set {V} k k' v m.
Arguments NoDup_keys_set {V} k v m _.
Arguments in_set {V} k v m kv _.

Lemma keyedByNumber_set (e : ContactEntry) (m : JsMap.t ContactEntry) :
  keyedByNumber m -> keyedByNumber (JsMap.set (number e) e m).
Proof.
  unfold keyedByNumber. rewrite !Forall_forall. intros H kv Hin.
  apply in_set in Hin. destruct Hin as [->|Hin]; [reflexivity | exact (H kv Hin)].
Qed.

Lemma find_over_app (A : Type) (f : A -> bool) (l1 l2 : list A) :
  find f (l1 ++ l2) = match find f l1 with Some x => Some x | None => find f l2 end.
Proof.
  induction l1 as [|a l1 IH]; simpl; [reflexivity|].
  destruct (f a); [reflexivity | exact IH].
Qed.

Lemma lastWith_cons (n : string) (e : ContactEntry) (es : list ContactEntry) :
  lastWith n (e :: es) =
  match lastWith n es with
  | Some x => Some x
  | None => if String.eqb (number e) n then Some e else None
  end.
Proof.
  unfold lastWith. simpl rev. rewrite find_over_app.
  destruct (find _ (rev es)); reflexivity.
Qed.

Lemma setAll_facts (es : list ContactEntry) :
  forall m : JsMap.t ContactEntry,
    NoDup (JsMap.keys m) -> keyedByNumber m ->
    NoDup (JsMap.keys (setAll es m))
    /\ keyedByNumber (setAll es m)
    /\ (forall n, JsMap.get n (setAll es m) =
                  match lastWith n es with
                  | Some e => Some e
                  | None => JsMap.get n m
                  end).
Proof.
  induction es as [|e es IH]; intros m Hnd Hk.
  - repeat split; assumption.
  - destruct (IH (JsMap.set (number e) e m)
                (NoDup_keys_set (number e) e m Hnd)
                (keyedByNumber_set e m Hk)) as (Hnd' & Hk' & Hget).
    repeat split; [exact Hnd' | exact Hk' |].
    intros n. unfold setAll in *. simpl fold_left.
    rewrite Hget, lastWith_cons.
    destruct (lastWith n es); [reflexivity|].
    destruct (String.eqb (number e) n) eqn:E.
    + apply String.eqb_eq in E. subst n. apply get_set_same.
    + apply get_set_other. intros Heq. rewrite Heq, String.eqb_refl in E.
      discriminate.
Qed.

Lemma entryFor_values (n : string) (m : JsMap.t ContactEntry) :
  keyedByNumber m -> entryFor n (JsMap.values m) = JsMap.get n m.
Proof.
  unfold entryFor, JsMap.values, keyedByNumber.
  induction m as [|[k v] r IH]; simpl; intros Hk; [reflexivity|].
  inversion Hk as [|? ? Hkv Hr]; subst. simpl in Hkv. subst k.
  destruct (String.eqb (number v) n); [reflexivity | exact (IH Hr)].
Qed.

Lemma numbers_of_values (m : JsMap.t ContactEntry) :
  keyedByNumber m -> map number (JsMap.values m) = JsMap.keys m.
Proof.
  unfold JsMap.values, JsMap.keys, keyedByNumber.
  induction m as [|[k v] r IH]; simpl; intros Hk; [reflexivity|].
  inversion Hk as [|? ? Hkv Hr]; subst. simpl in Hkv. rewrite (IH Hr), Hkv.
  reflexivity.
Qed.

Lemma entryFor_some_iff (n : string) (l : list ContactEntry) :
  In n (map number l) <-> entryFor n l <> None.
Proof.
  unfold entryFor. induction l as [|e r IH]; simpl.
  - intuition.
  - destruct (String.eqb (number e) n) eqn:E.
    + apply String.eqb_eq in E. split; [discriminate | intros _; left; exact E].
    + rewrite <- IH. split; [intros [H|H]; [|exact H] | intros H; right; exact H].
      subst n. rewrite String.eqb_refl in E. discriminate.
Qed.

Lemma lastWith_none_iff (n : string) (l : list ContactEntry) :
  lastWith n l = None <-> hasNumber n l = false.
Proof.
  unfold hasNumber. induction l as [|e r IH].
  - simpl. unfold lastWith. simpl. intuition.
  - rewrite lastWith_cons. simpl existsb.
    destruct (lastWith n r) eqn:Hl.
    + destruct (existsb _ r) eqn:Hex.
      * rewrite orb_true_r. split; discriminate.
      * exfalso. destruct IH as [_ IH]. specialize (IH eq_refl). discriminate.
    + destruct IH as [IH _]. rewrite (IH eq_refl), orb_false_r.
      destruct (String.eqb (number e) n); split; congruence.
Qed.

Lemma parseCampaignLines_facts (raw : string) :
  NoDup (map number (parseCampaignLines raw))
  /\ forall n, entryFor n (parseCampaignLines raw) = lastWith n (campaignEntries raw).
Proof.
  unfold parseCampaignLines.
  destruct (setAll_facts (campaignEntries raw) [])
    as (Hnd & Hk & Hget); [constructor | constructor |].
  split.
  - rewrite numbers_of_values by exact Hk. exact Hnd.
  - intros n. rewrite entryFor_values by exact Hk. rewrite Hget.
    destruct (lastWith n (campaignEntries raw)); reflexivity.
Qed.

Lemma parseCampaignLines_counts (raw : string) (n : string) :
  count_occ string_dec (map number (parseCampaignLines raw)) n
  = (if hasNumber n (campaignEntries raw) then 1 else 0).
Proof.
  destruct (parseCampaignLines_facts raw) as [Hnd Hlast].
  pose proof (proj1 (NoDup_count_occ string_dec _) Hnd n) as Hle.
  pose proof (count_occ_In string_dec (map number (parseCampaignLines raw)) n) as Hin.
  pose proof (entryFor_some_iff n (parseCampaignLines raw)) as Hsome.
  rewrite Hlast in Hsome.
  pose proof (lastWith_none_iff n (campaignEntries raw)) as Hnone.
  destruct (hasNumber n (campaignEntries raw)).
  - assert (In n (map number (parseCampaignLines raw))) as Hn.
    { apply Hsome. intros Hc. apply Hnone in Hc. discriminate. }
    apply Hin in Hn. lia.
  - destruct (Nat.eq_dec (count_occ string_dec (map number (parseCampaignLines raw)) n) 0)
      as [Hz|Hnz]; [exact Hz|].
    exfalso. assert (In n (map number (parseCampaignLines raw))) as Hn
      by (apply Hin; lia).
    apply Hsome in Hn. apply Hn. apply Hnone. reflexivity.
Qed.

(** *** Trimming and splitting at commas *)

Lemma isSpace_not_comma (c : ascii) :
  Js.isSpace c = true -> Ascii.eqb c "," = false.
Proof.
  intros Hs. destruct (Ascii.eqb c ",") eqn:E; [|reflexivity].
  apply Ascii.eqb_eq in E. subst c. discriminate Hs.
Qed.

Lemma isSpace_not_digitOrPlus (c : ascii) :
  Js.isSpace c = true -> Js.isDigit c || Js.isPlus c = false.
Proof.
  destruct c as [[] [] [] [] [] [] [] []]; vm_compute; intros H;
    first [discriminate H | reflexivity].
Qed.

Lemma splitComma_cons (s : string) : exists h t, Js.splitComma s = h :: t.
Proof.
  destruct s as [|c r]; cbn [Js.splitComma]; [eexists; eexists; reflexivity|].
  destruct (Ascii.eqb c ","); [eexists; eexists; reflexivity|].
  destruct (Js.splitComma r); cbn [Js.consHead]; eexists; eexists; reflexivity.
Qed.

(** A text without comma is its own only piece. *)
Lemma splitComma_single (s x : string) : Js.splitComma s = [x] -> x = s.
Proof.
  revert x. induction s as [|c r IH]; intros x; cbn [Js.splitComma].
  - intros H. injection H as <-. reflexivity.
  - destruct (Ascii.eqb c ",").
    + destruct (splitComma_cons r) as (h & t & ->). discriminate.
    + destruct (splitComma_cons r) as (h & t & Hr). rewrite Hr in *.
      cbn [Js.consHead]. intros H. injection H as <- ->.
      rewrite (IH h eq_refl). reflexivity.
Qed.

Lemma trimStart_idempotent (s : string) : Js.trimStart (Js.trimStart s) = Js.trimStart s.
Proof.
  induction s as [|c r IH]; [reflexivity|]. cbn [Js.trimStart].
  destruct (Js.isSpace c) eqn:Hc; [exact IH|]. cbn [Js.trimStart]. rewrite Hc. reflexivity.
Qed.

Lemma trimEnd_idempotent (s : string) : Js.trimEnd (Js.trimEnd s) = Js.trimEnd s.
Proof.
  induction s as [|c r IH]; [reflexivity|]. cbn [Js.trimEnd].
  destruct (Js.isSpace c && Js.isEmpty (Js.trimEnd r)) eqn:Hc; [reflexivity|].
  cbn [Js.trimEnd]. rewrite IH, Hc. reflexivity.
Qed.

Lemma trimStart_trimEnd (s : string) :
  Js.trimStart (Js.trimEnd s) = Js.trimEnd (Js.trimStart s).
Proof.
  induction s as [|c r IH]; [reflexivity|]. cbn [Js.trimStart Js.trimEnd].
  destruct (Js.isSpace c) eqn:Hc; cbn [andb].
  - destruct (Js.trimEnd r) as [|d x] eqn:Hr; cbn [Js.isEmpty].
    + rewrite <- IH. reflexivity.
    + cbn [Js.trimStart]. rewrite Hc. fold (Js.trimStart (String d x)).
      rewrite <- IH. reflexivity.
  - cbn [Js.trimStart Js.trimEnd]. rewrite Hc. reflexivity.
Qed.

Lemma trim_trimStart (s : string) : Js.trim (Js.trimStart s) = Js.trim s.
Proof. unfold Js.trim. rewrite trimStart_idempotent. reflexivity. Qed.

Lemma trim_trimEnd (s : string) : Js.trim (Js.trimEnd s) = Js.trim s.
Proof. unfold Js.trim. rewrite trimStart_trimEnd, trimEnd_idempotent. reflexivity. Qed.

(** Trimming a text at its start trims its first piece, and no other. *)
Lemma splitComma_trimStart (s : string) :
  Js.splitComma (Js.trimStart s)
  = match Js.splitComma s with
    | h :: t => Js.trimStart h :: t
    | [] => []
    end.
Proof.
  induction s as [|c r IH]; [reflexivity|]. cbn [Js.trimStart].
  destruct (Js.isSpace c) eqn:Hc.
  - cbn [Js.splitComma]. rewrite (isSpace_not_comma c Hc), IH.
    destruct (splitComma_cons r) as (h & t & ->). cbn [Js.consHead Js.trimStart].
    rewrite Hc. reflexivity.
  - cbn [Js.splitComma]. destruct (Ascii.eqb c ","); [reflexivity|].
    destruct (splitComma_cons r) as (h & t & ->). cbn [Js.consHead Js.trimStart].
    rewrite Hc. reflexivity.
Qed.

(** Trimming a text at its end trims its last piece, and no other. *)
Lemma splitComma_trimEnd (s : string) :
  exists pre final,
    Js.splitComma s = pre ++ [final]
    /\ Js.splitComma (Js.trimEnd s) = pre ++ [Js.trimEnd final].
Proof.
  induction s as [|c r IH].
  - exists [], EmptyString. split; reflexivity.
  - destruct IH as (pre & final & Hr & Hre). cbn [Js.trimEnd].
    destruct (Js.isSpace c && Js.isEmpty (Js.trimEnd r)) eqn:Hc.
    + apply andb_prop in Hc. destruct Hc as [Hs He].
      destruct (Js.trimEnd r) eqn:Hter; [|discriminate He].
      cbn [Js.splitComma] in Hre.
      destruct pre as [|p pre]; [|destruct pre; discriminate Hre].
      cbn [app] in *. injection Hre as Hfe.
      exists [], (String c final). cbn [Js.splitComma app].
      rewrite (isSpace_not_comma c Hs), Hr. cbn [Js.consHead Js.trimEnd].
      rewrite <- Hfe, Hs. split; reflexivity.
    + cbn [Js.splitComma]. destruct (Ascii.eqb c ",") eqn:Hcomma.
      * exists (EmptyString :: pre), final. rewrite Hr, Hre. split; reflexivity.
      * rewrite Hr, Hre. destruct pre as [|p pre]; cbn [app Js.consHead].
        -- exists [], (String c final). cbn [app Js.trimEnd].
           cbn [app] in Hr. rewrite (splitComma_single r final Hr), Hc.
           split; reflexivity.
        -- exists (String c p :: pre), final. split; reflexivity.
Qed.

(** The trimmed pieces of a line are those of the trimmed line. *)
Lemma parts_of_trimmed_line (line : string) :
  map Js.trim (Js.splitComma (Js.trim line)) = map Js.trim (Js.splitComma line).
Proof.
  unfold Js.trim at 2.
  destruct (splitComma_trimEnd (Js.trimStart line)) as (pre & final & Hs & He).
  rewrite He, map_app. cbn [map]. rewrite trim_trimEnd.
  assert (Hm : map Js.trim (pre ++ [final]) = map Js.trim pre ++ [Js.trim final])
    by (rewrite map_app; reflexivity).
  rewrite <- Hm, <- Hs, splitComma_trimStart.
  destruct (splitComma_cons line) as (h & t & ->).
  cbn [map]. rewrite trim_trimStart. reflexivity.
Qed.

Lemma keepChars_trimStart (p : ascii -> bool) (s : string) :
  (forall c, Js.isSpace c = true -> p c = false) ->
  Js.keepChars p (Js.trimStart s) = Js.keepChars p s.
Proof.
  intros Hp. induction s as [|c r IH]; [reflexivity|]. cbn [Js.trimStart].
  destruct (Js.isSpace c) eqn:Hc; [|reflexivity].
  cbn [Js.keepChars]. rewrite (Hp c Hc). exact IH.
Qed.

Lemma keepChars_trimEnd (p : ascii -> bool) (s : string) :
  (forall c, Js.isSpace c = true -> p c = false) ->
  Js.keepChars p (Js.trimEnd s) = Js.keepChars p s.
Proof.
  intros Hp. induction s as [|c r IH]; [reflexivity|]. cbn [Js.trimEnd].
  destruct (Js.isSpace c && Js.isEmpty (Js.trimEnd r)) eqn:Hc.
  - apply andb_prop in Hc. destruct Hc as [Hs He].
    destruct (Js.trimEnd r); [|discriminate He].
    cbn [Js.keepChars]. rewrite (Hp c Hs), <- IH. reflexivity.
  - cbn [Js.keepChars]. rewrite IH. reflexivity.
Qed.

(** Trimming removes neither digit nor plus. *)
Lemma keepDigitsPlus_trim (s : string) :
  Js.keepDigitsPlus (Js.trim s) = Js.keepDigitsPlus s.
Proof.
  unfold Js.keepDigitsPlus, Js.trim.
  rewrite keepChars_trimEnd, keepChars_trimStart;
    [reflexivity | exact isSpace_not_digitOrPlus | exact isSpace_not_digitOrPlus].
Qed.

Lemma nth_map_trim (k : nat) (l : list string) :
  nth k (map Js.trim l) EmptyString = Js.trim (nth k l EmptyString).
Proof. exact (map_nth Js.trim l EmptyString k). Qed.

(** *** The parse loop, line by line *)

(** What the loop pushes for a line of the text is the entry the line
    stands for; a blank line stands for none. *)
Lemma parseCampaignLine_of_line (line : string) :
  (if Js.isEmpty (Js.trim line) then None else parseCampaignLine (Js.trim line))
  = entryOfLine line.
Proof.
  assert (H : parseCampaignLine (Js.trim line) = entryOfLine line).
  { unfold parseCampaignLine, entryOfLine, numberOfLine, nameOfLine, numberField,
      normalizedNumber.
    rewrite parts_of_trimmed_line, !nth_map_trim, keepDigitsPlus_trim.
    destruct (Js.isEmpty (Js.keepDigitsPlus (nth 0 (Js.splitComma line) EmptyString)));
      reflexivity. }
  rewrite <- H. destruct (Js.trim line); reflexivity.
Qed.

Lemma collectEntries_of_lines (lines : list string) :
  collectEntries (filter (fun l => negb (Js.isEmpty l)) (map Js.trim lines))
  = entriesOfLines lines.
Proof.
  induction lines as [|l rest IH]; [reflexivity|].
  cbn [map filter entriesOfLines flat_map].
  fold (entriesOfLines rest). rewrite <- IH, <- (parseCampaignLine_of_line l).
  destruct (Js.isEmpty (Js.trim l)); cbn [negb app]; [reflexivity|].
  cbn [collectEntries]. destruct (parseCampaignLine (Js.trim l)); reflexivity.
Qed.

(** The array the parse loop builds holds the entries the lines of the text
    stand for, in the order of the lines. *)
Lemma campaignEntries_of_lines (raw : string) :
  campaignEntries raw = entriesOfLines (Js.splitLines raw).
Proof. unfold campaignEntries, safeText. apply collectEntries_of_lines. Qed.

Lemma entryOfLine_number (n line : string) :
  match entryOfLine line with
  | Some e => String.eqb (number e) n
  | None => false
  end = carries n line.
Proof.
  unfold entryOfLine, carries. destruct (numberOfLine line); reflexivity.
Qed.

Lemma hasNumber_of_lines (n : string) (lines : list string) :
  hasNumber n (entriesOfLines lines) = existsb (carries n) lines.
Proof.
  unfold hasNumber. induction lines as [|l rest IH]; [reflexivity|].
  cbn [entriesOfLines flat_map existsb]. fold (entriesOfLines rest).
  rewrite existsb_app, IH, <- (entryOfLine_number n l).
  destruct (entryOfLine l); cbn [existsb]; [rewrite orb_false_r|]; reflexivity.
Qed.

Lemma lastLineCarrying_cons (n l : string) (rest : list string) :
  lastLineCarrying n (l :: rest)
  = match lastLineCarrying n rest with
    | Some x => Some x
    | None => if carries n l then Some l else None
    end.
Proof.
  unfold lastLineCarrying. cbn [rev]. rewrite find_over_app.
  destruct (find (carries n) (rev rest)); [reflexivity|].
  cbn [find]. destruct (carries n l); reflexivity.
Qed.

Lemma lastWith_of_lines (n : string) (lines : list string) :
  lastWith n (entriesOfLines lines)
  = option_map (fun line => mkEntry n (nameOfLine line)) (lastLineCarrying n lines).
Proof.
  induction lines as [|l rest IH]; [reflexivity|].
  rewrite lastLineCarrying_cons.
  cbn [entriesOfLines flat_map]. fold (entriesOfLines rest).
  unfold carries, entryOfLine.
  destruct (numberOfLine l) as [m|]; cbn [option_map app].
  - rewrite lastWith_cons, IH. cbn [number].
    destruct (lastLineCarrying n rest); cbn [option_map]; [reflexivity|].
    destruct (String.eqb m n) eqn:E; cbn [option_map]; [|reflexivity].
    apply String.eqb_eq in E. subst m. reflexivity.
  - rewrite IH. destruct (lastLineCarrying n rest); reflexivity.
Qed.

(** C8. [parseCampaignLines] keeps one entry per normalized number of the
    text: the numbers of its result are pairwise distinct; a number occurs
    in the result exactly once when some line of the text carries it, that
    is, when the text before the first comma of the line, stripped of what
    is neither digit nor plus and prefixed with a plus if it has none, is
    that number, and not at all otherwise; and the entry kept for a number
    has the name of the last line of the text that carries it. *)
Theorem parseCampaignLines_dedup (raw : string) (n : string) :
  let lines := Js.splitLines raw in
  NoDup (map number (parseCampaignLines raw))
  /\ count_occ string_dec (map number (parseCampaignLines raw)) n
     = (if existsb (carries n) lines then 1 else 0)
  /\ entryFor n (parseCampaignLines raw)
     = option_map (fun line => mkEntry n (nameOfLine line)) (lastLineCarrying n lines).
Proof.
  cbv zeta. destruct (parseCampaignLines_facts raw) as [Hnd Hlast].
  split; [exact Hnd|]. split.
  - rewrite parseCampaignLines_counts, campaignEntries_of_lines, hasNumber_of_lines.
    reflexivity.
  - rewrite Hlast, campaignEntries_of_lines. apply lastWith_of_lines.
Qed.

Example lines_carrying_a_number :
  let raw := ("5511 9999-0001, Ana" ++ String Js.CR (String Js.LF "+55 11 0000 0002 ,Bia,x")
                ++ String Js.LF "(55)1199990001,Carla")%string in
  map numberOfLine (Js.splitLines raw)
  = [Some "+551199990001"; Some "+551100000002"; Some "+551199990001"]%string
  /\ lastLineCarrying "+551199990001" (Js.splitLines raw)
     = Some "(55)1199990001,Carla"%string
  /\ entryFor "+551199990001" (parseCampaignLines raw)
     = Some (mkEntry "+551199990001" "Carla").
Proof. repeat split. Qed.

Lemma in_values_setAll (es : list ContactEntry) :
  forall (m : JsMap.t ContactEntry) (e : ContactEntry),
    In e (JsMap.values (setAll es m)) -> In e es \/ In e (JsMap.values m).
Proof.
  unfold JsMap.values.
  induction es as [|x es IH]; intros m e Hin; [right; exact Hin|].
  apply IH in Hin. destruct Hin as [Hin|Hin]; [left; right; exact Hin|].
  apply in_map_iff in Hin. destruct Hin as (kv & <- & Hkv).
  apply in_set in Hkv. destruct Hkv as [->|Hkv].
  - left. left. reflexivity.
  - right. apply in_map. exact Hkv.
Qed.

(** *** What the two paths keep of their input *)

Section CharFacts.

Variables p q : ascii -> bool.
Hypothesis p_in_q : forall c, p c = true -> q c = true.






End CharFacts.








(** ** The rate limiter *)

Section RateLimiter.

Local Open Scope Z_scope.




Lemma shiftOlder_incl (ago : Z) (w : list Z) : incl (shiftOlder ago w) w.
Proof.
  induction w as [|a w IH]; simpl; [apply incl_refl|].
  destruct (a <? ago); [apply incl_tl; exact IH | apply incl_refl].
Qed.

Lemma shiftOlder_sorted (ago : Z) (w : list Z) :
  StronglySorted Z.le w -> Forall (fun t => ago <= t) (shiftOlder ago w).
Proof.
  induction 1 as [|a w Hs IH Ha]; simpl; [constructor|].
  destruct (Z.ltb_spec a ago); [exact IH|].
  constructor; [assumption|].
  eapply Forall_impl; [|exact Ha]. simpl. intros; lia.
Qed.



(** C7, as stated, fails: [recordMessageSent] leaves an old timestamp in
    the window. *)
Lemma recordMessageSent_keeps_old_entries :
  recordMessageSent 10000000 [0] = [0; 10000000]
  /\ ~ Forall (withinLastHour 10000000) (recordMessageSent 10000000 [0]).
Proof.
  split; [reflexivity|].
  intros H. inversion H as [|? ? H0 _]; subst.
  unfold withinLastHour, hourMs in H0. lia.
Qed.

(** C7, as the code has it. [recordMessageSent] appends the current
    timestamp and removes nothing; it is [checkRateLimit] that prunes: on a
    window in chronological order it leaves only timestamps of the last
    hour, and so does a [recordMessageSent] that follows it at the same
    instant. *)
Theorem recordMessageSent_appends_checkRateLimit_prunes (now : Z) (w : list Z) :
  StronglySorted Z.le w ->
  length (recordMessageSent now w) = S (length w)
  /\ incl w (recordMessageSent now w)
  /\ In now (recordMessageSent now w)
  /\ Forall (withinLastHour now) (snd (checkRateLimit now w))
  /\ Forall (withinLastHour now) (recordMessageSent now (snd (checkRateLimit now w))).
Proof.
  intros Hsorted. unfold recordMessageSent.
  assert (Hkept : Forall (withinLastHour now) (snd (checkRateLimit now w))).
  { unfold checkRateLimit, withinLastHour, hourMs. simpl.
    apply shiftOlder_sorted. exact Hsorted. }
  repeat split.
  - rewrite length_app. simpl. lia.
  - apply incl_appl, incl_refl.
  - apply in_or_app. right. left. reflexivity.
  - exact Hkept.
  - apply Forall_app. split; [exact Hkept|].
    constructor; [unfold withinLastHour, hourMs; lia | constructor].
Qed.

Lemma recordMessageSent_appends_checkRateLimit_prunes_witness :
  snd (checkRateLimit 10000000 [0; 7000000]) = [7000000]
  /\ Forall (withinLastHour 10000000)
            (recordMessageSent 10000000 (snd (checkRateLimit 10000000 [0; 7000000]))).
Proof.
  split; [reflexivity|].
  apply (recordMessageSent_appends_checkRateLimit_prunes 10000000 [0; 7000000]).
  repeat constructor; lia.
Defined.

End RateLimiter.

(** ** Bounded DOM polling *)

Section Polling.

Local Open Scope Z_scope.

Lemma findElementWithRetryFrom_bounds (dom : nat -> option Element) (delayMs : Z) :
  0 <= delayMs ->
  forall remaining i,
    let r := findElementWithRetryFrom dom delayMs remaining i in
    (polls r <= remaining)%nat
    /\ 0 <= sleptMs r <= Z.of_nat remaining * delayMs
    /\ (outcome r = None -> polls r = remaining /\ sleptMs r = Z.of_nat remaining * delayMs).
Proof.
  intros Hd. induction remaining as [|k IH]; intros i.
  - simpl. split; [lia|]. split; [lia|]. intros _. split; lia.
  - cbn [findElementWithRetryFrom]. rewrite Nat2Z.inj_succ, Z.mul_succ_l.
    assert (0 <= Z.of_nat k * delayMs) by (apply Z.mul_nonneg_nonneg; lia).
    destruct (dom i) as [el|]; cbn [outcome polls sleptMs afterMiss].
    + split; [lia|]. split; [lia|]. discriminate.
    + destruct (IH (S i)) as (Hp & Hs & Hnone).
      split; [lia|]. split; [lia|].
      intros Ho. destruct (Hnone Ho). split; lia.
Qed.

Lemma fileInputFrom_bounds (dom : nat -> option Element) :
  forall remaining attempt,
    let r := fileInputFrom dom remaining attempt in
    (polls r <= remaining)%nat
    /\ 0 <= sleptMs r <= 300 * Z.of_nat remaining
    /\ (outcome r = None -> polls r = remaining /\ sleptMs r = 300 * Z.of_nat remaining).
Proof.
  induction remaining as [|k IH]; intros i.
  - simpl. split; [lia|]. split; [lia|]. intros _. split; lia.
  - cbn [fileInputFrom]. destruct (dom i) as [el|]; cbn [outcome polls sleptMs afterMiss].
    + split; [lia|]. split; [lia|]. discriminate.
    + destruct (IH (S i)) as (Hp & Hs & Hnone).
      split; [lia|]. split; [lia|].
      intros Ho. destruct (Hnone Ho). split; lia.
Qed.

Lemma previewFrom_bounds (dom : nat -> option Element) :
  forall remaining i,
    let r := previewFrom dom remaining i in
    (polls r <= remaining)%nat
    /\ sleptMs r = 300 * Z.of_nat (polls r)
    /\ (outcome r = None -> polls r = remaining).
Proof.
  induction remaining as [|k IH]; intros i.
  - simpl. split; [lia|]. split; [lia|]. reflexivity.
  - cbn [previewFrom]. destruct (dom i) as [el|]; cbn [outcome polls sleptMs afterMiss].
    + split; [lia|]. split; [lia|]. discriminate.
    + destruct (IH (S i)) as (Hp & Hs & Hnone).
      split; [lia|]. split; [lia|].
      intros Ho. rewrite (Hnone Ho). reflexivity.
Qed.

Lemma validateFrom_bounds (dom : nat -> ChatDom) (digits : string) :
  forall remaining i,
    let r := validateFrom dom digits remaining i in
    (polls r <= remaining)%nat
    /\ sleptMs r = COMPOSER_CHECK_DELAY_MS * Z.of_nat (polls r)
    /\ (outcome r = None -> polls r = remaining).
Proof.
  unfold COMPOSER_CHECK_DELAY_MS.
  induction remaining as [|k IH]; intros i.
  - simpl. split; [lia|]. split; [lia|]. reflexivity.
  - cbn [validateFrom].
    destruct (acceptsAt (dom i) digits i);
      cbn [outcome polls sleptMs afterMiss]; unfold COMPOSER_CHECK_DELAY_MS.
    + split; [lia|]. split; [lia|]. discriminate.
    + destruct (IH (S i)) as (Hp & Hs & Hnone).
      split; [lia|]. split; [lia|].
      intros Ho. rewrite (Hnone Ho). reflexivity.
Qed.

(** The iteration that returns is the first one whose test holds. *)
Lemma validateFrom_returns (dom : nat -> ChatDom) (digits : string) :
  forall remaining i k,
    outcome (validateFrom dom digits remaining i) = Some k <->
    (i <= k < i + remaining)%nat
    /\ acceptsAt (dom k) digits k = true
    /\ (forall j, (i <= j < k)%nat -> acceptsAt (dom j) digits j = false).
Proof.
  induction remaining as [|r IH]; intros i k; cbn [validateFrom].
  - cbn [outcome]. split; [discriminate | intros ([? ?] & _); lia].
  - destruct (acceptsAt (dom i) digits i) eqn:Hi; cbn [afterMiss outcome].
    + split.
      * intros H. injection H as <-. split; [lia|]. split; [exact Hi|].
        intros j Hj. lia.
      * intros (Hk & Hacc & Hfirst). f_equal.
        destruct (Nat.eq_dec i k) as [|Hne]; [assumption|].
        rewrite (Hfirst i) in Hi by lia. discriminate.
    + rewrite IH. split.
      * intros (Hk & Hacc & Hfirst). split; [lia|]. split; [exact Hacc|].
        intros j Hj. destruct (Nat.eq_dec j i) as [->|Hne]; [exact Hi|].
        apply Hfirst. lia.
      * intros (Hk & Hacc & Hfirst).
        assert (i <> k) by (intros ->; congruence).
        split; [lia|]. split; [exact Hacc|]. intros j Hj. apply Hfirst. lia.
Qed.

Lemma validateFrom_fails (dom : nat -> ChatDom) (digits : string) :
  forall remaining i,
    outcome (validateFrom dom digits remaining i) = None <->
    (forall j, (i <= j < i + remaining)%nat -> acceptsAt (dom j) digits j = false).
Proof.
  induction remaining as [|r IH]; intros i; cbn [validateFrom].
  - cbn [outcome]. split; [intros _ j Hj; lia | reflexivity].
  - destruct (acceptsAt (dom i) digits i) eqn:Hi; cbn [afterMiss outcome].
    + split; [discriminate|]. intros H. rewrite (H i) in Hi by lia. discriminate.
    + rewrite IH. split.
      * intros H j Hj. destruct (Nat.eq_dec j i) as [->|Hne]; [exact Hi|].
        apply H. lia.
      * intros H j Hj. apply H. lia.
Qed.

(** The validation loop of [openChatBySearch], as the code has it: it
    returns at the first iteration [i < 20] at which a composer is there and
    [isCorrectChat || i > 15] holds, and it throws when there is no such
    iteration, as when no composer ever shows. *)
Lemma validateChatOpen_outcome (dom : nat -> ChatDom) (digits : string) :
  (forall k, outcome (validateChatOpen dom digits) = Returned k <->
             (k < MAX_COMPOSER_CHECK_ATTEMPTS)%nat
             /\ acceptsAt (dom k) digits k = true
             /\ (forall j, (j < k)%nat -> acceptsAt (dom j) digits j = false))
  /\ (outcome (validateChatOpen dom digits) = Threw ChatOpenFailed <->
      forall j, (j < MAX_COMPOSER_CHECK_ATTEMPTS)%nat -> acceptsAt (dom j) digits j = false)
  /\ ((forall j, composer (dom j) = false) ->
      validateChatOpen dom digits = mkPolled (Threw ChatOpenFailed) 20 6000).
Proof.
  unfold validateChatOpen.
  pose proof (validateFrom_returns dom digits MAX_COMPOSER_CHECK_ATTEMPTS 0) as Hret.
  pose proof (validateFrom_fails dom digits MAX_COMPOSER_CHECK_ATTEMPTS 0) as Hfail.
  pose proof (validateFrom_bounds dom digits MAX_COMPOSER_CHECK_ATTEMPTS 0) as Hb.
  cbv zeta in *.
  destruct (validateFrom dom digits MAX_COMPOSER_CHECK_ATTEMPTS 0) as [o p s].
  cbn [outcome polls sleptMs] in *.
  unfold MAX_COMPOSER_CHECK_ATTEMPTS, COMPOSER_CHECK_DELAY_MS in *.
  split; [|split].
  - intros k. split.
    + intros H. destruct o as [k'|]; [|discriminate]. injection H as ->.
      destruct (proj1 (Hret k) eq_refl) as (Hk & Hacc & Hf).
      split; [lia|]. split; [exact Hacc|]. intros j Hj. apply Hf. lia.
    + intros (Hk & Hacc & Hfirst).
      assert (o = Some k) as ->; [|reflexivity].
      apply Hret. split; [lia|]. split; [exact Hacc|].
      intros j Hj. apply Hfirst. lia.
  - split.
    + intros H. destruct o; [discriminate|]. intros j Hj.
      apply (proj1 Hfail eq_refl). lia.
    + intros H. assert (o = None) as ->; [|reflexivity].
      apply Hfail. intros j Hj. apply H. lia.
  - intros Hnever.
    assert (o = None) as ->.
    { apply Hfail. intros j _. unfold acceptsAt. rewrite Hnever. reflexivity. }
    destruct Hb as (_ & Hs & Hp). rewrite (Hp eq_refl) in Hs.
    rewrite (Hp eq_refl), Hs. reflexivity.
Qed.

(** Whatever shares an 8-digit suffix with the target in the
    specification's sense passes the code's test; the converse fails. *)
Lemma isCorrectChat_covers_shared_suffix (title digits : string) :
  sharesEightDigitSuffix (Js.keepDigits title) digits = true ->
  isCorrectChat title digits = true.
Proof.
  unfold sharesEightDigitSuffix, isCorrectChat, PHONE_SUFFIX_MATCH_LENGTH.
  intros H. apply orb_true_iff in H. destruct H as [H | H].
  - apply orb_true_iff in H. destruct H as [H | H];
      apply andb_true_iff in H; destruct H as [_ H]; rewrite H;
      [reflexivity | rewrite orb_true_r; reflexivity].
  - rewrite H. rewrite !orb_true_r. reflexivity.
Qed.

(** C4, at the failing input.  The target is "5511999990001" and the chat
    that opened is titled "Ana": the title has no digit, so it shares no
    8-digit suffix with the target, and the threshold is not exceeded at
    iteration 0; yet [isCorrectChat] holds, because [digits.includes('')] is
    true, and the loop returns at iteration 0. *)
Theorem digitless_title_is_accepted_at_once :
  let dom := fun _ : nat => mkChatDom true "Ana" in
  let digits := "5511999990001"%string in
  validateChatOpen dom digits = mkPolled (Returned 0%nat) 1 300
  /\ Js.keepDigits "Ana" = EmptyString
  /\ isCorrectChat "Ana" digits = true
  /\ sharesEightDigitSuffix (Js.keepDigits "Ana") digits = false
  /\ Nat.ltb VALIDATION_SKIP_THRESHOLD 0 = false.
Proof. repeat split. Qed.

(** What the validation loop and the two waits of [attachMediaAndSend] do
    when the element never shows. *)
Lemma waits_when_nothing_shows (digits : string) :
  validateChatOpen (fun _ => mkChatDom false EmptyString) digits
    = mkPolled (Threw ChatOpenFailed) 20 6000
  /\ waitFileInput (fun _ => None) = mkPolled (Threw FileInputNotFound) 5 1500
  /\ waitPreview (fun _ => None) = mkPolled (Threw PreviewTimeout) 60 18000.
Proof.
  split; [|split; reflexivity].
  apply validateChatOpen_outcome. reflexivity.
Qed.

(** C5, as stated, fails for the media preview: when the send button of
    the preview never shows, the wait queries the page 60 times and sleeps
    18 seconds. *)
Lemma preview_wait_exceeds_fifteen_seconds :
  waitPreview (fun _ => None) = mkPolled (Threw PreviewTimeout) 60 18000
  /\ ~ (forall dom, (polls (waitPreview dom) <= 50)%nat
                    /\ sleptMs (waitPreview dom) <= 15000).
Proof.
  split; [reflexivity|].
  intros H. destruct (H (fun _ => None)) as [Hp _]. vm_compute in Hp. lia.
Qed.

(** C5, as the code has it.  Every polling wait of the core queries the
    page a bounded number of times, sleeps a bounded time and then returns
    or throws: [findElementWithRetry] at most [maxAttempts] times
    [delayMs]; the file-input wait at most 5 times 300 ms; the chat-open
    validation at most 20 times 300 ms, 6 s; the media-preview wait at most
    60 times 300 ms, 18 s, a bound it reaches when nothing shows. *)
Theorem polling_waits_are_bounded
    (sel input preview : nat -> option Element) (chat : nat -> ChatDom)
    (digits : string) (maxAttempts : nat) (delayMs : Z) :
  0 <= delayMs ->
  ((polls (findElementWithRetry sel maxAttempts delayMs) <= maxAttempts)%nat
   /\ sleptMs (findElementWithRetry sel maxAttempts delayMs) <= Z.of_nat maxAttempts * delayMs)
  /\ ((polls (waitFileInput input) <= 5)%nat /\ sleptMs (waitFileInput input) <= 1500)
  /\ ((polls (validateChatOpen chat digits) <= 20)%nat
      /\ sleptMs (validateChatOpen chat digits) <= 6000)
  /\ ((polls (waitPreview preview) <= 60)%nat /\ sleptMs (waitPreview preview) <= 18000)
  /\ (outcome (validateChatOpen chat digits) = Threw ChatOpenFailed
      \/ exists i, outcome (validateChatOpen chat digits) = Returned i)
  /\ (outcome (waitPreview preview) = Threw PreviewTimeout
      \/ exists el, outcome (waitPreview preview) = Returned el)
  /\ validateChatOpen (fun _ => mkChatDom false EmptyString) digits
       = mkPolled (Threw ChatOpenFailed) 20 6000
  /\ waitPreview (fun _ => None) = mkPolled (Threw PreviewTimeout) 60 18000.
Proof.
  intros Hd.
  pose proof (findElementWithRetryFrom_bounds sel delayMs Hd maxAttempts 0) as H1.
  pose proof (fileInputFrom_bounds input 5 0) as H2.
  pose proof (validateFrom_bounds chat digits MAX_COMPOSER_CHECK_ATTEMPTS 0) as H3.
  pose proof (previewFrom_bounds preview previewMaxAttempts 0) as H4.
  pose proof (waits_when_nothing_shows digits) as (W1 & _ & W3).
  unfold findElementWithRetry, waitFileInput, waitPreview, validateChatOpen, orThrow.
  cbv zeta in *.
  destruct (findElementWithRetryFrom sel delayMs maxAttempts 0) as [o1 p1 s1].
  destruct (fileInputFrom input 5 0) as [o2 p2 s2].
  destruct (validateFrom chat digits MAX_COMPOSER_CHECK_ATTEMPTS 0) as [o3 p3 s3].
  destruct (previewFrom preview previewMaxAttempts 0) as [o4 p4 s4].
  cbn [outcome polls sleptMs] in *.
  unfold MAX_COMPOSER_CHECK_ATTEMPTS, COMPOSER_CHECK_DELAY_MS, previewMaxAttempts in *.
  split; [lia|]. split; [lia|]. split; [lia|]. split; [lia|].
  split; [destruct o3 as [i|]; [right; exists i; reflexivity | left; reflexivity]|].
  split; [destruct o4 as [el|]; [right; exists el; reflexivity | left; reflexivity]|].
  split; [exact W1 | exact W3].
Qed.

Lemma polling_waits_are_bounded_witness :
  (polls (findElementWithRetry (fun i => if (i <? 3)%nat then None else Some 7%nat) 10 300) <= 10)%nat
  /\ sleptMs (waitPreview (fun i => if (i <? 59)%nat then None else Some 1%nat)) <= 18000.
Proof.
  destruct (polling_waits_are_bounded
              (fun i => if (i <? 3)%nat then None else Some 7%nat)
              (fun _ => None)
              (fun i => if (i <? 59)%nat then None else Some 1%nat)
              (fun _ => mkChatDom true "Ana") "5511999990001" 10 300)
    as ((H1 & _) & _ & _ & (_ & H4) & _); [lia|].
  split; [exact H1 | exact H4].
Defined.

End Polling.

(** ** The campaign runner *)

Ltac open_runner r :=
  let rn := fresh "rn" in let pa := fresh "pa" in let ab := fresh "ab" in
  let cu := fresh "cu" in let tot := fresh "tot" in
  let es := fresh "es" in let msg := fresh "msg" in let pt := fresh "pt" in
  let st := fresh "st" in let sl := fresh "sl" in let op := fresh "op" in
  let rs := fresh "rs" in
  destruct r as [[rn pa ab cu tot] es msg pt st sl op rs];
  cbn [campRun entries message point stored statusLine opened results
       running paused abort cursor total] in *.

Ltac unfold_runner :=
  repeat progress
    (unfold run, step, resume, campPauseBtn_click, campStopBtn_click, loopHead,
       waitWhilePaused, afterSave, endContact, enterContact, finishRun, setPoint,
       setCampRun in *;
     cbn [fold_left campRun entries message point stored statusLine opened results
          running paused abort cursor total negb andb] in *).

(** How the [try] block of contact [i] ends does not matter to what the
    runner does next: the error is caught, the cursor moves on, the state is
    saved. *)
Lemma endContact_facts (r : Runner) (i : nat) (res : StepResult) :
  point r = AwaitContact i ->
  let r1 := step r (Settled res) in
  point r1 = AwaitSave i
  /\ cursor (campRun r1) = i + 1
  /\ stored r1 = Some (mkCampaignState (entries r) (message r) (i + 1)
                         (if abort (campRun r) then StatusAborted else StatusRunning))
  /\ results r1 = results r ++ [(i, res)]
  /\ opened r1 = opened r
  /\ entries r1 = entries r
  /\ running (campRun r1) = running (campRun r)
  /\ paused (campRun r1) = paused (campRun r)
  /\ abort (campRun r1) = abort (campRun r).
Proof.
  intros Hpt r1. subst r1. open_runner r. subst pt. unfold_runner.
  repeat split.
Qed.

(** After the save of contact [i], when another contact follows: the delay,
    then the head of the loop for contact [i + 1]. *)
Lemma next_contact_facts (r : Runner) (i : nat) (a b : StepResult) :
  point r = AwaitSave i ->
  S i < length (entries r) ->
  abort (campRun r) = false ->
  let r2 := run r [Settled a; Settled b] in
  point r2 = (if paused (campRun r) then AwaitPaused (S i) else AwaitContact (S i))
  /\ opened r2 = (if paused (campRun r) then opened r else opened r ++ [S i])
  /\ results r2 = results r
  /\ cursor (campRun r2) = cursor (campRun r).
Proof.
  intros Hpt Hlt Hab r2. subst r2. open_runner r. subst pt ab. unfold_runner.
  assert (H1 : (i <? length es - 1) = true) by (apply Nat.ltb_lt; lia).
  rewrite H1. unfold_runner.
  assert (H2 : (i + 1 <? length es) = true) by (apply Nat.ltb_lt; lia).
  rewrite H2. unfold_runner.
  replace (i + 1) with (S i) by lia.
  destruct pa; unfold_runner; repeat split.
Qed.

(** One untouched contact that is not the last: its [try] block, its save
    and its delay settle, and the next contact is opened. *)
Lemma untouched_contact_then_next (r : Runner) (i : nat) (o a b : StepResult) :
  point r = AwaitContact i ->
  abort (campRun r) = false ->
  paused (campRun r) = false ->
  S i < length (entries r) ->
  step (step (step r (Settled o)) (Settled a)) (Settled b)
  = mkRunner (mkCampRun (running (campRun r)) false false (i + 1) (total (campRun r)))
             (entries r) (message r) (AwaitContact (i + 1))
             (Some (mkCampaignState (entries r) (message r) (i + 1) StatusRunning))
             (LineOpening (i + 1)) (opened r ++ [i + 1]) (results r ++ [(i, o)]).
Proof.
  intros Hpt Hab Hpa Hlt.
  destruct r as [[rn pa ab cu tot] es msg pt st sl op rs].
  cbn [campRun entries message point stored statusLine opened results
       running paused abort cursor total] in *.
  subst pt ab pa.
  assert (H1 : (i <? length es - 1) = true) by (apply Nat.ltb_lt; lia).
  assert (H2 : (i + 1 <? length es) = true) by (apply Nat.ltb_lt; lia).
  unfold step at 3. unfold resume. cbn [point]. unfold endContact.
  cbn [campRun entries message point stored statusLine opened results
       running paused abort cursor total].
  unfold step at 2. unfold resume. cbn [point]. unfold afterSave.
  cbn [entries]. rewrite H1.
  unfold step, resume. cbn [point]. unfold loopHead. cbn [entries campRun abort].
  rewrite H2. cbn [negb]. unfold waitWhilePaused, enterContact.
  cbn [campRun entries message point stored statusLine opened results
       running paused abort cursor total andb negb].
  reflexivity.
Qed.

(** The last untouched contact: its [try] block, its save and the closing
    clear settle, and the run has ended as completed. *)
Lemma untouched_last_contact (r : Runner) (i : nat) (o a b : StepResult) :
  point r = AwaitContact i ->
  abort (campRun r) = false ->
  S i = length (entries r) ->
  step (step (step r (Settled o)) (Settled a)) (Settled b)
  = mkRunner (mkCampRun false false false (i + 1) (total (campRun r)))
             (entries r) (message r) Ended None
             (LineCompleted (length (entries r))) (opened r) (results r ++ [(i, o)]).
Proof.
  intros Hpt Hab Hlt.
  destruct r as [[rn pa ab cu tot] es msg pt st sl op rs].
  cbn [campRun entries message point stored statusLine opened results
       running paused abort cursor total] in *.
  subst pt ab.
  assert (H1 : (i <? length es - 1) = false) by (apply Nat.ltb_ge; lia).
  assert (H2 : (i + 1 <? length es) = false) by (apply Nat.ltb_ge; lia).
  unfold step at 3. unfold resume. cbn [point]. unfold endContact.
  cbn [campRun entries message point stored statusLine opened results
       running paused abort cursor total].
  unfold step at 2. unfold resume. cbn [point]. unfold afterSave.
  cbn [entries]. rewrite H1.
  unfold loopHead. cbn [entries campRun abort]. rewrite H2. cbn [negb].
  unfold finishRun.
  cbn [campRun entries message point stored statusLine opened results
       running paused abort cursor total].
  unfold step, resume. cbn [point]. unfold setPoint.
  cbn [campRun entries message point stored statusLine opened results
       running paused abort cursor total].
  reflexivity.
Qed.

(** A run nobody pauses or stops, from inside the [try] block of contact
    [i]: whatever the outcomes of the remaining contacts, each of them is
    opened in turn and the run ends as completed. *)
Lemma untouched_from_contact (os : list StepResult) :
  forall (r : Runner) (i : nat),
    point r = AwaitContact i ->
    abort (campRun r) = false ->
    paused (campRun r) = false ->
    os <> [] ->
    i + length os = length (entries r) ->
    let f := run r (untouched os) in
    point f = Ended
    /\ opened f = opened r ++ seq (S i) (length os - 1)
    /\ results f = results r ++ combine (seq i (length os)) os
    /\ statusLine f = LineCompleted (length (entries r))
    /\ cursor (campRun f) = length (entries r)
    /\ running (campRun f) = false
    /\ stored f = None.
Proof.
  induction os as [|o rest IH]; intros r i Hpt Hab Hpa Hne Hlen; [congruence|].
  cbv zeta. cbn [untouched].
  change (run r (Settled o :: Settled StepOk :: Settled StepOk :: untouched rest))
    with (run (step (step (step r (Settled o)) (Settled StepOk)) (Settled StepOk))
              (untouched rest)).
  cbn [length] in Hlen.
  destruct rest as [|o' rest'].
  - (* the last contact *)
    cbn [length] in Hlen.
    rewrite (untouched_last_contact r i o StepOk StepOk Hpt Hab) by lia.
    cbn [untouched run fold_left point opened results statusLine campRun cursor
         running stored length seq combine Nat.sub].
    rewrite app_nil_r. repeat split. lia.
  - (* another contact follows *)
    cbn [length] in Hlen.
    rewrite (untouched_contact_then_next r i o StepOk StepOk Hpt Hab Hpa) by lia.
    match goal with
    | |- context [run ?R _] =>
        destruct (IH R (i + 1)) as (F1 & F2 & F3 & F4 & F5 & F6 & F7);
          try reflexivity; try discriminate
    end.
    { cbn [entries length]. lia. }
    cbv zeta in *.
    cbn [campRun entries message point stored statusLine opened results
         running paused abort cursor total] in F2, F3, F4, F5.
    split; [exact F1|]. split.
    { rewrite F2, <- app_assoc. cbn [length].
      replace (i + 1) with (S i) by lia.
      replace (S (S (length rest')) - 1) with (S (length rest')) by lia.
      replace (S (length rest') - 1) with (length rest') by lia.
      reflexivity. }
    split.
    { rewrite F3, <- app_assoc. replace (i + 1) with (S i) by lia. reflexivity. }
    split; [exact F4|]. split; [exact F5|]. split; [exact F6 | exact F7].
Qed.

Ltac split_ifs :=
  repeat (unfold_runner;
          match goal with
          | |- context [if ?b then _ else _] => destruct b eqn:?
          end);
  unfold_runner.








(** A whole run nobody pauses or stops: the initial save settles, then
    every contact is opened in turn, whatever the outcomes. *)
Lemma untouched_run_from_start (es : list ContactEntry) (msg : string)
    (os : list StepResult) :
  es <> [] ->
  length os = length es ->
  let f := run (executeDomCampaign es msg) (Settled StepOk :: untouched os) in
  point f = Ended
  /\ opened f = seq 0 (length es)
  /\ results f = combine (seq 0 (length es)) os
  /\ statusLine f = LineCompleted (length es)
  /\ cursor (campRun f) = length es
  /\ stored f = None.
Proof.
  intros Hes Hlen. cbv zeta.
  change (run (executeDomCampaign es msg) (Settled StepOk :: untouched os))
    with (run (step (executeDomCampaign es msg) (Settled StepOk)) (untouched os)).
  assert (Hstart : step (executeDomCampaign es msg) (Settled StepOk)
                   = enterContact 0 (executeDomCampaign es msg)).
  { unfold executeDomCampaign. unfold_runner.
    destruct es as [|e es']; [congruence|]. cbn [length Nat.ltb Nat.leb negb].
    unfold_runner. reflexivity. }
  rewrite Hstart.
  destruct (untouched_from_contact os (enterContact 0 (executeDomCampaign es msg)) 0)
    as (F1 & F2 & F3 & F4 & F5 & _ & F7); try reflexivity.
  - intros ->. destruct es; [congruence | discriminate].
  - cbn [entries enterContact executeDomCampaign]. lia.
  - cbv zeta in *.
    cbn [entries opened results enterContact executeDomCampaign app] in F2, F3, F4, F5.
    rewrite Hlen in F2, F3.
    split; [exact F1|]. split.
    { rewrite F2. destruct es as [|e es']; [congruence|].
      cbn [length seq Nat.sub]. rewrite Nat.sub_0_r. reflexivity. }
    split; [exact F3|]. split; [exact F4|]. split; [exact F5 | exact F7].
Qed.

(** C1. With contact [i] in hand, however its [try] block ends, the error
    is caught: the cursor becomes [i + 1], [{entries, message, cursor,
    status}] is saved, and the run goes on.  When another contact follows and
    the run is not stopped, the runner comes to contact [i + 1], opening it
    at once unless the run is paused; and in a run nobody pauses or stops,
    whatever the outcomes [res :: rest] of the contacts from [i] on, every
    one of them is opened and the run ends as completed. *)
Theorem contact_failure_never_ends_the_run
    (r : Runner) (i : nat) (res : StepResult) (rest : list StepResult) :
  point r = AwaitContact i ->
  i + S (length rest) = length (entries r) ->
  (let r1 := step r (Settled res) in
   point r1 = AwaitSave i
   /\ cursor (campRun r1) = i + 1
   /\ stored r1 = Some (mkCampaignState (entries r) (message r) (i + 1)
                          (if abort (campRun r) then StatusAborted else StatusRunning))
   /\ results r1 = results r ++ [(i, res)]
   /\ running (campRun r1) = running (campRun r))
  /\ (rest <> [] -> abort (campRun r) = false ->
      let r3 := run r [Settled res; Settled StepOk; Settled StepOk] in
      point r3 = (if paused (campRun r) then AwaitPaused (S i) else AwaitContact (S i))
      /\ opened r3 = (if paused (campRun r) then opened r else opened r ++ [S i]))
  /\ (abort (campRun r) = false -> paused (campRun r) = false ->
      let f := run r (untouched (res :: rest)) in
      point f = Ended
      /\ opened f = opened r ++ seq (S i) (length rest)
      /\ results f = results r ++ combine (seq i (S (length rest))) (res :: rest)
      /\ statusLine f = LineCompleted (length (entries r))
      /\ cursor (campRun f) = length (entries r)).
Proof.
  intros Hpt Hlen.
  destruct (endContact_facts r i res Hpt)
    as (H1 & H2 & H3 & H4 & H5 & H6 & H7 & H8 & H9).
  cbv zeta in *. split; [|split].
  - repeat split; assumption.
  - intros Hrest Hab.
    change (run r [Settled res; Settled StepOk; Settled StepOk])
      with (run (step r (Settled res)) [Settled StepOk; Settled StepOk]).
    destruct (next_contact_facts (step r (Settled res)) i StepOk StepOk H1)
      as (N1 & N2 & _ & _).
    + rewrite H6. destruct rest; [congruence | cbn [length] in Hlen; lia].
    + congruence.
    + cbv zeta in *. rewrite H8, H5 in *. split; assumption.
  - intros Hab Hpa.
    destruct (untouched_from_contact (res :: rest) r i Hpt Hab Hpa)
      as (F1 & F2 & F3 & F4 & F5 & _ & _); [discriminate | exact Hlen |].
    cbv zeta in *. cbn [length] in F2, F3.
    replace (S (length rest) - 1) with (length rest) in F2 by lia.
    repeat split; assumption.
Qed.

Lemma contact_failure_never_ends_the_run_witness :
  let es := [mkEntry "+5511999990001" "Ana"; mkEntry "+5511999990002" "";
             mkEntry "+5511999990003" "Bia"] in
  let r := step (executeDomCampaign es "oi") (Settled StepOk) in
  let f := run r (untouched [StepOk; StepThrew "Nenhum resultado na busca."; StepOk]) in
  point r = AwaitContact 0
  /\ opened f = [0; 1; 2]
  /\ statusLine f = LineCompleted 3.
Proof.
  intros es r f.
  destruct (contact_failure_never_ends_the_run r 0 StepOk
              [StepThrew "Nenhum resultado na busca."; StepOk])
    as (_ & _ & H); [reflexivity | reflexivity |].
  destruct H as (_ & H2 & _ & H4 & _); [reflexivity | reflexivity |].
  split; [reflexivity|]. split; [exact H2 | exact H4].
Defined.





(** ** The paths that start a run *)

(** The start button refuses while the panel's run is under way: whatever
    the form holds, no modal is shown, no run is added, and the run in
    progress is left as it is. *)
Lemma campStartBtn_click_while_running (f : StartForm) (w : World) :
  running (campRun (ui w)) = true ->
  let w' := campStartBtn_click f w in
  (exists e, statusLine (ui w') = LineError e)
  /\ modalVisible w' = modalVisible w
  /\ directRuns w' = directRuns w
  /\ campRun (ui w') = campRun (ui w)
  /\ point (ui w') = point (ui w)
  /\ opened (ui w') = opened (ui w).
Proof.
  intros Hrun. unfold campStartBtn_click. rewrite Hrun.
  destruct (parseCampaignLines (campNumbers f)).
  - cbn. repeat split. eexists; reflexivity.
  - destruct (Js.isEmpty (Js.trim (safeText (campMsg f))) && negb (hasMedia f));
      cbn; repeat split; eexists; reflexivity.
Qed.

(** On the panel's own path the preview modal never shows while a run is
    under way, so the confirm button cannot start a second run. *)
Lemma modal_hidden_while_running (evs : list WorldEvent) :
  forall w : World,
    (modalVisible w = true -> running (campRun (ui w)) = false) ->
    modalVisible (worldRun w evs) = true ->
    running (campRun (ui (worldRun w evs))) = false.
Proof.
  induction evs as [|e evs IH]; intros w Hinv; [exact Hinv|].
  change (worldRun w (e :: evs)) with (worldRun (worldStep w e) evs).
  apply IH. clear IH evs.
  destruct w as [r modal mnt ds]. cbn [modalVisible ui] in Hinv.
  destruct e as [f|f|ev|m|k]; cbn [worldStep].
  - unfold campStartBtn_click. cbn [ui modalVisible mounted directRuns].
    destruct (parseCampaignLines (campNumbers f)); [cbn; exact Hinv|].
    destruct (Js.isEmpty (Js.trim (safeText (campMsg f))) && negb (hasMedia f));
      [cbn; exact Hinv|].
    destruct (running (campRun r)) eqn:Hr; [cbn; rewrite Hr; exact Hinv|].
    destruct (scheduleLater f); cbn; intros _; exact Hr.
  - unfold previewConfirmBtn_click. cbn [modalVisible].
    destruct modal; cbn; [discriminate | exact Hinv].
  - cbn [setUi modalVisible ui]. intros Hm. specialize (Hinv Hm).
    destruct r as [[rn pa ab cu tot] es msg pt st sl op rs].
    cbn [campRun running] in Hinv. subst rn.
    destruct ev as [res| |]; [|reflexivity|reflexivity].
    cbn [step]. unfold resume. cbn [point].
    destruct pt; split_ifs; reflexivity.
  - destruct m as [[es|] msg | [ms|] msg]; cbn [onMessage]; try exact Hinv.
    + destruct mnt; exact Hinv.
    + destruct (Js.isEmpty msg); exact Hinv.
  - exact Hinv.
Qed.

(** Neither message of the background script looks at [campRun]: a valid
    one always adds a run, which has its first contact in hand at once. *)
Lemma onMessage_never_refuses (w : World) (e : ContactEntry)
    (es : list ContactEntry) (m : Member) (ms : list Member) (msg : string) :
  mounted w = true -> Js.isEmpty msg = false ->
  runsUnderWay (onMessage (EXECUTE_SCHEDULED_CAMPAIGN (Some (e :: es)) msg) w)
    = S (runsUnderWay w)
  /\ contactsInHand (onMessage (EXECUTE_SCHEDULED_CAMPAIGN (Some (e :: es)) msg) w)
    = S (contactsInHand w)
  /\ runsUnderWay (onMessage (SEND_TEAM_MESSAGES (Some (m :: ms)) msg) w)
    = S (runsUnderWay w)
  /\ contactsInHand (onMessage (SEND_TEAM_MESSAGES (Some (m :: ms)) msg) w)
    = S (contactsInHand w).
Proof.
  intros Hm Hmsg. unfold runsUnderWay, contactsInHand, onMessage.
  rewrite Hm, Hmsg. cbn [ui directRuns].
  rewrite !filter_app, !length_app. cbn. repeat split; lia.
Qed.

(** C2, at the failing input.  The panel's run has its first contact in
    hand when the background script sends [EXECUTE_SCHEDULED_CAMPAIGN], or
    [SEND_TEAM_MESSAGES]: the start button refuses a second run, but the
    message starts one, and two runs have a contact in hand at once. *)
Theorem scheduled_campaign_starts_during_a_run :
  let form := mkForm "+5511999990001,Ana" "oi" false false in
  let busy := worldRun mountedWorld
                [StartClicked form; ConfirmClicked form; OnRunner (Settled StepOk)] in
  let again := worldStep busy (StartClicked form) in
  let scheduled :=
    worldStep busy
      (Received (EXECUTE_SCHEDULED_CAMPAIGN (Some [mkEntry "+5511999990002" "Bia"]) "oi")) in
  let team :=
    worldStep busy
      (Received (SEND_TEAM_MESSAGES (Some [mkMember "Bia" "11999990002"]) "oi")) in
  (running (campRun (ui busy)) = true /\ point (ui busy) = AwaitContact 0)
  /\ (statusLine (ui again) = LineError AlreadyRunning
      /\ runsUnderWay again = 1 /\ modalVisible again = false)
  /\ (runsUnderWay scheduled = 2 /\ contactsInHand scheduled = 2
      /\ map direct_opened (directRuns scheduled) = [[0]])
  /\ (runsUnderWay team = 2 /\ contactsInHand team = 2
      /\ map direct_entries (directRuns team) = [[mkEntry "+5511999990002" "Bia"]]).
Proof. cbv zeta. repeat split. Qed.

(** ** Examples *)

Example parse_two_lines :
  parseCampaignLines ("+5511999990001,Ana" ++ String Js.LF "+5511999990002")
  = [mkEntry "+5511999990001" "Ana"; mkEntry "+5511999990002" ""].
Proof. reflexivity. Qed.

Example parse_last_line_wins :
  parseCampaignLines
    ("5511 9999-0001, Ana" ++ String Js.CR (String Js.LF "+55 11 0000 0002 ,Bia,x")
       ++ String Js.LF "(55)1199990001,Carla")
  = [mkEntry "+551199990001" "Carla"; mkEntry "+551100000002" "Bia"].
Proof. reflexivity. Qed.

Example normalize_samples :
  normalizePhoneNumber "(11) 99999-0001" = "+5511999990001"%string
  /\ normalizePhoneNumber "5511999990001" = "+5511999990001"%string
  /\ normalizePhoneNumber "+1 202 555 0100" = "+12025550100"%string
  /\ normalizePhoneNumber "" = "+55"%string.
Proof. repeat split. Qed.

Example stop_while_paused :
  let es := [mkEntry "+5511999990001" "Ana"; mkEntry "+5511999990002" ""] in
  let r := run (executeDomCampaign es "oi")
               [Settled StepOk; ClickPause; Settled (StepThrew "Mensagem vazia.");
                Settled StepOk; Settled StepOk; Settled StepOk; ClickStop;
                Settled StepOk; Settled StepOk] in
  point r = Ended /\ opened r = [0] /\ statusLine r = LineInterrupted
  /\ cursor (campRun r) = 1 /\ stored r = None.
Proof. repeat split. Qed.

Example wrong_title_waits_for_the_threshold :
  validateChatOpen (fun _ => mkChatDom true "+1 202 777 7777") "5511999990001"
  = mkPolled (Returned 16) 17 5100%Z.
Proof. reflexivity. Qed.

(* ================================================================= *)
(** * Further properties of the content script *)

(** ** [uniq] and [csvEscape] *)

Lemma has_iff (x : string) (s : list string) : JsSet.has x s = true <-> In x s.
Proof.
  unfold JsSet.has. rewrite existsb_exists. split.
  - intros (y & Hy & E). apply String.eqb_eq in E. subst. exact Hy.
  - intros H. exists x. split; [exact H | apply String.eqb_refl].
Qed.

Lemma in_add (x y : string) (s : list string) :
  In y (JsSet.add x s) <-> y = x \/ In y s.
Proof.
  unfold JsSet.add. destruct (JsSet.has x s) eqn:H.
  - apply has_iff in H. split; [intros Hy; right; exact Hy|].
    intros [-> | Hy]; assumption.
  - rewrite in_app_iff. simpl. intuition.
Qed.

Lemma NoDup_add (x : string) (s : list string) :
  NoDup s -> NoDup (JsSet.add x s).
Proof.
  intros Hs. unfold JsSet.add. destruct (JsSet.has x s) eqn:H; [exact Hs|].
  apply NoDup_app; [exact Hs | constructor; [intros [] | constructor] |].
  intros a Ha [<- | []]. apply has_iff in Ha. congruence.
Qed.

Lemma addAll_facts (arr : list string) :
  forall acc : list string,
    (NoDup acc -> NoDup (fold_left (fun s x => JsSet.add x s) arr acc))
    /\ (forall y, In y (fold_left (fun s x => JsSet.add x s) arr acc)
                  <-> In y acc \/ In y arr).
Proof.
  induction arr as [|x arr IH]; intros acc; simpl.
  - split; [tauto | intros y; tauto].
  - destruct (IH (JsSet.add x acc)) as [Hnd Hin]. split.
    + intros Hacc. apply Hnd, NoDup_add, Hacc.
    + intros y. rewrite Hin, in_add. intuition.
Qed.

Lemma filter_all (f : string -> bool) (l : list string) :
  (forall y, In y l -> f y = true) -> filter f l = l.
Proof.
  induction l as [|a l IH]; simpl; intros H; [reflexivity|].
  rewrite (H a) by (left; reflexivity). f_equal. apply IH.
  intros y Hy. apply H. right. exact Hy.
Qed.

Lemma filter_twice (f g : string -> bool) (l : list string) :
  filter f (filter g l) = filter (fun y => g y && f y) l.
Proof.
  induction l as [|a l IH]; simpl; [reflexivity|].
  destruct (g a); simpl; [destruct (f a); rewrite IH; reflexivity | exact IH].
Qed.

(** Adding the elements of [arr] to a set [acc]: the members of [acc], then
    the first occurrences of the elements of [arr] that [acc] lacks. *)
Lemma addAll_order (arr : list string) :
  forall acc : list string,
    fold_left (fun s x => JsSet.add x s) arr acc
    = acc ++ filter (fun y => negb (JsSet.has y acc)) (JsSet.ofArray arr).
Proof.
  unfold JsSet.ofArray.
  induction arr as [|x arr IH]; intros acc; simpl.
  - rewrite app_nil_r. reflexivity.
  - change (JsSet.add x []) with [x].
    rewrite (IH [x]), (IH (JsSet.add x acc)).
    set (S := fold_left (fun s z => JsSet.add z s) arr []).
    unfold JsSet.add. destruct (JsSet.has x acc) eqn:Hx.
    + f_equal. cbn [app filter]. cbv beta. rewrite Hx. cbn [negb]. rewrite filter_twice.
      apply filter_ext. intros y.
      assert (Hone : JsSet.has y [x] = String.eqb y x)
        by (unfold JsSet.has; simpl; apply orb_false_r).
      rewrite Hone. destruct (String.eqb y x) eqn:E; cbn [negb andb]; [|reflexivity].
      apply String.eqb_eq in E. subst y. rewrite Hx. reflexivity.
    + rewrite <- app_assoc. f_equal. cbn [app filter]. cbv beta. rewrite Hx. cbn [negb].
      f_equal. rewrite filter_twice. apply filter_ext.
      intros y. unfold JsSet.has. rewrite existsb_app. simpl.
      rewrite !orb_false_r, negb_orb, andb_comm. reflexivity.
Qed.

Lemma ofArray_NoDup_fixed (l : list string) :
  NoDup l -> JsSet.ofArray l = l.
Proof.
  unfold JsSet.ofArray.
  assert (H : forall acc, NoDup (acc ++ l) ->
                fold_left (fun s x => JsSet.add x s) l acc = acc ++ l).
  { induction l as [|x l IH]; intros acc Hnd; simpl.
    - rewrite app_nil_r. reflexivity.
    - unfold JsSet.add. destruct (JsSet.has x acc) eqn:Hx.
      + apply has_iff in Hx. apply NoDup_remove_2 in Hnd.
        exfalso. apply Hnd. apply in_or_app. left. exact Hx.
      + rewrite IH; rewrite <- app_assoc; [reflexivity | exact Hnd]. }
  intros Hnd. apply (H []). exact Hnd.
Qed.

Lemma uniq_members (arr : list string) (x : string) :
  NoDup (uniq arr) /\ (In x (uniq arr) <-> In x arr /\ x <> EmptyString).
Proof.
  unfold uniq, JsSet.ofArray.
  set (keep := fun s : string => negb (Js.isEmpty s)).
  destruct (addAll_facts (filter keep arr) []) as [Hnd Hin].
  split; [apply Hnd; constructor|].
  rewrite Hin, filter_In. unfold keep. split.
  - intros [[] | [H1 H2]]. split; [exact H1|]. intros ->. discriminate H2.
  - intros [H1 H2]. right. split; [exact H1|].
    destruct x; [congruence | reflexivity].
Qed.

(** X1. [uniq] returns every non-empty string of the array once, in the
    order of first occurrence: its result has no repetition, holds exactly
    the non-empty members of the array, starts with the first non-empty
    element followed by the rest without it, and is left as it is by a second
    [uniq]. *)
Theorem uniq_first_occurrences (arr : list string) (x : string) :
  NoDup (uniq arr)
  /\ (In x (uniq arr) <-> In x arr /\ x <> EmptyString)
  /\ uniq (x :: arr)
     = (if Js.isEmpty x then uniq arr
        else x :: filter (fun y => negb (String.eqb y x)) (uniq arr))
  /\ uniq (uniq arr) = uniq arr.
Proof.
  destruct (uniq_members arr x) as [Hnd Hmem].
  split; [exact Hnd|]. split; [exact Hmem|].
  unfold uniq, JsSet.ofArray in *.
  set (keep := fun s : string => negb (Js.isEmpty s)) in *.
  split.
  - simpl filter. unfold keep at 1. destruct (Js.isEmpty x); simpl negb; [reflexivity|].
    simpl fold_left. unfold JsSet.add at 2. simpl.
    rewrite (addAll_order (filter keep arr) [x]). simpl. f_equal.
    apply filter_ext. intros y. unfold JsSet.has. simpl. rewrite orb_false_r.
    reflexivity.
  - fold (JsSet.ofArray (filter keep arr)).
    rewrite (filter_all keep).
    + apply (ofArray_NoDup_fixed (JsSet.ofArray (filter keep arr))). exact Hnd.
    + intros y Hy. apply (uniq_members arr y) in Hy. unfold keep.
      destruct y; [tauto | reflexivity].
Qed.

Lemma uniq_first_occurrences_witness :
  uniq ["+5511999990001"; ""; "+5511999990002"; "+5511999990001"]%string
  = ["+5511999990001"; "+5511999990002"]%string
  /\ In "+5511999990002"%string
        (uniq ["+5511999990001"; ""; "+5511999990002"; "+5511999990001"]%string).
Proof.
  split; [reflexivity|].
  apply (uniq_first_occurrences
           ["+5511999990001"; ""; "+5511999990002"; "+5511999990001"]%string
           "+5511999990002"%string).
  split; [cbn; tauto | discriminate].
Defined.

Lemma doubleQuotes_closed_injective (a : string) :
  forall b : string,
    (doubleQuotes a ++ String dquote EmptyString
     = doubleQuotes b ++ String dquote EmptyString)%string ->
    a = b.
Proof.
  induction a as [|c r IH]; intros [|d r'] H; cbn [doubleQuotes append] in H.
  - reflexivity.
  - exfalso. destruct (Ascii.eqb d dquote) eqn:Ed; cbn [append] in H.
    + congruence.
    + injection H; intros; subst d. rewrite Ascii.eqb_refl in Ed. discriminate.
  - exfalso. destruct (Ascii.eqb c dquote) eqn:Ec; cbn [append] in H.
    + congruence.
    + injection H; intros; subst c. rewrite Ascii.eqb_refl in Ec. discriminate.
  - destruct (Ascii.eqb c dquote) eqn:Ec; destruct (Ascii.eqb d dquote) eqn:Ed;
      cbn [append] in H.
    + apply Ascii.eqb_eq in Ec, Ed. subst c d.
      f_equal. apply IH. congruence.
    + exfalso. injection H; intros; subst d.
      rewrite Ascii.eqb_refl in Ed. discriminate.
    + exfalso. injection H; intros; subst c.
      rewrite Ascii.eqb_refl in Ec. discriminate.
    + injection H; intros; subst. f_equal. apply IH. assumption.
Qed.

(** X2. [csvEscape] never writes two different values as the same field,
    and a value with no double quote, comma or line feed is written as it
    is. *)
Theorem csvEscape_injective (a b : string) :
  csvEscape a = csvEscape b ->
  a = b /\ (hasCsvSpecial a = false -> csvEscape a = a).
Proof.
  unfold csvEscape, safeText. intros H. split.
  - destruct (hasCsvSpecial a) eqn:Ha; destruct (hasCsvSpecial b) eqn:Hb.
    + injection H as H. apply doubleQuotes_closed_injective. exact H.
    + subst b. cbn in Hb. discriminate.
    + subst a. cbn in Ha. discriminate.
    + exact H.
  - intros ->. reflexivity.
Qed.

Lemma csvEscape_injective_witness :
  csvEscape "a,b" = String dquote ("a,b" ++ String dquote EmptyString)
  /\ ("a,b" = "a,b")%string.
Proof.
  split; [reflexivity|].
  apply (csvEscape_injective "a,b" "a,b"). reflexivity.
Defined.

(** ** [SmartCache] *)

Section CacheFacts.

Variable V : Type.
Implicit Types (m : JsMap.t V) (k : string).

Lemma get_none_iff k m : JsMap.get k m = None <-> ~ In k (JsMap.keys m).
Proof.
  unfold JsMap.keys. induction m as [|[k0 v0] r IH]; simpl; [tauto|].
  destruct (String.eqb k0 k) eqn:E.
  - apply String.eqb_eq in E. split; [discriminate | intros H; exfalso; tauto].
  - rewrite IH. split; [|tauto]. intros H [H1 | H1]; [|tauto].
    subst k0. rewrite String.eqb_refl in E. discriminate.
Qed.

Lemma get_mapDelete_same k m :
  NoDup (JsMap.keys m) -> JsMap.get k (mapDelete k m) = None.
Proof.
  unfold JsMap.keys. induction m as [|[k0 v0] r IH]; simpl; intros Hnd; [reflexivity|].
  inversion Hnd as [|? ? Hnotin Hr]; subst.
  destruct (String.eqb k0 k) eqn:E; simpl.
  - apply String.eqb_eq in E. subst k0. apply get_none_iff. exact Hnotin.
  - rewrite E. apply IH. exact Hr.
Qed.

Lemma get_mapDelete_other k k' m :
  k <> k' -> JsMap.get k' (mapDelete k m) = JsMap.get k' m.
Proof.
  intros Hne. induction m as [|[k0 v0] r IH]; simpl; [reflexivity|].
  destruct (String.eqb k0 k) eqn:E; simpl.
  - apply String.eqb_eq in E. subst k0.
    destruct (String.eqb k k') eqn:E'; [|reflexivity].
    apply String.eqb_eq in E'. contradiction.
  - rewrite IH. reflexivity.
Qed.

Lemma get_filter (p : string * V -> bool) k m :
  NoDup (JsMap.keys m) ->
  JsMap.get k (filter p m)
  = match JsMap.get k m with
    | Some v => if p (k, v) then Some v else None
    | None => None
    end.
Proof.
  unfold JsMap.keys. induction m as [|[k0 v0] r IH]; simpl; intros Hnd; [reflexivity|].
  inversion Hnd as [|? ? Hnotin Hr]; subst.
  destruct (String.eqb k0 k) eqn:E.
  - apply String.eqb_eq in E. subst k0.
    destruct (p (k, v0)) eqn:Hp; simpl.
    + rewrite String.eqb_refl. reflexivity.
    + rewrite (IH Hr).
      assert (Hn : JsMap.get k r = None) by (apply get_none_iff; exact Hnotin).
      rewrite Hn. reflexivity.
  - destruct (p (k0, v0)); simpl; [rewrite E|]; apply IH; exact Hr.
Qed.

End CacheFacts.

Arguments get_none_iff {V} k m.
Arguments get_mapDelete_same {V} k m _.
Arguments get_mapDelete_other {V} k k' m _.
Arguments get_filter {V} p k m _.

(** The expiry instant [set] gives an item. *)
Lemma set_installs (V : Type) (now : Z) (k : string) (v : V) (ttl : option Z)
    (c : SmartCache.t V) :
  JsMap.get k (SmartCache.cache (SmartCache.set now k v ttl c))
  = Some (SmartCache.mkItem v
            (now + match ttl with Some d => d | None => SmartCache.defaultTTL c end)%Z).
Proof. unfold SmartCache.set. cbn. apply get_set_same. Qed.

Lemma smartCache_set_get (V : Type) (now t : Z) (k : string) (v : V)
    (c : SmartCache.t V) :
  (t <= now + 5000)%Z ->
  SmartCache.get t k (SmartCache.set now k v (Some 5000%Z) c)
  = (Some v, SmartCache.set now k v (Some 5000%Z) c).
Proof.
  intros Ht. unfold SmartCache.get. rewrite set_installs.
  cbn [SmartCache.expiresAt SmartCache.value].
  destruct (Z.ltb_spec (now + 5000) t); [lia | reflexivity].
Qed.

(** X3. A value put in a [SmartCache] is returned by [get] up to and
    including the instant [now + ttl] (the default TTL when none is given),
    the cache being left as it is; and putting it changes the answer for no
    other key. *)
Theorem smartCache_hit_within_ttl (V : Type) (now t : Z) (k k' : string) (v : V)
    (ttl : option Z) (c : SmartCache.t V) :
  (t <= now + match ttl with Some d => d | None => SmartCache.defaultTTL c end)%Z ->
  k' <> k ->
  SmartCache.get t k (SmartCache.set now k v ttl c)
  = (Some v, SmartCache.set now k v ttl c)
  /\ fst (SmartCache.get t k' (SmartCache.set now k v ttl c))
     = fst (SmartCache.get t k' c).
Proof.
  intros Ht Hne. split.
  - unfold SmartCache.get. rewrite set_installs. cbn [SmartCache.expiresAt SmartCache.value].
    destruct (Z.ltb_spec (now + match ttl with Some d => d | None => SmartCache.defaultTTL c end) t);
      [lia | reflexivity].
  - unfold SmartCache.get, SmartCache.set. cbn [SmartCache.cache SmartCache.defaultTTL].
    rewrite get_set_other by (intros E; apply Hne; symmetry; exact E).
    destruct (JsMap.get k' (SmartCache.cache c)) as [item|]; [|reflexivity].
    destruct (SmartCache.expiresAt item <? t)%Z; reflexivity.
Qed.

Lemma smartCache_hit_within_ttl_witness :
  let c := SmartCache.set 1000 "settings" 7 (Some 5000%Z) (SmartCache.mkCache [] 60000%Z) in
  SmartCache.get 6000 "settings" c = (Some 7, c).
Proof.
  intros c.
  apply (smartCache_hit_within_ttl nat 1000 6000 "settings" "other" 7 (Some 5000%Z)
           (SmartCache.mkCache [] 60000%Z)); [cbn; lia | discriminate].
Defined.

(** X4. After the instant [now + ttl], [get] answers null for the value and
    removes its key, so that the key is absent from the cache it leaves
    while every other key keeps its item. *)
Theorem smartCache_expired_entry_is_removed (V : Type) (now t : Z) (k k' : string)
    (v : V) (ttl : option Z) (c : SmartCache.t V) :
  NoDup (JsMap.keys (SmartCache.cache c)) ->
  (now + match ttl with Some d => d | None => SmartCache.defaultTTL c end < t)%Z ->
  k' <> k ->
  let r := SmartCache.get t k (SmartCache.set now k v ttl c) in
  fst r = None
  /\ JsMap.get k (SmartCache.cache (snd r)) = None
  /\ JsMap.get k' (SmartCache.cache (snd r)) = JsMap.get k' (SmartCache.cache c).
Proof.
  intros Hnd Ht Hne r. subst r. unfold SmartCache.get. rewrite set_installs.
  cbn [SmartCache.expiresAt SmartCache.value].
  destruct (Z.ltb_spec (now + match ttl with Some d => d | None => SmartCache.defaultTTL c end) t);
    [|lia].
  cbn [fst snd SmartCache.cache SmartCache.set]. split; [reflexivity|]. split.
  - apply get_mapDelete_same. apply NoDup_keys_set. exact Hnd.
  - rewrite get_mapDelete_other by (intros E; apply Hne; symmetry; exact E).
    apply get_set_other. intros E; apply Hne; symmetry; exact E.
Qed.

Lemma smartCache_expired_entry_is_removed_witness :
  let c := SmartCache.set 1000 "settings" 7 (Some 5000%Z) (SmartCache.mkCache [] 60000%Z) in
  SmartCache.get 6001 "settings" c = (None, SmartCache.mkCache [] 60000%Z).
Proof.
  intros c.
  destruct (smartCache_expired_entry_is_removed nat 1000 6001 "settings" "other" 7
              (Some 5000%Z) (SmartCache.mkCache [] 60000%Z)) as (H & _);
    [constructor | cbn; lia | discriminate |].
  reflexivity.
Defined.

(** X5. [cleanup] removes the items whose expiry instant is before [now]
    and no other, and it is invisible to readers: from [now] on, [get]
    answers the same for every key on the cleaned cache as on the cache
    before. *)
Theorem smartCache_cleanup_is_invisible (V : Type) (now t : Z) (k : string)
    (c : SmartCache.t V) :
  NoDup (JsMap.keys (SmartCache.cache c)) ->
  (now <= t)%Z ->
  fst (SmartCache.get t k (SmartCache.cleanup now c)) = fst (SmartCache.get t k c)
  /\ Forall (fun kv => (now <= SmartCache.expiresAt (snd kv))%Z)
            (SmartCache.cache (SmartCache.cleanup now c))
  /\ (forall kv, In kv (SmartCache.cache c) ->
                 (now <= SmartCache.expiresAt (snd kv))%Z ->
                 In kv (SmartCache.cache (SmartCache.cleanup now c))).
Proof.
  intros Hnd Ht. unfold SmartCache.cleanup, SmartCache.get.
  cbn [SmartCache.cache SmartCache.defaultTTL]. split; [|split].
  - rewrite get_filter by exact Hnd. cbn [snd].
    destruct (JsMap.get k (SmartCache.cache c)) as [item|]; [|reflexivity].
    destruct (Z.ltb_spec (SmartCache.expiresAt item) now); cbn [negb].
    + destruct (Z.ltb_spec (SmartCache.expiresAt item) t); [reflexivity | lia].
    + destruct (SmartCache.expiresAt item <? t)%Z; reflexivity.
  - apply Forall_forall. intros kv Hin. apply filter_In in Hin.
    destruct Hin as [_ Hp]. apply negb_true_iff in Hp. apply Z.ltb_ge in Hp. exact Hp.
  - intros kv Hin Hle. apply filter_In. split; [exact Hin|].
    apply negb_true_iff. apply Z.ltb_ge. exact Hle.
Qed.

Lemma smartCache_cleanup_is_invisible_witness :
  let c := SmartCache.set 2000 "b" 2 None
             (SmartCache.set 1000 "a" 1 (Some 500%Z) (SmartCache.mkCache [] 60000%Z)) in
  SmartCache.cache (SmartCache.cleanup 3000 c) = [("b"%string, SmartCache.mkItem 2 62000%Z)]
  /\ fst (SmartCache.get 4000 "b" (SmartCache.cleanup 3000 c)) = fst (SmartCache.get 4000 "b" c).
Proof.
  intros c. split; [reflexivity|].
  apply (smartCache_cleanup_is_invisible nat 3000 4000 "b" c); [|lia].
  cbn. repeat constructor; simpl; intuition discriminate.
Defined.

(** X6. Once [getSettingsCached] has asked the background script and stored
    the answer at [tSet], every call made up to [tSet + 5000] returns the
    same settings without asking again, and leaves the cache as it is. *)
Theorem getSettingsCached_asks_once (S : Type) (noSettings : S)
    (tGet tSet tGet' tSet' : Z) (resp resp' : option S) (c : SmartCache.t S) :
  snd (fst (getSettingsCached noSettings tGet tSet resp c)) = true ->
  (tGet' <= tSet + 5000)%Z ->
  let first := getSettingsCached noSettings tGet tSet resp c in
  getSettingsCached noSettings tGet' tSet' resp' (snd first)
  = (fst (fst first), false, snd first).
Proof.
  intros Hasked Hin first. subst first.
  remember (getSettingsCached noSettings tGet tSet resp c) as f eqn:Hf.
  unfold getSettingsCached in Hf.
  destruct (SmartCache.get tGet "settings" c) as [[cached|] c']; subst f;
    cbn [fst snd] in *; [discriminate|].
  unfold getSettingsCached.
  rewrite (smartCache_set_get S tSet tGet' "settings"
             (match resp with Some s => s | None => noSettings end) c' Hin).
  reflexivity.
Qed.

Lemma getSettingsCached_asks_once_witness :
  let empty := SmartCache.mkCache (V := nat) [] 60000%Z in
  let first := getSettingsCached 0 1000 1200 (Some 7) empty in
  getSettingsCached 0 6200 6300 (Some 9) (snd first) = (7, false, snd first).
Proof.
  intros empty first.
  apply (getSettingsCached_asks_once nat 0 1000 1200 6200 6300 (Some 7) (Some 9) empty);
    [reflexivity | lia].
Defined.

(** ** DOM look-ups *)

Section LookUps.

Variable doc : Document.

Lemma includesElement_iff (res : list Element) (el : Element) :
  includesElement res el = true <-> In el res.
Proof.
  unfold includesElement. rewrite existsb_exists. split.
  - intros (y & Hy & E). apply Nat.eqb_eq in E. subst. exact Hy.
  - intros H. exists el. split; [exact H | apply Nat.eqb_refl].
Qed.

Lemma pushNew_facts (els : list Element) :
  forall res : list Element,
    (exists more, pushNew doc res els = res ++ more)
    /\ (NoDup res -> NoDup (pushNew doc res els))
    /\ (forall el, In el (pushNew doc res els)
                   <-> In el res \/ (In el els /\ isConnected doc el = true)).
Proof.
  unfold pushNew. induction els as [|x els IH]; intros res; cbn [fold_left].
  - split; [exists []; rewrite app_nil_r; reflexivity|].
    split; [tauto|]. intros el. simpl. tauto.
  - set (res' := if isConnected doc x && negb (includesElement res x)
                 then res ++ [x] else res).
    destruct (IH res') as ((more & Hmore) & Hnd & Hin).
    assert (Hres' : (exists one, res' = res ++ one)
                    /\ (NoDup res -> NoDup res')
                    /\ (forall el, In el res' <->
                                   In el res \/ (el = x /\ isConnected doc x = true))).
    { subst res'. destruct (isConnected doc x) eqn:Hc; cbn [andb].
      - destruct (includesElement res x) eqn:Hi; cbn [negb].
        + apply includesElement_iff in Hi. split; [exists []; rewrite app_nil_r; reflexivity|].
          split; [tauto|]. intros el. split; [tauto|].
          intros [H | [-> _]]; assumption.
        + split; [exists [x]; reflexivity|]. split.
          * intros Hr. apply NoDup_app; [exact Hr | constructor; [intros [] | constructor] |].
            intros a Ha [<- | []]. apply includesElement_iff in Ha. congruence.
          * intros el. rewrite in_app_iff. simpl. intuition.
      - split; [exists []; rewrite app_nil_r; reflexivity|].
        split; [tauto|]. intros el. split; [tauto|].
        intros [H | [_ H]]; [exact H | discriminate]. }
    destruct Hres' as ((one & Hone) & Hnd' & Hin').
    split; [exists (one ++ more); rewrite Hmore, Hone, app_assoc; reflexivity|].
    split; [intros Hr; apply Hnd, Hnd', Hr|].
    intros el. rewrite Hin, Hin'. simpl. split.
    + intros [[H | [-> H]] | [H1 H2]]; [tauto | right; tauto | right; tauto].
    + intros [H | [[<- | H1] H2]]; [tauto | left; right; tauto | right; tauto].
Qed.

Lemma querySelectorAllFrom_facts (sels : list string) :
  forall res : list Element,
    (exists more, querySelectorAllFrom doc sels res = res ++ more)
    /\ (NoDup res -> NoDup (querySelectorAllFrom doc sels res))
    /\ (forall el, In el (querySelectorAllFrom doc sels res)
                   <-> In el res
                       \/ (isConnected doc el = true
                           /\ exists sel els, In sel sels
                                              /\ matchesOf doc sel = Some els
                                              /\ In el els)).
Proof.
  induction sels as [|sel sels IH]; intros res; cbn [querySelectorAllFrom].
  - split; [exists []; rewrite app_nil_r; reflexivity|]. split; [tauto|].
    intros el. split; [tauto|]. intros [H | (_ & s & e & [] & _)]. exact H.
  - destruct (matchesOf doc sel) as [els|] eqn:Hm.
    + destruct (pushNew_facts els res) as ((one & Hone) & Hnd1 & Hin1).
      destruct (IH (pushNew doc res els)) as ((more & Hmore) & Hnd & Hin).
      split; [exists (one ++ more); rewrite Hmore, Hone, app_assoc; reflexivity|].
      split; [intros Hr; apply Hnd, Hnd1, Hr|].
      intros el. rewrite Hin, Hin1. split.
      * intros [[H | [H1 H2]] | (Hc & s & e & Hs & He & Hel)].
        -- left; exact H.
        -- right. split; [exact H2|]. exists sel, els. simpl. tauto.
        -- right. split; [exact Hc|]. exists s, e. simpl. tauto.
      * intros [H | (Hc & s & e & [<- | Hs] & He & Hel)].
        -- left; left; exact H.
        -- rewrite Hm in He. injection He as <-. left. right. tauto.
        -- right. split; [exact Hc|]. exists s, e. tauto.
    + destruct (IH res) as (Hpre & Hnd & Hin).
      split; [exact Hpre|]. split; [exact Hnd|].
      intros el. rewrite Hin. split.
      * intros [H | (Hc & s & e & Hs & He & Hel)]; [left; exact H|].
        right. split; [exact Hc|]. exists s, e. simpl. tauto.
      * intros [H | (Hc & s & e & [<- | Hs] & He & Hel)]; [left; exact H | congruence |].
        right. split; [exact Hc|]. exists s, e. tauto.
Qed.

Lemma querySelectorAll_connected (sels : list string) :
  filter (isConnected doc) (querySelectorAll doc sels) = querySelectorAll doc sels.
Proof.
  assert (H : forall el, In el (querySelectorAll doc sels) -> isConnected doc el = true).
  { intros el Hin. apply (proj2 (proj2 (querySelectorAllFrom_facts sels []))) in Hin.
    destruct Hin as [[] | [Hc _]]. exact Hc. }
  induction (querySelectorAll doc sels) as [|a l IH]; simpl; [reflexivity|].
  rewrite (H a) by (left; reflexivity). f_equal. apply IH.
  intros el Hel. apply H. right. exact Hel.
Qed.

Lemma in_querySelectorAll_iff (sels : list string) (el : Element) :
  In el (querySelectorAll doc sels)
  <-> isConnected doc el = true
      /\ exists sel els, In sel sels /\ matchesOf doc sel = Some els /\ In el els.
Proof.
  destruct (querySelectorAllFrom_facts sels []) as (_ & _ & Hin).
  unfold querySelectorAll. rewrite Hin. simpl. tauto.
Qed.

Lemma firstMatch_some (sel : string) (el : Element) :
  firstMatch doc sel = Some el ->
  exists els, matchesOf doc sel = Some (el :: els).
Proof.
  unfold firstMatch. destruct (matchesOf doc sel) as [[|x els]|]; try discriminate.
  intros H. injection H as ->. exists els. reflexivity.
Qed.

(** X7. [querySelectorAll] lists every connected element some selector
    matches, once, and nothing else; and what [querySelector] returns is one
    of them. *)
Theorem querySelectorAll_lists_each_match_once (sels : list string) (el : Element) :
  NoDup (querySelectorAll doc sels)
  /\ (In el (querySelectorAll doc sels)
      <-> isConnected doc el = true
          /\ exists sel els, In sel sels /\ matchesOf doc sel = Some els /\ In el els)
  /\ (querySelector doc sels = Some el -> In el (querySelectorAll doc sels)).
Proof.
  destruct (querySelectorAllFrom_facts sels []) as (_ & Hnd & Hin).
  split; [apply Hnd; constructor|].
  assert (Hmem : In el (querySelectorAll doc sels)
                 <-> isConnected doc el = true
                     /\ exists sel els, In sel sels /\ matchesOf doc sel = Some els /\ In el els).
  { unfold querySelectorAll. rewrite Hin. simpl. tauto. }
  split; [exact Hmem|].
  intros Hq. apply Hmem. clear Hmem Hin Hnd.
  induction sels as [|sel rest IH]; cbn [querySelector] in Hq; [discriminate|].
  destruct (firstMatch doc sel) as [x|] eqn:Hf.
  - destruct (isConnected doc x) eqn:Hc.
    + injection Hq as ->. apply firstMatch_some in Hf. destruct Hf as (els & Hels).
      split; [exact Hc|]. exists sel, (el :: els). simpl. tauto.
    + destruct (IH Hq) as (Hc' & s & e & Hs & He & Hel).
      split; [exact Hc'|]. exists s, e. simpl. tauto.
  - destruct (IH Hq) as (Hc' & s & e & Hs & He & Hel).
    split; [exact Hc'|]. exists s, e. simpl. tauto.
Qed.

Lemma querySelectorAllFrom_head (sels : list string) (x : Element) (res : list Element) :
  hd_error (querySelectorAllFrom doc sels (x :: res)) = Some x.
Proof.
  destruct (querySelectorAllFrom_facts sels (x :: res)) as ((more & ->) & _).
  reflexivity.
Qed.

(** X8. In a page where every element a selector matches is connected, as
    in a document, [querySelector] returns the first element of
    [querySelectorAll], and null exactly when [querySelectorAll] is empty. *)
Theorem querySelector_is_head_of_querySelectorAll (sels : list string) :
  (forall sel els x, matchesOf doc sel = Some els -> In x els -> isConnected doc x = true) ->
  querySelector doc sels = hd_error (querySelectorAll doc sels).
Proof.
  intros Hall. unfold querySelectorAll.
  induction sels as [|sel rest IH]; cbn [querySelector querySelectorAllFrom]; [reflexivity|].
  unfold firstMatch. destruct (matchesOf doc sel) as [[|x els]|] eqn:Hm.
  - exact IH.
  - rewrite (Hall sel (x :: els) x Hm) by (left; reflexivity).
    destruct (pushNew_facts els [x]) as ((more & Hmore) & _).
    unfold pushNew in *. cbn [fold_left].
    rewrite (Hall sel (x :: els) x Hm) by (left; reflexivity).
    cbn [includesElement existsb negb andb app]. rewrite Hmore.
    symmetry. apply querySelectorAllFrom_head.
  - exact IH.
Qed.

Lemma findElementIn_some (sels : list string) (el : Element) :
  findElementIn doc sels = Some el ->
  isRendered doc el = true /\ In el (querySelectorAll doc sels).
Proof.
  intros Hf.
  assert (H : isRendered doc el = true /\ isConnected doc el = true
              /\ exists sel els, In sel sels /\ matchesOf doc sel = Some els /\ In el els).
  { induction sels as [|sel rest IH]; cbn [findElementIn] in Hf; [discriminate|].
    destruct (firstMatch doc sel) as [x|] eqn:Hx.
    - destruct (isConnected doc x && isRendered doc x) eqn:Hcr.
      + injection Hf as ->. apply andb_prop in Hcr. destruct Hcr as [Hc Hr].
        apply firstMatch_some in Hx. destruct Hx as (els & Hels).
        split; [exact Hr|]. split; [exact Hc|]. exists sel, (el :: els). simpl. tauto.
      + destruct (IH Hf) as (Hr & Hc & s & e & Hs & He & Hel).
        split; [exact Hr|]. split; [exact Hc|]. exists s, e. simpl. tauto.
    - destruct (IH Hf) as (Hr & Hc & s & e & Hs & He & Hel).
      split; [exact Hr|]. split; [exact Hc|]. exists s, e. simpl. tauto. }
  destruct H as (Hr & Hc & Hex). split; [exact Hr|].
  apply (in_querySelectorAll_iff sels el). tauto.
Qed.

(** X9. [findComposer] returns null exactly when no connected element
    matches a composer selector; what it returns is one of the matches; and
    it returns a rendered one whenever some match is rendered. *)
Theorem findComposer_prefers_rendered (sels : list string) (c : Element) :
  (findComposer doc sels = None <-> querySelectorAll doc sels = [])
  /\ (forall el, findComposer doc sels = Some el -> In el (querySelectorAll doc sels))
  /\ (In c (querySelectorAll doc sels) -> isRendered doc c = true ->
      exists el, findComposer doc sels = Some el /\ isRendered doc el = true).
Proof.
  unfold findComposer, findElement. rewrite querySelectorAll_connected.
  destruct (findElementIn doc sels) as [el0|] eqn:Hf.
  - destruct (findElementIn_some sels el0 Hf) as [Hr Hin].
    split; [|split].
    + split; [discriminate|]. intros Hnil. rewrite Hnil in Hin. destruct Hin.
    + intros el H. injection H as <-. exact Hin.
    + intros _ _. exists el0. split; [reflexivity | exact Hr].
  - destruct (querySelectorAll doc sels) as [|first rest] eqn:Hq.
    + split; [tauto|]. split; [discriminate|]. intros [].
    + split; [|split].
      * destruct (find (isRendered doc) (first :: rest)); split; discriminate.
      * intros el H. destruct (find (isRendered doc) (first :: rest)) as [v|] eqn:Hv.
        -- injection H as <-. apply find_some in Hv. tauto.
        -- injection H as <-. left. reflexivity.
      * intros Hin Hr. destruct (find (isRendered doc) (first :: rest)) as [v|] eqn:Hv.
        -- exists v. apply find_some in Hv. tauto.
        -- exfalso. pose proof (find_none _ _ Hv c Hin) as Hn. congruence.
Qed.

End LookUps.

(** A page with two composers, the first of them not rendered, under the
    selectors "footer div" and "div". *)
Lemma querySelectorAll_lists_each_match_once_witness :
  let doc := mkDocument
               (fun sel => if String.eqb sel "footer div" then Some [3]
                           else if String.eqb sel "div" then Some [1; 3; 5]
                           else None)
               (fun _ => true) (fun el => Nat.eqb el 5) in
  querySelectorAll doc ["footer div"; "bad["; "div"]%string = [3; 1; 5]
  /\ In 3 (querySelectorAll doc ["footer div"; "bad["; "div"]%string).
Proof.
  intros doc. split; [reflexivity|].
  apply (querySelectorAll_lists_each_match_once doc
           ["footer div"; "bad["; "div"]%string 3). reflexivity.
Defined.

Lemma querySelector_is_head_of_querySelectorAll_witness :
  let doc := mkDocument
               (fun sel => if String.eqb sel "footer div" then Some [3]
                           else if String.eqb sel "div" then Some [1; 3; 5]
                           else None)
               (fun _ => true) (fun el => Nat.eqb el 5) in
  querySelector doc ["span"; "footer div"; "div"]%string = Some 3.
Proof.
  intros doc.
  rewrite (querySelector_is_head_of_querySelectorAll doc
             ["span"; "footer div"; "div"]%string); [reflexivity|].
  intros sel els x _ _. reflexivity.
Defined.

Lemma findComposer_prefers_rendered_witness :
  let doc := mkDocument
               (fun sel => if String.eqb sel "footer div" then Some [3]
                           else if String.eqb sel "div" then Some [1; 3; 5]
                           else None)
               (fun _ => true) (fun el => Nat.eqb el 5) in
  findComposer doc ["footer div"; "div"]%string = Some 5
  /\ exists el, findComposer doc ["footer div"; "div"]%string = Some el
                /\ isRendered doc el = true.
Proof.
  intros doc. split; [reflexivity|].
  apply (findComposer_prefers_rendered doc ["footer div"; "div"]%string 5).
  - cbn. tauto.
  - reflexivity.
Defined.

(** ** [parseNumbersFromText] *)

Lemma numberBody_not_plus (c : ascii) : isNumberBody c = true -> Js.isPlus c = false.
Proof.
  destruct c as [[] [] [] [] [] [] [] []]; vm_compute; congruence.
Qed.

Lemma digit_is_numberBody (c : ascii) : Js.isDigit c = true -> isNumberBody c = true.
Proof. unfold isNumberBody. intros ->. reflexivity. Qed.

Lemma isPlus_eq (c : ascii) : Js.isPlus c = true -> c = "+"%char.
Proof. unfold Js.isPlus. apply Ascii.eqb_eq. Qed.

Lemma bodyRun_all (s : string) : Js.allChars isNumberBody (bodyRun s) = true.
Proof.
  induction s as [|c r IH]; simpl; [reflexivity|].
  destruct (isNumberBody c) eqn:Hc; simpl; [rewrite Hc; exact IH | reflexivity].
Qed.

Lemma longestToDigit_all (f : ascii -> bool) (s : string) :
  forall p, Js.allChars f s = true -> longestToDigit s = Some p ->
            Js.allChars f p = true.
Proof.
  induction s as [|c r IH]; simpl; intros p Hall Hp; [discriminate|].
  apply andb_prop in Hall. destruct Hall as [Hc Hr].
  destruct (longestToDigit r) as [q|].
  - injection Hp as <-. simpl. rewrite Hc. apply IH; [exact Hr | reflexivity].
  - destruct (Js.isDigit c); [|discriminate]. injection Hp as <-. simpl.
    rewrite Hc. reflexivity.
Qed.

Lemma numberTail_all (s p : string) :
  numberTail s = Some p -> Js.allChars isNumberBody p = true.
Proof.
  unfold numberTail. destruct (longestToDigit (bodyRun s)) as [q|] eqn:Hq; [|discriminate].
  destruct (7 <=? String.length q); [|discriminate]. intros H. injection H as <-.
  apply (longestToDigit_all isNumberBody (bodyRun s)); [apply bodyRun_all | exact Hq].
Qed.

(** A match: a [+] or a digit, then characters of the class only. *)
Lemma matchNumberAt_shape (s m : string) :
  matchNumberAt s = Some m ->
  exists c rest, m = String c rest
                 /\ (Js.isPlus c = true \/ Js.isDigit c = true)
                 /\ Js.allChars isNumberBody rest = true.
Proof.
  unfold matchNumberAt. destruct s as [|c r]; [discriminate|].
  destruct (Js.isPlus c) eqn:Hp.
  - destruct r as [|d r2]; [discriminate|].
    destruct (Js.isDigit d) eqn:Hd; [|discriminate].
    destruct (numberTail r2) as [p|] eqn:Ht; [|discriminate].
    intros H. injection H as <-. exists c, (String d p).
    split; [reflexivity|]. split; [left; exact Hp|].
    simpl. rewrite (digit_is_numberBody d Hd). exact (numberTail_all r2 p Ht).
  - destruct (Js.isDigit c) eqn:Hd; [|discriminate].
    destruct (numberTail r) as [p|] eqn:Ht; [|discriminate].
    intros H. injection H as <-. exists c, p.
    split; [reflexivity|]. split; [right; exact Hd|]. exact (numberTail_all r p Ht).
Qed.

Lemma keepDigitsPlus_numberBody (s : string) :
  Js.allChars isNumberBody s = true -> Js.keepDigitsPlus s = Js.keepDigits s.
Proof.
  unfold Js.keepDigitsPlus, Js.keepDigits.
  induction s as [|c r IH]; simpl; intros H; [reflexivity|].
  apply andb_prop in H. destruct H as [Hc Hr].
  rewrite (numberBody_not_plus c Hc), orb_false_r, (IH Hr). reflexivity.
Qed.

Lemma digit_not_plus (c : ascii) : Js.isDigit c = true -> Js.isPlus c = false.
Proof. intros H. apply numberBody_not_plus, digit_is_numberBody, H. Qed.

Lemma plus_not_digit (c : ascii) : Js.isPlus c = true -> Js.isDigit c = false.
Proof.
  intros H. destruct (Js.isDigit c) eqn:Hd; [|reflexivity].
  apply digit_not_plus in Hd. congruence.
Qed.

Lemma keepDigits_digits (s : string) : Js.keepDigits (Js.keepDigits s) = Js.keepDigits s.
Proof. apply keepChars_idempotent. Qed.

Lemma numberOfMatch_shape (m n : string) (c : ascii) (rest : string) :
  m = String c rest ->
  (Js.isPlus c = true \/ Js.isDigit c = true) ->
  Js.allChars isNumberBody rest = true ->
  numberOfMatch m = Some n ->
  plusThenTenDigits n = true.
Proof.
  intros -> Hc Hrest. unfold numberOfMatch.
  assert (Hd : Js.allChars Js.isDigit (Js.keepDigits rest) = true)
    by apply allChars_keepChars.
  destruct Hc as [Hp | Hdig].
  - pose proof (isPlus_eq c Hp) as ->.
    change (Js.keepDigitsPlus (String "+" rest))
      with (String "+"%char (Js.keepDigitsPlus rest)).
    rewrite (keepDigitsPlus_numberBody rest Hrest).
    cbn [Js.isEmpty]. rewrite startsWith_plus_cons.
    change (Js.keepDigits (String "+" (Js.keepDigits rest)))
      with (Js.keepDigits (Js.keepDigits rest)).
    rewrite keepDigits_digits.
    destruct (String.length (Js.keepDigits rest) <? 10) eqn:Hlen; [discriminate|].
    intros H. injection H as <-. cbn [plusThenTenDigits].
    rewrite Hd. apply Nat.ltb_ge in Hlen. apply Nat.leb_le in Hlen.
    rewrite Hlen. reflexivity.
  - pose proof (digit_not_plus c Hdig) as Hnp.
    assert (Hk : Js.keepDigitsPlus (String c rest) = String c (Js.keepDigits rest)).
    { unfold Js.keepDigitsPlus. cbn [Js.keepChars]. rewrite Hdig. cbn [orb].
      f_equal. apply (keepDigitsPlus_numberBody rest Hrest). }
    rewrite Hk. cbn [Js.isEmpty].
    assert (Hs : Js.startsWith (String c (Js.keepDigits rest)) "+" = false).
    { unfold Js.startsWith. cbn [String.prefix].
      destruct (ascii_dec "+" c) as [<-|]; [discriminate Hnp | reflexivity]. }
    rewrite Hs.
    assert (Hkd : Js.keepDigits ("+" ++ String c (Js.keepDigits rest))
                  = String c (Js.keepDigits rest)).
    { change (Js.keepDigits ("+" ++ String c (Js.keepDigits rest)))
        with (Js.keepDigits (String c (Js.keepDigits rest))).
      unfold Js.keepDigits at 1. cbn [Js.keepChars]. rewrite Hdig. f_equal.
      apply keepDigits_digits. }
    rewrite Hkd.
    destruct (String.length (String c (Js.keepDigits rest)) <? 10) eqn:Hlen; [discriminate|].
    intros H. injection H as <-.
    cbn [plusThenTenDigits Js.allChars]. rewrite Hdig, Hd.
    apply Nat.ltb_ge in Hlen. apply Nat.leb_le in Hlen. rewrite Hlen. reflexivity.
Qed.

Lemma matchAllNumbers_shape (s : string) :
  forall skip m, In m (matchAllNumbers s skip) -> exists s', matchNumberAt s' = Some m.
Proof.
  induction s as [|c r IH]; intros skip m Hin; cbn [matchAllNumbers] in Hin; [destruct Hin|].
  destruct skip as [|k]; [|exact (IH k m Hin)].
  destruct (matchNumberAt (String c r)) as [m0|] eqn:Hm.
  - destruct Hin as [<- | Hin]; [exists (String c r); exact Hm | exact (IH _ m Hin)].
  - exact (IH 0 m Hin).
Qed.

Lemma plusThenTenDigits_optionalPlus (n : string) :
  plusThenTenDigits n = true -> digitsWithOptionalLeadingPlus n = true.
Proof.
  destruct n as [|c r]; [discriminate|]. cbn. intros H.
  apply andb_prop in H. destruct H as [H _]. apply andb_prop in H.
  destruct H as [Hp Hd]. rewrite Hp, Hd. reflexivity.
Qed.

Lemma parseNumbersFromText_clean (text n : string) :
  In n (parseNumbersFromText text) -> plusThenTenDigits n = true.
Proof.
  unfold parseNumbersFromText.
  pose proof (matchAllNumbers_shape (safeText text) 0) as Hms.
  revert n. induction (matchAllNumbers (safeText text) 0) as [|m ms IH];
    cbn [collectNumbers]; intros n Hin; [destruct Hin|].
  assert (IH' : forall n, In n (collectNumbers ms) -> plusThenTenDigits n = true).
  { apply IH. intros m' Hm'. apply Hms. right. exact Hm'. }
  destruct (numberOfMatch m) as [n0|] eqn:Hn; [|exact (IH' n Hin)].
  destruct Hin as [<- | Hin]; [|exact (IH' n Hin)].
  destruct (Hms m (or_introl eq_refl)) as (s' & Hs').
  destruct (matchNumberAt_shape s' m Hs') as (c & rest & Hm & Hc & Hrest).
  exact (numberOfMatch_shape m n0 c rest Hm Hc Hrest Hn).
Qed.

(** X10. Every number [parseNumbersFromText] extracts is a [+] followed by
    decimal digits only, ten at least; so it meets the invariant of a
    contact number, digits after an optional leading [+]. *)
Theorem parseNumbersFromText_numbers_are_clean (text : string) :
  forallb plusThenTenDigits (parseNumbersFromText text) = true
  /\ forallb digitsWithOptionalLeadingPlus (parseNumbersFromText text) = true.
Proof.
  split; apply forallb_forall; intros n Hin.
  - exact (parseNumbersFromText_clean text n Hin).
  - apply plusThenTenDigits_optionalPlus. exact (parseNumbersFromText_clean text n Hin).
Qed.

Example parseNumbersFromText_samples :
  parseNumbersFromText "Ana +55 (11) 99999-0001, casa 11 3333-4444 e 5511988887777."
  = ["+5511999990001"; "+1133334444"; "+5511988887777"]%string
  /\ parseNumbersFromText "tel 1234567" = []
  /\ parseNumbersFromText "+5511999990001+5511999990002"
     = ["+5511999990001"; "+5511999990002"]%string.
Proof. repeat split. Qed.

(** ** From extraction to export and to the campaign box *)

Lemma digitOrPlus_plain (c : ascii) :
  digitOrPlus c = true ->
  Ascii.eqb c Js.LF = false /\ Ascii.eqb c Js.CR = false
  /\ Ascii.eqb c ","%char = false /\ Ascii.eqb c dquote = false
  /\ Js.isSpace c = false.
Proof.
  destruct c as [[] [] [] [] [] [] [] []]; vm_compute; intros H;
    try discriminate H; repeat split.
Qed.

Lemma plusThenTenDigits_chars (n : string) :
  plusThenTenDigits n = true ->
  Js.allChars digitOrPlus n = true /\ Js.startsWith n "+" = true /\ n <> EmptyString.
Proof.
  destruct n as [|c r]; [discriminate|]. cbn [plusThenTenDigits]. intros H.
  apply andb_prop in H. destruct H as [H _]. apply andb_prop in H. destruct H as [Hp Hd].
  pose proof (isPlus_eq c Hp) as ->. split; [|split].
  - cbn [Js.allChars]. unfold digitOrPlus at 1. rewrite Hp, orb_true_r. cbn [andb].
    clear Hp. induction r as [|d r IH]; cbn [Js.allChars] in *; [reflexivity|].
    apply andb_prop in Hd. destruct Hd as [Hd Hr].
    unfold digitOrPlus at 1. rewrite Hd. cbn [orb andb]. exact (IH Hr).
  - apply startsWith_plus_cons.
  - discriminate.
Qed.

Lemma splitLines_plain_line (n rest : string) :
  Js.allChars digitOrPlus n = true ->
  Js.splitLines (n ++ String Js.LF rest) = n :: Js.splitLines rest.
Proof.
  induction n as [|c r IH]; cbn [Js.allChars append]; intros H.
  - cbn [Js.splitLines]. rewrite Ascii.eqb_refl. reflexivity.
  - apply andb_prop in H. destruct H as [Hc Hr].
    destruct (digitOrPlus_plain c Hc) as (Hlf & Hcr & _).
    cbn [Js.splitLines]. rewrite Hlf, Hcr, (IH Hr). reflexivity.
Qed.

Lemma splitLines_plain (n : string) :
  Js.allChars digitOrPlus n = true -> Js.splitLines n = [n].
Proof.
  induction n as [|c r IH]; cbn [Js.allChars]; intros H; [reflexivity|].
  apply andb_prop in H. destruct H as [Hc Hr].
  destruct (digitOrPlus_plain c Hc) as (Hlf & Hcr & _).
  cbn [Js.splitLines]. rewrite Hlf, Hcr, (IH Hr). reflexivity.
Qed.

Lemma splitLines_joinLines (nums : list string) :
  nums <> [] ->
  Forall (fun n => Js.allChars digitOrPlus n = true) nums ->
  Js.splitLines (joinLines nums) = nums.
Proof.
  intros Hne Hall. induction Hall as [|n rest Hn Hrest IH]; [congruence|].
  destruct rest as [|n2 rest2].
  - cbn [joinLines]. apply splitLines_plain. exact Hn.
  - change (joinLines (n :: n2 :: rest2))
      with (n ++ String Js.LF (joinLines (n2 :: rest2)))%string.
    rewrite (splitLines_plain_line n _ Hn). f_equal. apply IH. discriminate.
Qed.

Lemma trimEnd_plain (n : string) :
  Js.allChars digitOrPlus n = true -> Js.trimEnd n = n.
Proof.
  induction n as [|c r IH]; cbn [Js.allChars Js.trimEnd]; intros H; [reflexivity|].
  apply andb_prop in H. destruct H as [Hc Hr].
  destruct (digitOrPlus_plain c Hc) as (_ & _ & _ & _ & Hsp).
  rewrite Hsp, (IH Hr). reflexivity.
Qed.

Lemma trim_plain (n : string) :
  Js.allChars digitOrPlus n = true -> Js.trim n = n.
Proof.
  intros H. unfold Js.trim.
  assert (Hs : Js.trimStart n = n).
  { destruct n as [|c r]; [reflexivity|]. cbn [Js.allChars] in H.
    apply andb_prop in H. destruct H as [Hc _].
    destruct (digitOrPlus_plain c Hc) as (_ & _ & _ & _ & Hsp).
    cbn [Js.trimStart]. rewrite Hsp. reflexivity. }
  rewrite Hs. apply trimEnd_plain. exact H.
Qed.

Lemma splitComma_plain (n : string) :
  Js.allChars digitOrPlus n = true -> Js.splitComma n = [n].
Proof.
  induction n as [|c r IH]; cbn [Js.allChars]; intros H; [reflexivity|].
  apply andb_prop in H. destruct H as [Hc Hr].
  destruct (digitOrPlus_plain c Hc) as (_ & _ & Hcomma & _).
  cbn [Js.splitComma]. rewrite Hcomma, (IH Hr). reflexivity.
Qed.

Lemma hasCsvSpecial_plain (n : string) :
  Js.allChars digitOrPlus n = true -> hasCsvSpecial n = false.
Proof.
  induction n as [|c r IH]; cbn [Js.allChars hasCsvSpecial]; intros H; [reflexivity|].
  apply andb_prop in H. destruct H as [Hc Hr].
  destruct (digitOrPlus_plain c Hc) as (Hlf & _ & Hcomma & Hq & _).
  rewrite Hq, Hcomma, Hlf, (IH Hr). reflexivity.
Qed.

Lemma parseCampaignLine_plain (n : string) :
  plusThenTenDigits n = true -> parseCampaignLine n = Some (mkEntry n EmptyString).
Proof.
  intros H. destruct (plusThenTenDigits_chars n H) as (Hall & Hplus & Hne).
  unfold parseCampaignLine. rewrite (splitComma_plain n Hall).
  cbn [map nth]. rewrite (trim_plain n Hall).
  unfold Js.keepDigitsPlus. fold digitOrPlus.
  rewrite (keepChars_fixed digitOrPlus n Hall), Hplus.
  destruct n; [congruence | reflexivity].
Qed.

Lemma set_fresh (V : Type) (k : string) (v : V) (m : JsMap.t V) :
  ~ In k (JsMap.keys m) -> JsMap.set k v m = m ++ [(k, v)].
Proof.
  unfold JsMap.keys. induction m as [|[k0 v0] r IH]; simpl; intros H; [reflexivity|].
  destruct (String.eqb k0 k) eqn:E.
  - apply String.eqb_eq in E. exfalso. apply H. left. exact E.
  - rewrite IH by tauto. reflexivity.
Qed.

Lemma setAll_distinct (es : list ContactEntry) :
  forall m : JsMap.t ContactEntry,
    NoDup (JsMap.keys m ++ map number es) ->
    setAll es m = m ++ map (fun e => (number e, e)) es.
Proof.
  unfold setAll. induction es as [|e es IH]; intros m Hnd; cbn [fold_left map].
  - rewrite app_nil_r. reflexivity.
  - cbn [map] in Hnd. rewrite set_fresh.
    + rewrite IH.
      * rewrite <- app_assoc. reflexivity.
      * unfold JsMap.keys in *. rewrite map_app. cbn [map fst].
        rewrite <- app_assoc. exact Hnd.
    + intros Hin. apply NoDup_remove_2 in Hnd. apply Hnd.
      apply in_or_app. left. exact Hin.
Qed.

Lemma extractNumbersDeep_clean (titles : list string) (chatTitle : string) :
  NoDup (extractNumbersDeep titles chatTitle)
  /\ Forall (fun n => plusThenTenDigits n = true) (extractNumbersDeep titles chatTitle).
Proof.
  unfold extractNumbersDeep.
  set (all := flat_map parseNumbersFromText (firstn 1200 titles)
              ++ parseNumbersFromText chatTitle).
  split; [apply (uniq_members all EmptyString)|].
  apply Forall_forall. intros n Hin.
  apply (proj2 (uniq_members all n)) in Hin.
  destruct Hin as [Hin _]. unfold all in Hin. apply in_app_or in Hin.
  destruct Hin as [Hin | Hin]; [|exact (parseNumbersFromText_clean _ n Hin)].
  apply in_flat_map in Hin. destruct Hin as (t & _ & Ht).
  exact (parseNumbersFromText_clean t n Ht).
Qed.

(** X11. The numbers [extractNumbersDeep] finds, written one per line as
    the extract button writes them, are read back unchanged by the download
    button, exported to CSV without any quoting, and parsed by
    [parseCampaignLines] into exactly those numbers, in the same order, each
    with an empty name. *)
Theorem extracted_numbers_feed_the_campaign (titles : list string) (chatTitle : string) :
  let nums := extractNumbersDeep titles chatTitle in
  outputLines (joinLines nums) = nums
  /\ contactsCsv nums = joinLines ("numero"%string :: nums)
  /\ parseCampaignLines (joinLines nums) = map (fun n => mkEntry n EmptyString) nums.
Proof.
  intros nums. destruct (extractNumbersDeep_clean titles chatTitle) as [Hnd Hclean].
  fold nums in Hnd, Hclean.
  assert (Hchars : Forall (fun n => Js.allChars digitOrPlus n = true) nums).
  { eapply Forall_impl; [|exact Hclean]. intros n Hn.
    apply plusThenTenDigits_chars. exact Hn. }
  assert (Htrim : map Js.trim nums = nums).
  { clear - Hchars. induction Hchars as [|n l Hn _ IH]; cbn [map]; [reflexivity|].
    rewrite (trim_plain n Hn), IH. reflexivity. }
  assert (Hkeep : filter (fun l => negb (Js.isEmpty l)) nums = nums).
  { clear - Hclean. induction Hclean as [|n l Hn _ IH]; cbn [filter]; [reflexivity|].
    destruct n; [discriminate Hn|]. cbn [Js.isEmpty negb]. rewrite IH. reflexivity. }
  assert (Hlines : outputLines (joinLines nums) = nums).
  { unfold outputLines, safeText. destruct nums as [|n0 rest] eqn:E; [reflexivity|].
    rewrite splitLines_joinLines by (discriminate || exact Hchars).
    rewrite Htrim. exact Hkeep. }
  split; [exact Hlines|]. split.
  - unfold contactsCsv. f_equal. cbn [map]. f_equal.
    clear - Hchars. induction Hchars as [|n l Hn _ IH]; cbn [map]; [reflexivity|].
    unfold csvEscape at 1, safeText. rewrite (hasCsvSpecial_plain n Hn), IH. reflexivity.
  - unfold parseCampaignLines, campaignEntries. fold (outputLines (joinLines nums)).
    rewrite Hlines.
    assert (Hcollect : collectEntries nums = map (fun n => mkEntry n EmptyString) nums).
    { clear - Hclean. induction Hclean as [|n l Hn _ IH]; cbn [collectEntries map]; [reflexivity|].
      rewrite (parseCampaignLine_plain n Hn), IH. reflexivity. }
    rewrite Hcollect, setAll_distinct.
    + unfold JsMap.values. cbn [app]. rewrite map_map. cbn [snd]. apply map_id.
    + cbn [JsMap.keys map app]. rewrite map_map. cbn [number]. rewrite map_id. exact Hnd.
Qed.

(** ** [applyVars] *)

Lemma append_assoc_s (a b c : string) : ((a ++ b) ++ c = a ++ (b ++ c))%string.
Proof. induction a as [|x a IH]; simpl; [reflexivity | rewrite IH; reflexivity]. Qed.

Lemma append_empty_r (a : string) : (a ++ EmptyString)%string = a.
Proof. induction a as [|x a IH]; simpl; [reflexivity | rewrite IH; reflexivity]. Qed.

Lemma allChars_app (p : ascii -> bool) (a b : string) :
  Js.allChars p (a ++ b) = Js.allChars p a && Js.allChars p b.
Proof.
  induction a as [|x a IH]; simpl; [reflexivity|].
  rewrite IH, andb_assoc. reflexivity.
Qed.

(** A replacement text without dollar sign is inserted as it is. *)
Lemma getSubstitution_plain (matched before after rep : string) :
  noDollar rep = true -> getSubstitution matched before after rep = rep.
Proof.
  unfold noDollar. induction rep as [|c r IH]; cbn [Js.allChars getSubstitution];
    intros H; [reflexivity|].
  apply andb_prop in H. destruct H as [Hc Hr].
  apply negb_true_iff in Hc. rewrite Hc, (IH Hr). reflexivity.
Qed.

(** Where the pattern does not occur, nothing is replaced. *)
Lemma replaceAllFrom_absent (pat rep : string) (s : string) :
  forall before, Js.includes s pat = false ->
                 replaceAllFrom pat rep before s 0 = s.
Proof.
  induction s as [|c r IH]; intros before H; [reflexivity|].
  cbn [Js.includes] in H. apply orb_false_iff in H. destruct H as [Hp Hr].
  cbn [replaceAllFrom]. rewrite Hp, (IH _ Hr). reflexivity.
Qed.

(** X12. A template in which neither placeholder occurs is returned
    unchanged by [applyVars], whatever the entry. *)
Theorem applyVars_without_placeholder (msg : string) (entry : ContactEntry) :
  Js.includes msg "{{nome}}" = false ->
  Js.includes msg "{{numero}}" = false ->
  applyVars msg entry = msg.
Proof.
  intros H1 H2. unfold applyVars, replaceAll, safeText.
  rewrite (replaceAllFrom_absent "{{nome}}" (name entry) msg EmptyString H1).
  apply replaceAllFrom_absent. exact H2.
Qed.

Lemma applyVars_without_placeholder_witness :
  applyVars "Ola, {nome}!" (mkEntry "+5511999990001" "$&") = "Ola, {nome}!"%string.
Proof.
  apply (applyVars_without_placeholder "Ola, {nome}!" (mkEntry "+5511999990001" "$&"));
    reflexivity.
Defined.

Section Substitution.

(** A pattern that begins with an opening brace, and a replacement text
    without dollar sign. *)
Variables (pat' rep : string).
Let pat := String "{"%char pat'.
Hypothesis rep_plain : noDollar rep = true.

Lemma replaceAllFrom_before (s : string) :
  forall before before' skip,
    replaceAllFrom pat rep before s skip = replaceAllFrom pat rep before' s skip.
Proof.
  induction s as [|c r IH]; intros before before' skip; [reflexivity|].
  cbn [replaceAllFrom]. destruct skip as [|k]; [|apply IH].
  rewrite !(getSubstitution_plain _ _ _ rep rep_plain).
  destruct (String.prefix pat (String c r));
    rewrite (IH (before ++ String c EmptyString)%string
                (before' ++ String c EmptyString)%string); reflexivity.
Qed.

Lemma replaceAllFrom_passes_text (a : string) :
  forall before t,
    noBrace a = true ->
    replaceAllFrom pat rep before (a ++ t) 0
    = (a ++ replaceAllFrom pat rep EmptyString t 0)%string.
Proof.
  unfold noBrace. induction a as [|c r IH]; intros before t H; cbn [append].
  - apply replaceAllFrom_before.
  - cbn [Js.allChars] in H. apply andb_prop in H. destruct H as [Hc Hr].
    apply negb_true_iff in Hc. cbn [replaceAllFrom].
    assert (Hp : String.prefix pat (String c (r ++ t)) = false).
    { unfold pat. cbn [String.prefix].
      destruct (ascii_dec "{" c) as [<-|]; [discriminate Hc | reflexivity]. }
    rewrite Hp, (IH _ t Hr). reflexivity.
Qed.

Lemma replaceAllFrom_plain_text (a : string) :
  noBrace a = true -> replaceAllFrom pat rep EmptyString a 0 = a.
Proof.
  intros H. rewrite <- (append_empty_r a) at 1.
  rewrite (replaceAllFrom_passes_text a EmptyString EmptyString H).
  apply append_empty_r.
Qed.

Lemma prefix_of_append (u t : string) : String.prefix u (u ++ t) = true.
Proof.
  induction u as [|x u IH]; cbn [append String.prefix]; [destruct t; reflexivity|].
  destruct (ascii_dec x x) as [_|Hne]; [exact IH | congruence].
Qed.

Lemma dropChars_append (u t : string) : dropChars (String.length u) (u ++ t) = t.
Proof. induction u as [|x u IH]; cbn; [reflexivity | exact IH]. Qed.

Lemma replaceAllFrom_skips (u : string) :
  forall before t,
    replaceAllFrom pat rep before (u ++ t) (String.length u)
    = replaceAllFrom pat rep EmptyString t 0.
Proof.
  induction u as [|x u IH]; intros before t; cbn [append String.length].
  - apply replaceAllFrom_before.
  - cbn [replaceAllFrom]. apply IH.
Qed.

Lemma replaceAllFrom_at_match (before t : string) :
  replaceAllFrom pat rep before (pat ++ t) 0
  = (rep ++ replaceAllFrom pat rep EmptyString t 0)%string.
Proof.
  unfold pat at 2. cbn [append replaceAllFrom].
  change (String "{" (pat' ++ t)) with (pat ++ t)%string.
  rewrite prefix_of_append, (getSubstitution_plain _ _ _ rep rep_plain).
  f_equal.
  replace (String.length pat - 1) with (String.length pat')
    by (unfold pat; cbn [String.length]; lia).
  apply replaceAllFrom_skips.
Qed.

End Substitution.

Lemma includes_noBrace (s p : string) :
  noBrace s = true -> Js.includes s (String "{" p) = false.
Proof.
  unfold noBrace. induction s as [|c r IH]; cbn [Js.allChars Js.includes]; intros H.
  - reflexivity.
  - apply andb_prop in H. destruct H as [Hc Hr]. apply negb_true_iff in Hc.
    rewrite (IH Hr), orb_false_r. cbn [String.prefix].
    destruct (ascii_dec "{" c) as [<-|]; [discriminate Hc | reflexivity].
Qed.

(** X13. In a template made of plain text, the name placeholder, plain
    text, the number placeholder and plain text, where plain text holds no
    opening brace, [applyVars] puts the name and the number of the entry in
    place of the placeholders and changes nothing else, provided the name
    holds neither a dollar sign nor an opening brace and the number holds no
    dollar sign. *)
Theorem applyVars_fills_placeholders (a b c : string) (entry : ContactEntry) :
  noBrace a = true -> noBrace b = true -> noBrace c = true ->
  noDollar (name entry) = true -> noBrace (name entry) = true ->
  noDollar (number entry) = true ->
  applyVars (a ++ "{{nome}}" ++ b ++ "{{numero}}" ++ c) entry
  = (a ++ name entry ++ b ++ number entry ++ c)%string.
Proof.
  intros Ha Hb Hc Hnd Hnb Hud. unfold applyVars, replaceAll, safeText.
  assert (Hfirst :
            replaceAllFrom "{{nome}}" (name entry) EmptyString
                           (a ++ "{{nome}}" ++ b ++ "{{numero}}" ++ c) 0
            = (a ++ name entry ++ b ++ "{{numero}}" ++ c)%string).
  { rewrite (replaceAllFrom_passes_text "{nome}}" (name entry) Hnd a _ _ Ha). f_equal.
    rewrite (replaceAllFrom_at_match "{nome}}" (name entry) Hnd EmptyString). f_equal.
    rewrite (replaceAllFrom_passes_text "{nome}}" (name entry) Hnd b _ _ Hb). f_equal.
    apply replaceAllFrom_absent.
    assert (H0 : String.prefix "{{nome}}" ("{{numero}}" ++ c) = false) by reflexivity.
    assert (H1 : String.prefix "{{nome}}" ("{numero}}" ++ c) = false) by reflexivity.
    change ("{{numero}}" ++ c)%string
      with (String "{" (String "{" ("numero}}" ++ c)))%string in *.
    change ("{numero}}" ++ c)%string with (String "{" ("numero}}" ++ c))%string in *.
    cbn [Js.includes]. rewrite H0, H1. cbn [orb].
    apply includes_noBrace. unfold noBrace in *. rewrite allChars_app, Hc. reflexivity. }
  rewrite Hfirst.
  rewrite <- (append_assoc_s (name entry) b), <- (append_assoc_s a).
  rewrite (replaceAllFrom_passes_text "{numero}}" (number entry) Hud).
  - rewrite !append_assoc_s. do 3 f_equal.
    rewrite (replaceAllFrom_at_match "{numero}}" (number entry) Hud EmptyString). f_equal.
    apply (replaceAllFrom_plain_text "{numero}}" (number entry) Hud). exact Hc.
  - unfold noBrace in *. rewrite !allChars_app, Ha, Hnb, Hb. reflexivity.
Qed.

Lemma applyVars_fills_placeholders_witness :
  applyVars "Ola {{nome}}, codigo {{numero}}" (mkEntry "+5511999990001" "Ana")
  = "Ola Ana, codigo +5511999990001"%string.
Proof.
  apply (applyVars_fills_placeholders "Ola " ", codigo " ""
           (mkEntry "+5511999990001" "Ana")); reflexivity.
Defined.

Example applyVars_dollar_patterns :
  applyVars "Ola {{nome}}!" (mkEntry "+5511999990001" "$&") = "Ola {{nome}}!"%string
  /\ applyVars "Ola {{nome}}!" (mkEntry "+5511999990001" "R$$ 5") = "Ola R$ 5!"%string
  /\ applyVars "{{{{nome}}nome}}" (mkEntry "+5511999990001" "") = "{{nome}}"%string.
Proof. repeat split. Qed.

(** ** [openChatBySearch] *)

Lemma keepChars_of_keepChars (p q : ascii -> bool) (s : string) :
  (forall c, p c = true -> q c = true) ->
  Js.keepChars p (Js.keepChars q s) = Js.keepChars p s.
Proof.
  intros Hpq. induction s as [|c s IH]; [reflexivity|].
  cbn [Js.keepChars]. destruct (q c) eqn:Hq.
  - cbn [Js.keepChars]. rewrite IH. reflexivity.
  - rewrite IH. destruct (p c) eqn:Hp; [|reflexivity].
    rewrite (Hpq c Hp) in Hq. discriminate.
Qed.

Lemma keepDigits_of_keepDigitsPlus (s : string) :
  Js.keepDigits (Js.keepDigitsPlus s) = Js.keepDigits s.
Proof.
  unfold Js.keepDigits, Js.keepDigitsPlus. apply keepChars_of_keepChars.
  intros c ->. reflexivity.
Qed.

Lemma isEmpty_length (s : string) : Js.isEmpty s = true <-> String.length s = 0.
Proof. destruct s; simpl; split; intros; (reflexivity || discriminate). Qed.

Lemma firstIndex_some (A : Type) (f : A -> bool) (l : list A) (i : nat) :
  firstIndex f l = Some i <->
  (exists x, nth_error l i = Some x /\ f x = true)
  /\ (forall j y, j < i -> nth_error l j = Some y -> f y = false).
Proof.
  revert i. induction l as [|a l IH]; intros i; cbn [firstIndex].
  - split; [discriminate|]. intros ((x & Hx & _) & _). destruct i; discriminate.
  - destruct (f a) eqn:Ha.
    + split.
      * intros H. injection H as <-. split; [exists a; split; [reflexivity|exact Ha]|].
        intros j y Hj. lia.
      * intros (_ & Hfirst). destruct i as [|i]; [reflexivity|].
        rewrite (Hfirst 0 a) in Ha by (lia || reflexivity). discriminate.
    + assert (Hto : forall k, firstIndex f l = Some k ->
                (exists x, nth_error l k = Some x /\ f x = true)
                /\ (forall j y, j < k -> nth_error l j = Some y -> f y = false))
        by (intros k Hk; apply IH; exact Hk).
      assert (Hfrom : forall k,
                (exists x, nth_error l k = Some x /\ f x = true)
                /\ (forall j y, j < k -> nth_error l j = Some y -> f y = false) ->
                firstIndex f l = Some k)
        by (intros k Hk; apply IH; exact Hk).
      clear IH. split.
      * destruct (firstIndex f l) as [k|]; [|discriminate].
        intros H. injection H as <-.
        destruct (Hto k eq_refl) as ((x & Hx & Hfx) & Hfirst).
        split; [exists x; split; assumption|].
        intros [|j] y Hj Hy; [injection Hy as <-; exact Ha|].
        apply (Hfirst j); [lia | exact Hy].
      * intros ((x & Hx & Hfx) & Hfirst).
        destruct i as [|i]; [injection Hx as ->; congruence|].
        rewrite (Hfrom i); [reflexivity|].
        split; [exists x; split; assumption|].
        intros j y Hj Hy. apply (Hfirst (S j)); [lia | exact Hy].
Qed.

Lemma firstIndex_none (A : Type) (f : A -> bool) (l : list A) :
  firstIndex f l = None <-> forall x, In x l -> f x = false.
Proof.
  induction l as [|a l IH]; cbn [firstIndex].
  - split; [intros _ x [] | reflexivity].
  - destruct (f a) eqn:Ha.
    + split; [discriminate|]. intros H. rewrite (H a) in Ha by (left; reflexivity).
      discriminate.
    + destruct (firstIndex f l) as [k|].
      * split; [discriminate|]. intros H.
        assert (Hk : Some k = None) by (apply IH; intros x Hx; apply H; right; exact Hx).
        discriminate.
      * split; [|reflexivity]. intros _ x [<-|Hx]; [exact Ha|].
        apply (proj1 IH eq_refl x Hx).
Qed.

Lemma tooShort_iff (digits : string) :
  Js.isEmpty digits || Nat.ltb (String.length digits) 8 = true
  <-> String.length digits < 8.
Proof.
  rewrite orb_true_iff, isEmpty_length, Nat.ltb_lt. lia.
Qed.

Lemma validateChatOpen_threw (dom : nat -> ChatDom) (digits : string) (f : Failure) :
  outcome (validateChatOpen dom digits) = Threw f -> f = ChatOpenFailed.
Proof.
  unfold validateChatOpen. cbn [outcome].
  destruct (outcome (validateFrom dom digits MAX_COMPOSER_CHECK_ATTEMPTS 0));
    [discriminate | congruence].
Qed.

Lemma validateChatOpen_slept (dom : nat -> ChatDom) (digits : string) :
  (0 <= sleptMs (validateChatOpen dom digits) <= 6000)%Z.
Proof.
  unfold validateChatOpen. cbn [sleptMs].
  destruct (validateFrom_bounds dom digits MAX_COMPOSER_CHECK_ATTEMPTS 0) as (Hp & Hs & _).
  rewrite Hs. unfold COMPOSER_CHECK_DELAY_MS, MAX_COMPOSER_CHECK_ATTEMPTS in *. lia.
Qed.

(** The row clicked, as a function of the rows. *)
Lemma clicked_none_iff (digits : string) (rows : list string) :
  match firstIndex (rowMatches digits) rows with
  | Some i => Some i
  | None => match rows with [] => None | _ :: _ => Some 0 end
  end = None <-> rows = [].
Proof.
  destruct rows as [|row rows]; [split; reflexivity|].
  destruct (firstIndex (rowMatches digits) (row :: rows)); split; discriminate.
Qed.

(** X14. [openChatBySearch] rejects its argument as an invalid number
    exactly when it holds fewer than 8 digits, and then, as when the search
    box is missing, it has touched nothing and slept no time; it returns
    true exactly when the argument holds 8 digits or more, the search box is
    there, the search lists a row, and at one of the 20 iterations of the
    validation loop a composer is there with a title that passes, or the
    iteration is past the threshold; it never sleeps more than 9800 ms. *)
Theorem openChatBySearch_stages (query : string) (dom : SearchDom) :
  let r := openChatBySearch query dom in
  let digits := Js.keepDigits query in
  (openError r = Some InvalidNumber <-> String.length digits < 8)
  /\ (openError r = Some InvalidNumber \/ openError r = Some SearchBoxNotFound ->
      clickedRow r = None /\ openSleptMs r = 0%Z)
  /\ (openError r = None <->
      8 <= String.length digits /\ searchBoxShown dom = true /\ resultRows dom <> []
      /\ exists k, k < 20 /\ acceptsAt (chatAfterClick dom k) digits k = true)
  /\ (0 <= openSleptMs r <= 9800)%Z.
Proof.
  cbv zeta. unfold openChatBySearch, safeText.
  rewrite keepDigits_of_keepDigitsPlus.
  set (digits := Js.keepDigits query).
  pose proof (tooShort_iff digits) as Hshort.
  destruct (Js.isEmpty digits || Nat.ltb (String.length digits) 8) eqn:Hlen.
  { assert (String.length digits < 8) by (apply Hshort; reflexivity).
    cbn [openError clickedRow openSleptMs].
    split; [tauto|]. split; [tauto|]. split; [|lia].
    split; [discriminate | intros (? & _); lia]. }
  assert (Hlong : 8 <= String.length digits).
  { destruct (Nat.lt_ge_cases (String.length digits) 8) as [Hlt|]; [|assumption].
    apply Hshort in Hlt. discriminate. }
  destruct (searchBoxShown dom) eqn:Hbox; cbn [negb].
  2:{ cbn [openError clickedRow openSleptMs].
      split; [split; [discriminate | lia]|]. split; [tauto|]. split; [|lia].
      split; [discriminate | intros (_ & ? & _); discriminate]. }
  pose proof (clicked_none_iff digits (resultRows dom)) as Hclick.
  destruct (match firstIndex (rowMatches digits) (resultRows dom) with
            | Some i => Some i
            | None => match resultRows dom with [] => None | _ :: _ => Some 0 end
            end) as [i|].
  2:{ cbn [openError clickedRow openSleptMs].
      split; [split; [discriminate | lia]|].
      split; [intros [?|?]; discriminate|]. split; [|lia].
      split; [discriminate|]. intros (_ & _ & Hrows & _).
      exfalso. apply Hrows. apply Hclick. reflexivity. }
  assert (Hrows : resultRows dom <> []).
  { intros Hnil. apply Hclick in Hnil. discriminate. }
  cbn [openError clickedRow openSleptMs].
  pose proof (validateChatOpen_outcome (chatAfterClick dom) digits) as (Hret & Hthrew & _).
  pose proof (validateChatOpen_slept (chatAfterClick dom) digits) as Hslept.
  pose proof (validateChatOpen_threw (chatAfterClick dom) digits) as Hf.
  unfold MAX_COMPOSER_CHECK_ATTEMPTS in *.
  destruct (outcome (validateChatOpen (chatAfterClick dom) digits)) as [k|f].
  - destruct (proj1 (Hret k) eq_refl) as (Hk & Hacc & _).
    split; [split; [discriminate | lia]|].
    split; [intros [?|?]; discriminate|]. split; [|lia].
    split; [|reflexivity]. intros _.
    split; [exact Hlong|]. split; [reflexivity|]. split; [exact Hrows|].
    exists k. split; assumption.
  - rewrite (Hf f eq_refl) in Hthrew.
    split; [split; [discriminate | lia]|].
    split; [intros [?|?]; discriminate|]. split; [|lia].
    split; [discriminate|]. intros (_ & _ & _ & k & Hk & Hacc).
    rewrite (proj1 Hthrew eq_refl k Hk) in Hacc. discriminate.
Qed.

Lemma openChatBySearch_stages_witness :
  let dom := mkSearchDom true ["Ana +55 11 99999-0001"%string]
               (fun i => mkChatDom (Nat.leb 2 i) "+55 11 99999-0001") in
  openChatBySearch "5511999990001" dom = mkOpenChat None (Some 0) 4700
  /\ openError (openChatBySearch "5511999990001" dom) = None.
Proof.
  intros dom. split; [reflexivity|].
  apply (openChatBySearch_stages "5511999990001" dom).
  split; [vm_compute; lia|]. split; [reflexivity|]. split; [discriminate|].
  exists 2. split; [lia | reflexivity].
Defined.

(** X15. The row [openChatBySearch] clicks is the first row of the search
    results whose digits hold the last six digits of the number, or whose
    last six digits occur in the number; when no row is such, it is the
    first row of the results, whatever it shows. *)
Theorem openChatBySearch_clicks_first_matching_row (query : string) (dom : SearchDom)
    (i : nat) :
  clickedRow (openChatBySearch query dom) = Some i ->
  let digits := Js.keepDigits query in
  let rows := resultRows dom in
  ((exists row, nth_error rows i = Some row /\ rowMatches digits row = true)
   /\ forall j row, j < i -> nth_error rows j = Some row -> rowMatches digits row = false)
  \/ (i = 0 /\ rows <> [] /\ forall row, In row rows -> rowMatches digits row = false).
Proof.
  cbv zeta. unfold openChatBySearch, safeText.
  rewrite keepDigits_of_keepDigitsPlus.
  set (digits := Js.keepDigits query).
  destruct (Js.isEmpty digits || Nat.ltb (String.length digits) 8);
    [discriminate|].
  destruct (searchBoxShown dom); cbn [negb]; [|discriminate].
  pose proof (firstIndex_some string (rowMatches digits) (resultRows dom)) as Hsome.
  pose proof (firstIndex_none string (rowMatches digits) (resultRows dom)) as Hnone.
  destruct (firstIndex (rowMatches digits) (resultRows dom)) as [k|].
  - cbn [clickedRow]. intros H. injection H as <-. left. apply Hsome. reflexivity.
  - destruct (resultRows dom) as [|row rows] eqn:Hrows; cbn [clickedRow]; [discriminate|].
    intros H. injection H as <-. right.
    split; [reflexivity|]. split; [discriminate|]. apply Hnone. reflexivity.
Qed.

Lemma openChatBySearch_clicks_first_matching_row_witness :
  let dom := mkSearchDom true ["Bia 11 98888-7777"; "Ana +55 11 99999-0001"]%string
               (fun _ => mkChatDom true "Ana") in
  clickedRow (openChatBySearch "+5511999990001" dom) = Some 1
  /\ rowMatches "5511999990001" "Bia 11 98888-7777" = false.
Proof.
  intros dom. split; [reflexivity|].
  destruct (openChatBySearch_clicks_first_matching_row "+5511999990001" dom 1 eq_refl)
    as [(_ & Hfirst)|(H & _)]; [|discriminate].
  apply (Hfirst 0); [lia | reflexivity].
Defined.

(** ** The polling loops, iteration by iteration *)

Section PollingLoops.

Local Open Scope Z_scope.

Variable dom : nat -> option Element.



Lemma findElementWithRetryFrom_spec (delayMs : Z) :
  forall remaining i,
    let r := findElementWithRetryFrom dom delayMs remaining i in
    match outcome r with
    | Some el =>
        exists k, (i <= k < i + remaining)%nat /\ dom k = Some el
                  /\ (forall j, (i <= j < k)%nat -> dom j = None)
                  /\ polls r = S (k - i) /\ sleptMs r = Z.of_nat (k - i) * delayMs
    | None =>
        (forall j, (i <= j < i + remaining)%nat -> dom j = None)
        /\ polls r = remaining /\ sleptMs r = Z.of_nat remaining * delayMs
    end.
Proof.
  induction remaining as [|n IH]; intros i; cbn [findElementWithRetryFrom].
  - cbn [outcome polls sleptMs]. split; [intros j Hj; lia | split; reflexivity].
  - destruct (dom i) as [el|] eqn:Hi; cbn [afterMiss outcome polls sleptMs].
    + exists i. split; [lia|]. split; [exact Hi|]. split; [intros j Hj; lia|].
      rewrite Nat.sub_diag. split; reflexivity.
    + specialize (IH (S i)). cbv zeta in IH.
      destruct (outcome (findElementWithRetryFrom dom delayMs n (S i))) as [el|].
      * destruct IH as (k & Hk & Hel & Hfirst & Hp & Hs).
        exists k. split; [lia|]. split; [exact Hel|]. split.
        -- intros j Hj. destruct (Nat.eq_dec j i) as [->|Hne]; [exact Hi|].
           apply Hfirst. lia.
        -- rewrite Hp, Hs. split; [f_equal; lia|].
           replace (k - i)%nat with (S (k - S i)) by lia.
           rewrite Nat2Z.inj_succ. lia.
      * destruct IH as (Hnone & Hp & Hs). split.
        -- intros j Hj. destruct (Nat.eq_dec j i) as [->|Hne]; [exact Hi|].
           apply Hnone. lia.
        -- rewrite Hp, Hs. split; [reflexivity|].
           rewrite Nat2Z.inj_succ. lia.
Qed.

End PollingLoops.

(** X16. [findElementWithRetry] returns the element of the first attempt
    that finds one, after as many queries as attempts made and one delay
    for each attempt that found nothing; it returns null exactly when none
    of its [maxAttempts] attempts finds an element. *)
Theorem findElementWithRetry_returns_first_found (dom : nat -> option Element)
    (maxAttempts : nat) (delayMs : Z) :
  let r := findElementWithRetry dom maxAttempts delayMs in
  (forall k el,
      k < maxAttempts -> dom k = Some el -> (forall j, j < k -> dom j = None) ->
      r = mkPolled (Some el) (S k) (Z.of_nat k * delayMs))
  /\ (outcome r = None <-> forall j, j < maxAttempts -> dom j = None).
Proof.
  cbv zeta. unfold findElementWithRetry.
  pose proof (findElementWithRetryFrom_spec dom delayMs maxAttempts 0) as Hspec.
  cbv zeta in Hspec.
  destruct (findElementWithRetryFrom dom delayMs maxAttempts 0) as [o p s].
  cbn [outcome polls sleptMs] in *.
  destruct o as [el'|].
  - destruct Hspec as (k' & Hk' & Hel' & Hfirst' & Hp & Hs).
    rewrite Nat.sub_0_r in Hp, Hs. split.
    + intros k el Hk Hel Hfirst.
      assert (k = k') as <-.
      { destruct (Nat.lt_trichotomy k k') as [Hlt|[Heq|Hgt]]; [|exact Heq|].
        - rewrite (Hfirst' k) in Hel by lia. discriminate.
        - rewrite (Hfirst k') in Hel' by lia. discriminate. }
      rewrite Hp, Hs. congruence.
    + split; [discriminate|]. intros Hnone.
      rewrite (Hnone k') in Hel' by lia. discriminate.
  - destruct Hspec as (Hnone & _). split.
    + intros k el Hk Hel _. rewrite (Hnone k) in Hel by lia. discriminate.
    + split; [|reflexivity]. intros _ j Hj. apply Hnone. lia.
Qed.

Lemma findElementWithRetry_returns_first_found_witness :
  findElementWithRetry (fun i => if Nat.ltb i 3 then None else Some 7) 10 300
  = mkPolled (Some 7) 4 900.
Proof.
  apply (findElementWithRetry_returns_first_found
           (fun i => if Nat.ltb i 3 then None else Some 7) 10 300).
  - lia.
  - reflexivity.
  - intros [|[|[|j]]] Hj; (reflexivity || lia).
Defined.

(** ** [attachMediaAndSend] *)



(** A payload whose data [atob] refuses: the attach button is clicked, the
    file input is found, and the call throws without giving a file. *)
Example attachMediaAndSend_undecodable :
  let dom := mkMediaDom true (fun _ => Some 1) (fun _ => Some 2) true (fun _ => None) in
  attachMediaAndSend (Some (mkPayload "@@@" "image/png")) "oi" dom
  = mkAttached (Some DecodeFailed) None None false 1500.
Proof. reflexivity. Qed.

(** ** [clickSend] and the rate limiter *)

Section SendLimiter.

Local Open Scope Z_scope.

Lemma shiftOlder_length (ago : Z) (w : list Z) :
  (length (shiftOlder ago w) <= length w)%nat.
Proof.
  induction w as [|a w IH]; simpl; [lia|].
  destruct (a <? ago); simpl; lia.
Qed.

(** In a window in chronological order, the entries the loop keeps are the
    entries of the last hour. *)
Lemma shiftOlder_is_filter (ago : Z) (w : list Z) :
  StronglySorted Z.le w -> shiftOlder ago w = filter (fun x => ago <=? x) w.
Proof.
  induction 1 as [|a w Hs IH Ha]; simpl; [reflexivity|].
  destruct (Z.ltb_spec a ago) as [Hlt|Hge].
  - destruct (Z.leb_spec ago a); [lia | exact IH].
  - destruct (Z.leb_spec ago a); [|lia]. f_equal.
    symmetry. clear IH Hs. induction Ha as [|b w Hb Hw IHw]; simpl; [reflexivity|].
    destruct (Z.leb_spec ago b); [f_equal; exact IHw | lia].
Qed.

Lemma filter_recent_mono (a b : Z) (w : list Z) :
  a <= b ->
  (length (filter (fun x => (b <=? x)%Z) w)
   <= length (filter (fun x => (a <=? x)%Z) w))%nat.
Proof.
  intros Hab. induction w as [|x w IH]; simpl; [lia|].
  destruct (Z.leb_spec b x); destruct (Z.leb_spec a x); simpl; lia.
Qed.

Lemma sorted_snoc (w : list Z) (t : Z) :
  StronglySorted Z.le w -> Forall (fun x => x <= t) w -> StronglySorted Z.le (w ++ [t]).
Proof.
  induction 1 as [|a w Hs IH Ha]; intros Hall; simpl.
  - constructor; constructor.
  - inversion Hall as [|? ? Hat Hwt]; subst.
    constructor; [apply IH; exact Hwt|].
    apply Forall_app. split; [exact Ha | constructor; [exact Hat | constructor]].
Qed.

Lemma shiftOlder_keeps_sorted (ago : Z) (w : list Z) :
  StronglySorted Z.le w -> StronglySorted Z.le (shiftOlder ago w).
Proof.
  induction 1 as [|a w Hs IH Ha]; simpl; [constructor|].
  destruct (a <? ago); [exact IH | constructor; assumption].
Qed.

(** What one stealth call keeps of a window in chronological order. *)
Lemma stealth_call_keeps (c : StealthCall) (w : list Z) (now : Z) :
  now <= callCheckAt c -> callCheckAt c <= callRecordAt c ->
  StronglySorted Z.le w -> Forall (fun x => x <= now) w ->
  (length (recentAt now w) <= 30)%nat ->
  let w' := snd (clickSend true (callCheckAt c) (callRecordAt c) (callDom c) w) in
  StronglySorted Z.le w' /\ Forall (fun x => x <= callRecordAt c) w'
  /\ (length (recentAt (callRecordAt c) w') <= 30)%nat.
Proof.
  intros Hnow Hcr Hsorted Hpast Hcap. cbv zeta.
  unfold clickSend, checkRateLimit, recordMessageSent, STEALTH_CONFIG.maxMessagesPerHour.
  cbn [fst snd].
  set (kept := shiftOlder (callCheckAt c - 3600000) w).
  assert (Hks : StronglySorted Z.le kept) by (apply shiftOlder_keeps_sorted; exact Hsorted).
  assert (Hkp : Forall (fun x => x <= callRecordAt c) kept).
  { apply Forall_forall. intros x Hx.
    apply (shiftOlder_incl (callCheckAt c - 3600000) w) in Hx.
    rewrite Forall_forall in Hpast. specialize (Hpast x Hx). simpl in Hpast. lia. }
  assert (Hkc : (length (recentAt (callRecordAt c) kept) <= 30)%nat).
  { unfold recentAt, hourMs in *.
    etransitivity; [apply filter_length_le|].
    unfold kept. rewrite (shiftOlder_is_filter _ w Hsorted).
    etransitivity; [apply filter_recent_mono with (a := now - 3600000); lia|].
    exact Hcap. }
  assert (Hsent : (length kept < 30)%nat ->
                  StronglySorted Z.le (kept ++ [callRecordAt c])
                  /\ Forall (fun x => x <= callRecordAt c) (kept ++ [callRecordAt c])
                  /\ (length (recentAt (callRecordAt c) (kept ++ [callRecordAt c])) <= 30)%nat).
  { intros Hlt. split; [apply sorted_snoc; assumption|]. split.
    - apply Forall_app. split; [exact Hkp | constructor; [lia | constructor]].
    - unfold recentAt. etransitivity; [apply filter_length_le|].
      rewrite length_app. simpl. lia. }
  destruct (Nat.ltb_spec (length kept) 30) as [Hlt|Hge]; cbn [negb].
  - destruct (sendButtonShown (callDom c) || sendIconShown (callDom c)); cbn [snd];
      [apply Hsent; exact Hlt|].
    destruct (composerShown (callDom c)); cbn [snd]; [apply Hsent; exact Hlt|].
    split; [exact Hks|]. split; [exact Hkp | exact Hkc].
  - cbn [snd]. split; [exact Hks|]. split; [exact Hkp | exact Hkc].
Qed.

Lemma stealthSends_keep (calls : list StealthCall) :
  forall (w : list Z) (now : Z),
    chronological now calls ->
    StronglySorted Z.le w -> Forall (fun x => x <= now) w ->
    (length (recentAt now w) <= 30)%nat ->
    let w' := stealthSends calls w in
    StronglySorted Z.le w' /\ Forall (fun x => x <= lastInstant now calls) w'
    /\ (length (recentAt (lastInstant now calls) w') <= 30)%nat.
Proof.
  induction calls as [|c calls IH]; intros w now Hchron Hs Hp Hc; cbv zeta.
  - cbn. split; [exact Hs|]. split; [exact Hp | exact Hc].
  - destruct Hchron as (Hnow & Hcr & Hrest).
    destruct (stealth_call_keeps c w now Hnow Hcr Hs Hp Hc) as (Hs' & Hp' & Hc').
    unfold stealthSends, lastInstant. cbn [fold_left].
    apply (IH _ (callRecordAt c) Hrest Hs' Hp' Hc').
Qed.

End SendLimiter.

(** A stealth call of [clickSend]: when it refuses, and what it leaves of
    the window. *)
Lemma clickSend_stealth (tCheck tRecord : Z) (dom : SendDom) (w : list Z) :
  let r := clickSend true tCheck tRecord dom w in
  let kept := shiftOlder (tCheck - hourMs) w in
  (fst r = RateLimited <-> 30 <= length kept)
  /\ snd r = match fst r with
             | SentByButton | SentByEnter => kept ++ [tRecord]
             | RateLimited | NothingToClick => kept
             end.
Proof.
  cbv zeta.
  unfold clickSend, checkRateLimit, recordMessageSent, hourMs,
    STEALTH_CONFIG.maxMessagesPerHour.
  cbn [fst snd].
  destruct (Nat.ltb_spec (length (shiftOlder (tCheck - 3600000) w)) 30) as [Hlt|Hge];
    cbn [negb fst snd].
  - destruct (sendButtonShown dom || sendIconShown dom); cbn [fst snd];
      [split; [split; [discriminate | lia] | reflexivity]|].
    destruct (composerShown dom); cbn [fst snd];
      (split; [split; [discriminate | lia] | reflexivity]).
  - split; [split; [intros _; exact Hge | reflexivity] | reflexivity].
Qed.

(** X18. [clickSend] refuses with the rate-limit error exactly when it is
    called in stealth mode and the window, once the leading entries older
    than one hour are dropped, holds 30 entries or more; it fails for want
    of something to click only when neither send button, nor send icon, nor
    composer is there; out of stealth mode it leaves the window as it is;
    in stealth mode it leaves the pruned window, with the instant of the
    send appended exactly when it has sent. *)
Theorem clickSend_consults_the_limiter_in_stealth_mode (stealthMode : bool)
    (tCheck tRecord : Z) (dom : SendDom) (w : list Z) :
  let r := clickSend stealthMode tCheck tRecord dom w in
  let kept := shiftOlder (tCheck - hourMs) w in
  (fst r = RateLimited <-> stealthMode = true /\ 30 <= length kept)
  /\ (fst r = NothingToClick ->
      sendButtonShown dom = false /\ sendIconShown dom = false
      /\ composerShown dom = false)
  /\ (stealthMode = false -> snd r = w)
  /\ (stealthMode = true ->
      snd r = match fst r with
              | SentByButton | SentByEnter => kept ++ [tRecord]
              | RateLimited | NothingToClick => kept
              end).
Proof.
  cbv zeta.
  unfold clickSend, checkRateLimit, recordMessageSent, hourMs,
    STEALTH_CONFIG.maxMessagesPerHour.
  destruct stealthMode; cbn [fst snd negb].
  - destruct (Nat.ltb_spec (length (shiftOlder (tCheck - 3600000) w)) 30) as [Hlt|Hge];
      cbn [negb fst snd].
    + destruct (sendButtonShown dom), (sendIconShown dom), (composerShown dom);
        cbn [orb fst snd];
        (split; [split; [discriminate | intros (_ & ?); lia]|]);
        (split; [first [discriminate | intros _; repeat split]|]);
        (split; [discriminate | reflexivity]).
    + split; [split; [intros _; split; [reflexivity | lia] | reflexivity]|].
      split; [discriminate|]. split; [discriminate | reflexivity].
  - destruct (sendButtonShown dom), (sendIconShown dom), (composerShown dom);
      cbn [orb fst snd];
      (split; [split; [discriminate | intros (? & _); discriminate]|]);
      (split; [first [discriminate | intros _; repeat split]|]);
      (split; [reflexivity | discriminate]).
Qed.

Lemma clickSend_consults_the_limiter_in_stealth_mode_witness :
  let w := map Z.of_nat (seq 1 30) in
  clickSend true 3600001 3600002 (mkSendDom true false true) w
  = (RateLimited, map Z.of_nat (seq 1 30))
  /\ fst (clickSend true 3600001 3600002 (mkSendDom true false true) w) = RateLimited.
Proof.
  intros w. split; [reflexivity|].
  apply (clickSend_consults_the_limiter_in_stealth_mode true 3600001 3600002
           (mkSendDom true false true) w).
  split; [reflexivity | vm_compute; lia].
Defined.

(** X19. Whatever the page shows at each call, after any number of stealth
    calls of [clickSend] that follow one another in time, starting from an
    empty window, the window holds at most 30 instants of the hour that ends
    at any instant from the last call on. *)
Theorem stealth_sends_respect_the_hourly_cap (calls : list StealthCall) (now t : Z) :
  chronological now calls -> (lastInstant now calls <= t)%Z ->
  length (recentAt t (stealthSends calls [])) <= 30.
Proof.
  intros Hchron Ht.
  destruct (stealthSends_keep calls [] now Hchron) as (_ & _ & Hcap);
    [constructor | constructor | simpl; lia|].
  unfold recentAt in *.
  etransitivity; [|exact Hcap].
  apply filter_recent_mono. lia.
Qed.

Lemma stealth_sends_respect_the_hourly_cap_witness :
  let calls := map (fun i => mkCall (Z.of_nat i) (Z.of_nat i) (mkSendDom true false false))
                   (seq 1 40) in
  length (stealthSends calls []) = 30
  /\ length (recentAt 40 (stealthSends calls [])) <= 30.
Proof.
  intros calls. split; [reflexivity|].
  apply (stealth_sends_respect_the_hourly_cap calls 0 40).
  - simpl. repeat (split; [lia|]). exact I.
  - vm_compute. discriminate.
Defined.

(** ** The [try] block of one contact *)

Lemma humanType_empty (text : string) :
  humanType text = [] -> text = EmptyString.
Proof. destruct text; [reflexivity | discriminate]. Qed.

(** X20. Without media, the [try] block of a contact sends exactly when it
    ends without error, and only after [openChatBySearch] has returned true
    for the digits, with a text that is not empty, typed whole into the
    composer, and with fewer than 30 entries left in the pruned window, to
    which the instant of the send is appended; when the limiter refuses,
    the text is typed all the same and nothing is sent; and as long as
    nothing is typed the window is left as it was. *)
Theorem text_contact_sends_through_the_limiter (text phoneDigits : string)
    (page : ContactPage) (w : list Z) :
  let r := contactTry None text phoneDigits page w in
  let kept := shiftOlder (checkAt page - hourMs) w in
  (delivered r = true <-> contactError r = None)
  /\ (delivered r = true ->
      openError (openChatBySearch phoneDigits (searchPage page)) = None
      /\ text <> EmptyString /\ typed r = list_ascii_of_string text
      /\ length kept < 30 /\ timestamps r = kept ++ [recordAt page])
  /\ (contactError r = Some (SendFailed RateLimited) ->
      typed r = list_ascii_of_string text /\ delivered r = false
      /\ 30 <= length kept /\ timestamps r = kept)
  /\ (typed r = [] -> delivered r = false /\ timestamps r = w).
Proof.
  cbv zeta. unfold contactTry.
  destruct (openError (openChatBySearch phoneDigits (searchPage page))) as [e|].
  { cbn [contactError typed delivered timestamps].
    split; [split; discriminate|]. split; [discriminate|].
    split; [discriminate|]. intros _. split; reflexivity. }
  destruct (composerAfterOpen page); cbn [negb].
  2:{ cbn [contactError typed delivered timestamps].
      split; [split; discriminate|]. split; [discriminate|].
      split; [discriminate|]. intros _. split; reflexivity. }
  destruct text as [|c text]; cbn [Js.isEmpty].
  { cbn [contactError typed delivered timestamps].
    split; [split; discriminate|]. split; [discriminate|].
    split; [discriminate|]. intros _. split; reflexivity. }
  unfold insertIntoComposer_stealth, safeText.
  destruct (composerAtInsert page); cbn [negb Js.isEmpty].
  2:{ cbn [contactError typed delivered timestamps].
      split; [split; discriminate|]. split; [discriminate|].
      split; [discriminate|]. intros _. split; reflexivity. }
  pose proof (clickSend_stealth (checkAt page) (recordAt page) (sendPage page) w)
    as (Hlim & Hwin).
  cbv zeta in Hlim, Hwin.
  unfold humanType.
  destruct (fst (clickSend true (checkAt page) (recordAt page) (sendPage page) w)) eqn:Hres;
    cbn [contactError typed delivered timestamps]; rewrite Hwin.
  - split; [split; reflexivity|]. split.
    + intros _. split; [reflexivity|]. split; [discriminate|]. split; [reflexivity|].
      split; [|reflexivity].
      destruct (Nat.lt_ge_cases (length (shiftOlder (checkAt page - hourMs) w)) 30)
        as [Hlt|Hge]; [exact Hlt|].
      assert (SentByButton = RateLimited) by (apply Hlim; exact Hge).
      discriminate.
    + split; [discriminate|]. discriminate.
  - split; [split; reflexivity|]. split.
    + intros _. split; [reflexivity|]. split; [discriminate|]. split; [reflexivity|].
      split; [|reflexivity].
      destruct (Nat.lt_ge_cases (length (shiftOlder (checkAt page - hourMs) w)) 30)
        as [Hlt|Hge]; [exact Hlt|].
      assert (SentByEnter = RateLimited) by (apply Hlim; exact Hge).
      discriminate.
    + split; [discriminate|]. discriminate.
  - split; [split; discriminate|]. split; [discriminate|]. split; [|discriminate].
    intros _. split; [reflexivity|]. split; [reflexivity|].
    split; [|reflexivity]. apply Hlim. reflexivity.
  - split; [split; discriminate|]. split; [discriminate|].
    split; discriminate.
Qed.

Lemma text_contact_sends_through_the_limiter_witness :
  let page := mkContactPage
                (mkSearchDom true ["+55 11 99999-0001"%string]
                   (fun _ => mkChatDom true "+55 11 99999-0001"))
                true (mkMediaDom false (fun _ => None) (fun _ => None) false (fun _ => None))
                true (mkSendDom true false false) 3600200 3600300 in
  let r := contactTry None "oi" "5511999990001" page [100; 300]%Z in
  delivered r = true /\ timestamps r = [300; 3600300]%Z.
Proof.
  intros page r. split; [reflexivity|].
  destruct (text_contact_sends_through_the_limiter "oi" "5511999990001" page [100; 300]%Z)
    as (_ & Hsent & _).
  destruct (Hsent eq_refl) as (_ & _ & _ & _ & Hwindow). exact Hwindow.
Defined.

(** X21. With media, the [try] block of a contact never consults the rate
    limiter: it never ends with an error of [clickSend], it types nothing
    into the composer, and when [attachMediaAndSend] returns true it appends
    the instant of the send to the window as it stands, pruning nothing,
    however many sends of the last hour the window holds; when it fails the
    window is left as it was. *)
Theorem media_contact_bypasses_the_limiter (payload : MediaPayload)
    (text phoneDigits : string) (page : ContactPage) (w : list Z) :
  let r := contactTry (Some payload) text phoneDigits page w in
  (delivered r = true <-> contactError r = None)
  /\ (delivered r = true ->
      openError (openChatBySearch phoneDigits (searchPage page)) = None
      /\ attachError (attachMediaAndSend (Some payload) text (mediaPage page)) = None
      /\ timestamps r = w ++ [recordAt page])
  /\ (delivered r = false -> timestamps r = w)
  /\ typed r = []
  /\ (forall e, contactError r <> Some (SendFailed e)).
Proof.
  cbv zeta. unfold contactTry.
  destruct (openError (openChatBySearch phoneDigits (searchPage page))) as [e|].
  { cbn [contactError typed delivered timestamps].
    split; [split; discriminate|]. split; [discriminate|].
    split; [reflexivity|]. split; [reflexivity | discriminate]. }
  destruct (composerAfterOpen page); cbn [negb].
  2:{ cbn [contactError typed delivered timestamps].
      split; [split; discriminate|]. split; [discriminate|].
      split; [reflexivity|]. split; [reflexivity | discriminate]. }
  destruct (attachError (attachMediaAndSend (Some payload) text (mediaPage page))) as [e|];
    cbn [contactError typed delivered timestamps].
  - split; [split; discriminate|]. split; [discriminate|].
    split; [reflexivity|]. split; [reflexivity | discriminate].
  - split; [split; reflexivity|]. split; [intros _; repeat split|].
    split; [discriminate|]. split; [reflexivity | discriminate].
Qed.

Lemma media_contact_bypasses_the_limiter_witness :
  let page := mkContactPage
                (mkSearchDom true ["+55 11 99999-0001"%string]
                   (fun _ => mkChatDom true "+55 11 99999-0001"))
                true (mkMediaDom true (fun _ => Some 1) (fun _ => Some 2) false
                        (fun s => Some s))
                true (mkSendDom true false false) 3600200 3600300 in
  let w := map (fun i => 3600000 + Z.of_nat i)%Z (seq 1 30) in
  let r := contactTry (Some (mkPayload "b2k=" "image/png")) "oi" "5511999990001" page w in
  fst (checkRateLimit 3600300 w) = false
  /\ timestamps r = w ++ [3600300%Z].
Proof.
  intros page w r. split; [reflexivity|].
  destruct (media_contact_bypasses_the_limiter (mkPayload "b2k=" "image/png")
              "oi" "5511999990001" page w)
    as (_ & Hsent & _).
  destruct (Hsent eq_refl) as (_ & _ & Hwindow). exact Hwindow.
Defined.

Lemma parseCampaignLines_shape (raw : string) (e : ContactEntry) :
  In e (parseCampaignLines raw) -> plusThenDigitsOrPlus (number e) = true.
Proof.
  intros Hin. apply in_values_setAll in Hin. destruct Hin as [Hin|[]].
  pose proof (collectEntries_shape
                (filter (fun l => negb (Js.isEmpty l))
                        (map Js.trim (Js.splitLines (safeText raw))))) as Hall.
  rewrite Forall_forall in Hall. exact (Hall e Hin).
Qed.

Lemma normalizePhoneNumber_fixed (n : string) :
  plusThenDigitsOrPlus n = true -> normalizePhoneNumber n = n.
Proof.
  unfold plusThenDigitsOrPlus. intros H. apply andb_prop in H.
  destruct H as [Hplus Hall].
  unfold normalizePhoneNumber, Js.keepDigitsPlus. fold digitOrPlus.
  rewrite (keepChars_fixed digitOrPlus n Hall), Hplus. reflexivity.
Qed.

(** X22. The digits [executeDomCampaignDirectly] searches for are those
    [executeDomCampaign] searches for, with 55 in front exactly when the
    number, stripped of what is neither digit nor plus, has no leading plus
    and is not a text of 12 characters or more that starts with 55; for
    every entry that [parseCampaignLines] produces, [normalizePhoneNumber]
    leaves the number as it is and both runs search for the same digits. *)
Theorem direct_run_searches_the_panel_digits (e : ContactEntry) :
  let d := Js.keepDigitsPlus (number e) in
  directPhoneDigits e
  = ((if Js.startsWith d "+" || (Js.startsWith d "55" && (12 <=? String.length d)%nat)
      then EmptyString else "55") ++ campaignPhoneDigits e)%string
  /\ (forall raw, In e (parseCampaignLines raw) ->
                  normalizePhoneNumber (number e) = number e
                  /\ directPhoneDigits e = campaignPhoneDigits e).
Proof.
  cbv zeta. split.
  - unfold directPhoneDigits, campaignPhoneDigits, normalizePhoneNumber.
    rewrite <- (keepDigits_of_keepDigitsPlus (number e)).
    destruct (Js.startsWith (Js.keepDigitsPlus (number e)) "+"); cbn [orb];
      [reflexivity|].
    destruct (Js.startsWith (Js.keepDigitsPlus (number e)) "55"
              && (12 <=? String.length (Js.keepDigitsPlus (number e)))%nat);
      reflexivity.
  - intros raw Hin.
    assert (Hn : normalizePhoneNumber (number e) = number e)
      by (apply normalizePhoneNumber_fixed, (parseCampaignLines_shape raw); exact Hin).
    split; [exact Hn|].
    unfold directPhoneDigits, campaignPhoneDigits. rewrite Hn. reflexivity.
Qed.

Lemma direct_run_searches_the_panel_digits_witness :
  let e := mkEntry "+5511999990001" "Ana" in
  parseCampaignLines "5511999990001, Ana" = [e]
  /\ normalizePhoneNumber (number e) = number e
  /\ directPhoneDigits e = campaignPhoneDigits e.
Proof.
  intros e. split; [reflexivity|].
  destruct (direct_run_searches_the_panel_digits e) as (_ & Hparsed).
  apply (Hparsed "5511999990001, Ana"%string). left. reflexivity.
Defined.

(** An entry that does not come from [parseCampaignLines], as a team member
    of [SEND_TEAM_MESSAGES]: the two runs search for different digits. *)
Example unparsed_entry_is_searched_differently :
  let e := mkEntry "11999990002" "Bia" in
  campaignPhoneDigits e = "11999990002"%string
  /\ directPhoneDigits e = "5511999990002"%string.
Proof. split; reflexivity. Qed.

(** ** The order of a run, under any events *)

Lemma seq_snoc (a : nat) : seq 0 a ++ [a] = seq 0 (S a).
Proof. rewrite seq_S. reflexivity. Qed.

Lemma runInvariant_start (es : list ContactEntry) (msg : string) :
  runInvariant es msg (executeDomCampaign es msg).
Proof.
  unfold runInvariant, executeDomCampaign, inOrder. cbn.
  repeat split; lia.
Qed.

Ltac runner_cbn :=
  cbn [campRun entries message point stored statusLine opened results
       abort paused running cursor total negb andb].

Ltac runner_cases :=
  unfold afterSave; unfold loopHead; unfold waitWhilePaused;
  unfold endContact, finishRun, enterContact, setPoint,
    campPauseBtn_click, campStopBtn_click, setCampRun;
  runner_cbn; rewrite ?Nat.add_1_r;
  repeat (match goal with
          | |- context [Nat.ltb ?a ?b] => destruct (Nat.ltb_spec a b)
          | |- context [if ?b then _ else _] => destruct b
          end; runner_cbn).

Ltac order_done :=
  repeat match goal with
         | H : _ /\ _ |- _ => destruct H
         | H : exists _, _ |- _ => destruct H
         end;
  subst;
  rewrite ?map_app; cbn [map fst];
  repeat match goal with
         | |- _ /\ _ => split
         | |- exists _, _ => eexists
         end;
  first [ reflexivity | lia | assumption | apply seq_snoc | discriminate
        | match goal with H : map fst _ = _ |- _ => rewrite H; apply seq_snoc end ].

Lemma runInvariant_step (es : list ContactEntry) (msg : string) (r : Runner) (e : Event) :
  runInvariant es msg r -> runInvariant es msg (step r e).
Proof.
  destruct r as [[run pau ab cur tot] ents m p st sl op res].
  unfold runInvariant, inOrder, inLoop.
  cbn [entries message point campRun opened results stored cursor running total].
  intros (-> & -> & -> & -> & H).
  destruct e as [o| |]; unfold step, resume; cbn [point];
    destruct p as [| |i|i|i|i| |]; try (destruct H; fail);
    runner_cases; order_done.
Qed.

Lemma runInvariant_run (es : list ContactEntry) (msg : string) (evs : list Event) :
  runInvariant es msg (run (executeDomCampaign es msg) evs).
Proof.
  unfold run. rewrite <- (rev_involutive evs).
  induction (rev evs) as [|e l IH]; [apply runInvariant_start|].
  cbn [rev]. rewrite fold_left_app. cbn [fold_left].
  apply runInvariant_step. exact IH.
Qed.

(** X23. Whatever the outcomes of the contacts and whatever is clicked and
    when, [executeDomCampaign] takes the contacts in the order of its list,
    skipping none and taking none twice: the contacts it has opened are the
    first [a] of the list and the contacts it has closed the first [b], in
    order, with [a = b], or [a = b + 1] exactly while the run is inside
    the [try] block of a contact; [campRun.cursor] is the number of contacts
    closed. *)
Theorem campaign_contacts_are_taken_in_order (es : list ContactEntry) (msg : string)
    (evs : list Event) :
  let r := run (executeDomCampaign es msg) evs in
  exists a b,
    opened r = seq 0 a /\ map fst (results r) = seq 0 b
    /\ cursor (campRun r) = b /\ a <= length es /\ (a = b \/ a = S b)
    /\ (a = S b <-> exists i, point r = AwaitContact i).
Proof.
  cbv zeta. pose proof (runInvariant_run es msg evs) as H.
  unfold runInvariant, inOrder in H.
  destruct H as (He & _ & _ & _ & H). rewrite He in H.
  destruct (point (run (executeDomCampaign es msg) evs)) as [| |i|i|i|i| |];
    try (destruct H; fail);
    [ destruct H as ((Ho & Hr & Hc & Hl) & _); exists 0, 0
    | destruct H as ((Ho & Hr & Hc & Hl) & _); exists i, i
    | destruct H as ((Ho & Hr & Hc & Hl) & _); exists (S i), i
    | destruct H as ((Ho & Hr & Hc & Hl) & _); exists (S i), (S i)
    | destruct H as ((Ho & Hr & Hc & Hl) & _); exists (S i), (S i)
    | destruct H as ((a & Ho & Hr & Hc & Hl) & _); exists a, a
    | destruct H as ((a & Ho & Hr & Hc & Hl) & _); exists a, a ];
    (split; [assumption|]); (split; [assumption|]); (split; [assumption|]);
    (split; [lia|]); (split; [lia|]);
    (split; [ intros; first [lia | eexists; reflexivity]
            | intros (j & Hj); first [discriminate | lia] ]).
Qed.

(** X24. Whatever the outcomes and the clicks, [campRun.running] is true
    exactly while [executeDomCampaign] is in its loop and [campRun.total]
    is the length of the list; as long as the loop runs the stored record
    holds the list and the message of the run with, as its cursor,
    [campRun.cursor], the index of the first contact not yet closed; once
    the loop is left the stored record is cleared. *)
Theorem campaign_state_is_saved_while_the_loop_runs (es : list ContactEntry)
    (msg : string) (evs : list Event) :
  let r := run (executeDomCampaign es msg) evs in
  running (campRun r) = inLoop r
  /\ total (campRun r) = length es
  /\ (inLoop r = true ->
      exists st, stored r = Some (mkCampaignState es msg (cursor (campRun r)) st))
  /\ (inLoop r = false -> stored r = None).
Proof.
  cbv zeta. pose proof (runInvariant_run es msg evs) as H.
  unfold runInvariant, inOrder in H.
  destruct H as (_ & _ & Hrun & Htot & H).
  split; [exact Hrun|]. split; [exact Htot|].
  unfold inLoop in *.
  destruct (point (run (executeDomCampaign es msg) evs)) as [| |i|i|i|i| |];
    try (destruct H; fail).
  - destruct H as ((_ & _ & Hc & _) & Hst). rewrite Hc.
    split; [intros _; eexists; exact Hst | discriminate].
  - destruct H as ((_ & _ & Hc & _) & _ & Hst). rewrite Hc.
    split; [intros _; exact Hst | discriminate].
  - destruct H as ((_ & _ & Hc & _) & _ & Hst). rewrite Hc.
    split; [intros _; exact Hst | discriminate].
  - destruct H as ((_ & _ & Hc & _) & Hst). rewrite Hc.
    split; [intros _; exact Hst | discriminate].
  - destruct H as ((_ & _ & Hc & _) & _ & Hst). rewrite Hc.
    split; [intros _; exact Hst | discriminate].
  - destruct H as (_ & Hst). split; [discriminate | intros _; exact Hst].
  - destruct H as (_ & Hst). split; [discriminate | intros _; exact Hst].
Qed.

Lemma campaign_state_is_saved_while_the_loop_runs_witness :
  let es := [mkEntry "+5511999990001" "Ana"; mkEntry "+5511999990002" "Bia"] in
  let r := run (executeDomCampaign es "oi")
               [Settled StepOk; ClickPause; Settled (StepThrew "x"); Settled StepOk] in
  point r = AwaitDelay 0
  /\ exists st, stored r = Some (mkCampaignState es "oi" 1 st).
Proof.
  intros es r. split; [reflexivity|].
  destruct (campaign_state_is_saved_while_the_loop_runs es "oi"
              [Settled StepOk; ClickPause; Settled (StepThrew "x"); Settled StepOk])
    as (_ & _ & Hsaved & _).
  exact (Hsaved eq_refl).
Defined.

(** ** [executeDomCampaignDirectly] *)

Lemma directAfter_succ (n : nat) (d : DirectRun) :
  directAfter (S n) d = directResume (directAfter n d).
Proof. reflexivity. Qed.

Lemma direct_contact_after (es : list ContactEntry) (msg : string) (j : nat) :
  j < length es ->
  directAfter (2 * j) (executeDomCampaignDirectly es msg)
  = mkDirect es msg (DirectContact j) (seq 0 (S j)).
Proof.
  induction j as [|j IH]; intros Hj.
  - cbn [Nat.mul directAfter Nat.iter].
    unfold executeDomCampaignDirectly, directHead. cbn [direct_entries direct_message
                                                          direct_opened].
    destruct (Nat.ltb_spec 0 (length es)); [reflexivity | lia].
  - replace (2 * S j) with (S (S (2 * j))) by lia.
    rewrite !directAfter_succ, IH by lia.
    unfold directResume at 2. cbn [direct_point direct_entries direct_message direct_opened].
    destruct (Nat.ltb_spec j (length es - 1)) as [_|Hge]; [|lia].
    unfold directResume, directHead.
    cbn [direct_point direct_entries direct_message direct_opened].
    rewrite Nat.add_1_r.
    destruct (Nat.ltb_spec (S j) (length es)) as [_|Hge]; [|lia].
    rewrite (seq_snoc (S j)). reflexivity.
Qed.

Lemma direct_ended_stays (es : list ContactEntry) (msg : string) (op : list nat) (n : nat) :
  directAfter n (mkDirect es msg DirectEnded op) = mkDirect es msg DirectEnded op.
Proof.
  induction n as [|n IH]; [reflexivity|].
  rewrite directAfter_succ, IH. reflexivity.
Qed.

Lemma directAfter_add (a b : nat) (d : DirectRun) :
  directAfter (a + b) d = directAfter a (directAfter b d).
Proof.
  induction a as [|a IH]; [reflexivity|].
  cbn [Nat.add]. rewrite !directAfter_succ, IH. reflexivity.
Qed.

(** X25. [executeDomCampaignDirectly] takes every contact of its list, in
    order, whatever the outcomes: contact [j] is the one in hand after
    exactly [2 j] settlements, the contacts before it having been opened in
    order, and from [2 n - 1] settlements on, [n] being the length of the
    list, the run has ended with all [n] contacts opened. *)
Theorem direct_run_takes_every_contact_in_order (es : list ContactEntry) (msg : string) :
  let d := executeDomCampaignDirectly es msg in
  let n := length es in
  (forall j, j < n ->
             directAfter (2 * j) d = mkDirect es msg (DirectContact j) (seq 0 (S j)))
  /\ (forall k, 2 * n - 1 <= k ->
                directAfter k d = mkDirect es msg DirectEnded (seq 0 n)).
Proof.
  cbv zeta. split; [intros j Hj; apply direct_contact_after; exact Hj|].
  intros k Hk.
  destruct (length es) as [|m] eqn:Hn.
  - unfold executeDomCampaignDirectly, directHead.
    cbn [direct_entries direct_message direct_opened]. rewrite Hn. cbn [Nat.ltb Nat.leb].
    apply direct_ended_stays.
  - replace k with ((k - (2 * S m - 1)) + S (2 * m)) by lia.
    rewrite directAfter_add, directAfter_succ, direct_contact_after by lia.
    unfold directResume, directHead.
    cbn [direct_point direct_entries direct_message direct_opened].
    rewrite Hn, Nat.add_1_r.
    destruct (Nat.ltb_spec m (S m - 1)) as [Hlt|_]; [lia|].
    destruct (Nat.ltb_spec (S m) (S m)) as [Hlt|_]; [lia|].
    apply direct_ended_stays.
Qed.

Lemma direct_run_takes_every_contact_in_order_witness :
  let es := [mkEntry "+5511999990001" "Ana"; mkEntry "+5511999990002" "Bia";
             mkEntry "+5511999990003" ""] in
  directAfter 4 (executeDomCampaignDirectly es "oi")
  = mkDirect es "oi" (DirectContact 2) [0; 1; 2]
  /\ directAfter 5 (executeDomCampaignDirectly es "oi")
     = mkDirect es "oi" DirectEnded [0; 1; 2].
Proof.
  intros es.
  destruct (direct_run_takes_every_contact_in_order es "oi") as (Hcontact & Hend).
  split; [apply (Hcontact 2); simpl; lia | apply (Hend 5); simpl; lia].
Defined.
